(** * Conductor: job orchestration and execution pipeline

    A shallow embedding of the backend of the Conductor control plane:
    - [backend/src/services/worker.js]: the queue worker, the job runners
      and the execution backend ([executeCommand], [checkDockerAvailable]);
    - [backend/src/server.js]: the HTTP submission handlers of the demo mode
      with their timers, and the queue helpers [createJob], [getQueueStats].

    JavaScript values are an inductive type; effects (file system, child
    processes, registry queries, socket emissions, clock) are threaded through
    a state-and-exception monad whose outcomes are driven by an explicit
    environment. *)

From stdpp Require Import base strings list gmap fin_maps pretty.
From Stdlib Require Import ZArith Lia Ascii.

Set Warnings "-register-all".
Local Open Scope Z_scope.

(** The newline and the double quote, which string literals cannot hold. *)
Definition nl : string := String "010"%char EmptyString.
Definition dq : string := String "034"%char EmptyString.

(* ===================================================================== *)
(** ** JavaScript values *)
(* ===================================================================== *)

Module Js.

(** A JSON-born JavaScript value, as [job.data] (deserialised by the queue)
    and [req.body] (parsed by [express.json]) hold them.

    - [Num]: the integer-valued numbers (ids, exit codes, timestamps), in the
      range where JavaScript prints them in plain decimal.
    - [Obj]: the own enumerable properties in enumeration order; keys are
      distinct and are data keys: none shadows a member of
      [Object.prototype]. *)
Inductive val : Type :=
  | Undefined
  | Null
  | Bool (b : bool)
  | Num (n : Z)
  | Str (s : string)
  | Arr (items : list val)
  | Obj (props : list (string * val)).

(** A thrown JavaScript error: [name], [message] and the optional [code] of
    system errors (['ENOENT'], ...). *)
Record error : Type := MkError {
  err_name : string;
  message : string;
  code : option string
}.

(** [new Error(msg)] *)
Definition Error (msg : string) : error := MkError "Error" msg None.
Definition TypeError (msg : string) : error := MkError "TypeError" msg None.

(** [e.code === c] *)
Definition code_is (e : error) (c : string) : bool :=
  match code e with
  | Some c' => String.eqb c' c
  | None => false
  end.

(** Result of an evaluation that may throw. *)
Inductive res (A : Type) : Type :=
  | Ok (a : A)
  | Throw (e : error).
Arguments Ok {A} a.
Arguments Throw {A} e.

Definition res_bind {A B} (r : res A) (k : A → res B) : res B :=
  match r with
  | Ok a => k a
  | Throw e => Throw e
  end.

(** [typeof v === 'object'] *)
Definition typeof_object (v : val) : bool :=
  match v with
  | Null | Arr _ | Obj _ => true
  | _ => false
  end.

(** ToBoolean, as [if (v)] and [!v] apply it. *)
Definition truthy (v : val) : bool :=
  match v with
  | Undefined | Null => false
  | Bool b => b
  | Num n => negb (n =? 0)
  | Str s => negb (String.eqb s EmptyString)
  | Arr _ | Obj _ => true
  end.

Fixpoint assoc (k : string) (props : list (string * val)) : option val :=
  match props with
  | [] => None
  | (k', v) :: rest => if String.eqb k k' then Some v else assoc k rest
  end.

(** Property read [o.k] for a data key [k] (the program reads [hosts],
    [message], [playbook], [inventory], [variables], [dbJobId], [name],
    [workingDir]): reading from [undefined] or [null] throws, a missing
    property reads [undefined]. *)
Definition get (o : val) (k : string) : res val :=
  match o with
  | Undefined =>
      Throw (TypeError ("Cannot read properties of undefined (reading '" +:+ k +:+ "')"))
  | Null =>
      Throw (TypeError ("Cannot read properties of null (reading '" +:+ k +:+ "')"))
  | Obj props => Ok (default Undefined (assoc k props))
  | _ => Ok Undefined
  end.

(** The first property of a destructuring pattern [const { k, ... } = o],
    where the program text writes [src] for [o]. *)
Definition get_first (o : val) (k src : string) : res val :=
  match o with
  | Undefined =>
      Throw (TypeError ("Cannot destructure property '" +:+ k +:+ "' of '" +:+ src
                        +:+ "' as it is undefined."))
  | Null =>
      Throw (TypeError ("Cannot destructure property '" +:+ k +:+ "' of '" +:+ src
                        +:+ "' as it is null."))
  | _ => get o k
  end.

(** Destructuring default [{ k = d }]: the default applies to [undefined]
    only. *)
Definition get_default (o : val) (k : string) (d : val) : res val :=
  res_bind (get o k) (fun v =>
    match v with
    | Undefined => Ok d
    | _ => Ok v
    end).

Definition join (sep : string) (parts : list string) : string :=
  String.concat sep parts.

(** ToString, as a template literal applies it to an interpolated value.
    An array prints its elements joined by commas, [null] and [undefined]
    elements as the empty string. *)
Fixpoint ToString (v : val) : string :=
  match v with
  | Undefined => "undefined"
  | Null => "null"
  | Bool true => "true"
  | Bool false => "false"
  | Num n => pretty n
  | Str s => s
  | Arr items =>
      join ","
        ((fix elems (l : list val) : list string :=
            match l with
            | [] => []
            | Undefined :: r => EmptyString :: elems r
            | Null :: r => EmptyString :: elems r
            | x :: r => ToString x :: elems r
            end) items)
  | Obj _ => "[object Object]"
  end.

(** A string as the sequence of its units, each a one-unit string. *)
Fixpoint units (s : string) : list string :=
  match s with
  | EmptyString => []
  | String c r => String c EmptyString :: units r
  end.

Definition indexed {A} (l : list A) : list (string * A) :=
  imap (fun i x => (pretty i, x)) l.

(** [Object.entries(v)] *)
Definition entries (v : val) : res (list (string * val)) :=
  match v with
  | Undefined | Null => Throw (TypeError "Cannot convert undefined or null to object")
  | Obj props => Ok props
  | Arr items => Ok (indexed items)
  | Str s => Ok (indexed (Str <$> units s))
  | Bool _ | Num _ => Ok []
  end.

Declare Scope res_scope.
Delimit Scope res_scope with res.
Notation "'let?' x ':=' r 'in' k" := (res_bind r (fun x => k))
  (at level 10, x pattern, r at level 100, k at level 200) : res_scope.

(** Loop [for (const x of l) body], threading the variables the body
    assigns; a throwing iteration leaves the loop. *)
Fixpoint for_of {A S} (l : list A) (body : S → A → res S) (s : S) : res S :=
  match l with
  | [] => Ok s
  | x :: rest => res_bind (body s x) (for_of rest body)
  end.

(** *** The monad of asynchronous code: state and exceptions *)

Definition M (S A : Type) : Type := S → res A * S.

Definition ret {S A} (a : A) : M S A := fun w => (Ok a, w).
Definition throw {S A} (e : error) : M S A := fun w => (Throw e, w).
Definition bind {S A B} (m : M S A) (k : A → M S B) : M S B :=
  fun w =>
    match m w with
    | (Ok a, w') => k a w'
    | (Throw e, w') => (Throw e, w')
    end.
Definition lift {S A} (r : res A) : M S A := fun w => (r, w).

Declare Scope js_scope.
Delimit Scope js_scope with js.
Notation "'let!' x ':=' m 'in' k" := (bind m (fun x => k))
  (at level 10, x pattern, m at level 100, k at level 200) : js_scope.
Notation "m '>>' k" := (bind m (fun _ => k))
  (at level 65, right associativity) : js_scope.
Local Open Scope js_scope.

(** [try { body } catch (e) { handler e }] *)
Definition try_catch {S A} (body : M S A) (handler : error → M S A) : M S A :=
  fun w =>
    match body w with
    | (Ok a, w') => (Ok a, w')
    | (Throw e, w') => handler e w'
    end.

(** [try { body } finally { fin }]: [fin] runs on both exits; when it
    throws, its error replaces the outcome of [body]. *)
Definition try_finally {S A} (body : M S A) (fin : M S unit) : M S A :=
  fun w =>
    match body w with
    | (r, w') =>
        match fin w' with
        | (Ok _, w'') => (r, w'')
        | (Throw e, w'') => (Throw e, w'')
        end
    end.

Definition when {S} (c : bool) (m : M S unit) : M S unit :=
  if c then m else ret tt.

Fixpoint mfor {S A B} (l : list A) (body : B → A → M S B) (b : B) : M S B :=
  match l with
  | [] => ret b
  | x :: rest => let! b' := body b x in mfor rest body b'
  end.

(** *** [JSON.stringify] *)

Definition hex_digit (n : nat) : string :=
  String (nth n (String.list_ascii_of_string "0123456789abcdef") "0"%char) EmptyString.

Definition json_unit (c : ascii) : string :=
  let n := nat_of_ascii c in
  if (n =? 34)%nat then "\" +:+ dq
  else if (n =? 92)%nat then "\\"
  else if (n =? 8)%nat then "\b"
  else if (n =? 12)%nat then "\f"
  else if (n =? 10)%nat then "\n"
  else if (n =? 13)%nat then "\r"
  else if (n =? 9)%nat then "\t"
  else if (n <? 32)%nat then "\u00" +:+ hex_digit (n / 16) +:+ hex_digit (n mod 16)
  else String c EmptyString.

Definition json_string (s : string) : string :=
  dq +:+ String.concat EmptyString (json_unit <$> String.list_ascii_of_string s) +:+ dq.

(** [`${JSON.stringify(v)}`]: [JSON.stringify(undefined)] is [undefined],
    which the template prints; inside an array [undefined] prints [null],
    inside an object the property is left out. *)
Fixpoint json (v : val) : string :=
  match v with
  | Undefined => "undefined"
  | Null => "null"
  | Bool true => "true"
  | Bool false => "false"
  | Num n => pretty n
  | Str s => json_string s
  | Arr items =>
      "[" +:+ join ","
        ((fix elems (l : list val) : list string :=
            match l with
            | [] => []
            | Undefined :: r => "null" :: elems r
            | x :: r => json x :: elems r
            end) items) +:+ "]"
  | Obj props =>
      "{" +:+ join ","
        ((fix members (l : list (string * val)) : list string :=
            match l with
            | [] => []
            | (_, Undefined) :: r => members r
            | (k, x) :: r => (json_string k +:+ ":" +:+ json x) :: members r
            end) props) +:+ "}"
  end.

End Js.

(* ===================================================================== *)
(** ** The worker: effects *)
(* ===================================================================== *)

Module Worker.
Import Js.

(** *** File system, child processes, registry *)

Inductive node : Type :=
  | Dir
  | File (content : string).

(** [path.join] on segments that need no normalisation (the temporary
    directory, [job-<id>] for a queue-generated id, literal file names). *)
Definition path_join (a b : string) : string := a +:+ "/" +:+ b.

(** A path is under [root] when it is [root] or lies below it. *)
Definition under (root p : string) : bool :=
  String.eqb p root || String.prefix (root +:+ "/") p.

(** One chunk a child process writes; a chunk of the standard output comes
    with the time at which its ['data'] event is handled. *)
Inductive chunk : Type :=
  | Stdout (at_time : Z) (text : string)
  | Stderr (text : string).

(** How a child process ends: it exits (['close'] with the exit code, [null]
    when a signal killed it), or it could not be spawned (['error'], after
    which ['close'] finds the promise settled). *)
Inductive ending : Type :=
  | Exited (exit_code : option Z)
  | SpawnFailed (e : error).

Record proc_run : Type := MkRun {
  chunks : list chunk;
  elapsed : Z;
  fs_effect : gmap string node → gmap string node;
  ending_of : ending
}.

(** The options object handed to [spawn]. *)
Record spawn_opts : Type := MkOpts {
  stdio : option string;
  timeout : option Z
}.

(** The three registry updates the worker issues. *)
Inductive statement : Type :=
  | SetRunning
  | SetCompleted (result : val)
  | SetFailed (result : val).

(** A row of the [jobs] table, as far as the worker writes it. *)
Record row : Type := MkRow {
  status : string;
  result : option val;
  started_at : option Z;
  completed_at : option Z
}.

(** Every effect the worker attempts, in order. *)
Inductive op : Type :=
  | Mkdir (path : string)
  | WriteFile (path : string) (content : string)
  | Rm (path : string)
  | Spawn (command : string) (args : list string) (opts : spawn_opts)
  | Query (st : statement) (id : val)
  | Emit (room event : string) (payload : val)
  | SetTimeout (ms : Z).

Inductive fs_call : Type :=
  | CallMkdir (path : string)
  | CallWrite (path : string)
  | CallRm (path : string).

(** What the worker cannot decide: the host, the registry and the tools. *)
Record env : Type := MkEnv {
  tmpdir : string;                          (* os.tmpdir() *)
  pool : bool;                              (* [pool] is set *)
  io : bool;                                (* [global.io] is set *)
  iso : Z → string;                         (* Date.prototype.toISOString *)
  fs_fault : fs_call → option error;        (* a file-system call that fails *)
  db_fault : nat → option error;            (* the n-th registry query fails *)
  proc : string → list string → proc_run    (* what a spawned command does *)
}.

Record world : Type := MkWorld {
  now : Z;
  fs : gmap string node;
  db : gmap Z row;
  queries : nat;
  trace : list op
}.

Definition log_op (o : op) (w : world) : world :=
  MkWorld (now w) (fs w) (db w) (queries w) (trace w ++ [o]).
Definition set_fs (f : gmap string node) (w : world) : world :=
  MkWorld (now w) f (db w) (queries w) (trace w).
Definition set_db (d : gmap Z row) (w : world) : world :=
  MkWorld (now w) (fs w) d (S (queries w)) (trace w).
Definition tick (dt : Z) (w : world) : world :=
  MkWorld (now w + dt) (fs w) (db w) (queries w) (trace w).

(** Asynchronous code of the worker runs in [Js.M world]. *)
Abbreviation M := (Js.M world).
Local Open Scope js_scope.

Section Effects.
Variable E : env.

Definition clock : M Z := fun w => (Ok (now w), w).

(** [await new Promise(resolve => setTimeout(..., ms))] *)
Definition sleep (ms : Z) : M unit :=
  fun w => (Ok tt, tick ms (log_op (SetTimeout ms) w)).

(** [fs.mkdir(path, { recursive: true })] *)
Definition fs_mkdir (path : string) : M unit :=
  fun w =>
    let w := log_op (Mkdir path) w in
    match fs_fault E (CallMkdir path) with
    | Some e => (Throw e, w)
    | None => (Ok tt, set_fs (<[path := Dir]> (fs w)) w)
    end.

(** [fs.writeFile(path, data)]: [data] must be a string. *)
Definition fs_writeFile (path : string) (data : val) : M unit :=
  match data with
  | Str s =>
      fun w =>
        let w := log_op (WriteFile path s) w in
        match fs_fault E (CallWrite path) with
        | Some e => (Throw e, w)
        | None => (Ok tt, set_fs (<[path := File s]> (fs w)) w)
        end
  | _ =>
      throw (MkError "TypeError"
               ("The " +:+ dq +:+ "data" +:+ dq +:+
                " argument must be of type string or an instance of Buffer, TypedArray, or DataView.")
               (Some "ERR_INVALID_ARG_TYPE"))
  end.

(** [fs.rm(path, { recursive: true, force: true })] *)
Definition fs_rm (path : string) : M unit :=
  fun w =>
    let w := log_op (Rm path) w in
    match fs_fault E (CallRm path) with
    | Some e => (Throw e, w)
    | None =>
        (Ok tt, set_fs (filter (fun kv : string * node => under path kv.1 = false) (fs w)) w)
    end.

(** [spawn(command, args, opts)]: the process is started; what it does is
    the environment's. *)
Definition spawn (command : string) (args : list string) (opts : spawn_opts) : M proc_run :=
  fun w => (Ok (proc E command args), log_op (Spawn command args opts) w).

(** The process has written its chunks and ends. *)
Definition proc_end (run : proc_run) : M ending :=
  fun w => (Ok (ending_of run), tick (elapsed run) (set_fs (fs_effect run (fs w)) w)).

(** [UPDATE jobs SET ... WHERE id = $id]: rows are matched by an integer
    id; any other parameter matches no row. *)
Definition exec (st : statement) (id : val) (t : Z) (d : gmap Z row) : gmap Z row :=
  match id with
  | Num n =>
      match st with
      | SetRunning =>
          alter (fun r => MkRow "running" (result r) (Some t) (completed_at r)) n d
      | SetCompleted v =>
          alter (fun r => MkRow "completed" (Some v) (started_at r) (Some t)) n d
      | SetFailed v =>
          alter (fun r => MkRow "failed" (Some v) (started_at r) (Some t)) n d
      end
  | _ => d
  end.

(** [await pool.query(...).catch(err => console.log(...))]: a rejected query
    is logged and swallowed. *)
Definition query (st : statement) (id : val) : M unit :=
  fun w =>
    let w1 := log_op (Query st id) w in
    match db_fault E (queries w) with
    | Some _ => (Ok tt, set_db (db w1) w1)
    | None => (Ok tt, set_db (exec st id (now w1) (db w1)) w1)
    end.

(** [global.io.to(room).emit(event, payload)] *)
Definition emit (room event : string) (payload : val) : M unit :=
  fun w => (Ok tt, log_op (Emit room event payload) w).

End Effects.

(** The world once a spawned process has ended, [ops] being the emissions
    made while it ran. *)
Definition ended (E : env) (command : string) (args : list string) (o : spawn_opts)
    (ops : list op) (w : world) : world :=
  let run := proc E command args in
  MkWorld (now w + elapsed run) (fs_effect run (fs w)) (db w) (queries w)
    (trace w ++ Spawn command args o :: ops).

Definition is_emit (o : op) : Prop := ∃ room ev p, o = Emit room ev p.

(** A computation that only ever adds to the trace of effects. *)
Definition appends {A} (m : M A) : Prop :=
  ∀ w, ∃ ops, trace (m w).2 = trace w ++ ops.

(** *** Jobs *)

(** A queue job as the processor receives it. [data] is the payload object
    (the queue stores [{}] for a missing payload); [attemptsMade] counts the
    attempts finished before this one and [attempts] is [opts.attempts]. *)
Record job : Type := MkJob {
  id : string;
  name : string;
  data : list (string * val);
  processedOn : Z;
  attemptsMade : nat;
  attempts : nat
}.

(** [job.data.k] *)
Definition field (j : job) (k : string) : val :=
  default Undefined (assoc k (data j)).

(** The queue retries a failed attempt while attempts remain. *)
Definition attempts_remain (j : job) : bool :=
  (attemptsMade j + 1 <? attempts j)%nat.

(** *** Inventory rendering (worker.js, lines 106-128) *)

Local Open Scope res_scope.

Definition render_var (acc : string) (kv : string * val) : res string :=
  let '(key, value) := kv in
  Ok (acc +:+ " " +:+ key +:+ "=" +:+ ToString value).

Definition render_host (acc : string) (hv : string * val) : res string :=
  let '(host, vars) := hv in
  let acc := acc +:+ host in
  let? acc :=
    (if truthy vars
     then let? kvs := entries vars in for_of kvs render_var acc
     else Ok acc) in
  Ok (acc +:+ nl).

Definition render_group (acc : string) (gh : string * val) : res string :=
  let '(group, hosts) := gh in
  let acc := acc +:+ "[" +:+ group +:+ "]" +:+ nl in
  let? hosts_hosts := get hosts "hosts" in
  let? acc :=
    (if truthy hosts_hosts
     then let? hs := entries hosts_hosts in for_of hs render_host acc
     else Ok acc) in
  Ok (acc +:+ nl).

(** The loop that converts an inventory object to the INI text. *)
Definition render_inventory (inventory : val) : res string :=
  let? groups := entries inventory in
  for_of groups render_group EmptyString.

Local Close Scope res_scope.

Section Runners.
Variable E : env.

(** The inventory file: an object is rendered, anything else is handed to
    [fs.writeFile] as it is. *)
Definition write_inventory (inventoryPath : string) (inventory : val) : M unit :=
  if typeof_object inventory then
    let! inventoryContent := lift (render_inventory inventory) in
    fs_writeFile E inventoryPath (Str inventoryContent)
  else
    fs_writeFile E inventoryPath inventory.

Definition runTestEcho (j : job) : M val :=
  let message := field j "message" in
  sleep 2000 >>
  let! t := clock in
  ret (Obj [("output", Str ("Echo: " +:+ ToString message));
            ("timestamp", Str (iso E t));
            ("exitCode", Num 0)]).

Definition runTerraformPlan (j : job) : M val :=
  sleep 3000 >>
  ret (Obj [("output", Str "Terraform plan ejecutado exitosamente (simulación)");
            ("plan", Str "Plan: 1 to add, 0 to change, 0 to destroy");
            ("exitCode", Num 0)]).

Definition runTerraformApply (j : job) : M val :=
  sleep 5000 >>
  ret (Obj [("output", Str "Terraform apply ejecutado exitosamente (simulación)");
            ("applied", Str "Apply complete! Resources: 1 added, 0 changed, 0 destroyed");
            ("exitCode", Num 0)]).

(** The exit code as the error message prints it. *)
Definition show_code (c : option Z) : string :=
  match c with
  | Some n => ToString (Num n)
  | None => ToString Null
  end.

Definition on_chunk (j : job) (acc : string * string) (c : chunk) : M (string * string) :=
  let '(output, error) := acc in
  match c with
  | Stdout t text =>
      when (io E && truthy (field j "dbJobId"))
        (emit ("job-" +:+ ToString (field j "dbJobId")) "job-log"
           (Obj [("jobId", field j "dbJobId");
                 ("log", Str text);
                 ("timestamp", Str (iso E t))])) >>
      ret (output +:+ text, error)
  | Stderr text => ret (output, error +:+ text)
  end.

Definition executeCommand (command : string) (args : list string) (j : job) : M val :=
  let! run := spawn E command args (MkOpts None None) in
  let! (output, error) := mfor (chunks run) (on_chunk j) (EmptyString, EmptyString) in
  let! e := proc_end run in
  match e with
  | Exited exit_code =>
      match exit_code with
      | Some 0 =>
          let! t := clock in
          ret (Obj [("output", Str output);
                    ("exitCode", Num 0);
                    ("duration", Num (t - processedOn j))])
      | _ =>
          throw (Error (command +:+ " falló con código " +:+ show_code exit_code
                        +:+ ":" +:+ nl +:+ error))
      end
  | SpawnFailed err =>
      if code_is err "ENOENT"
      then throw (Error (command +:+ " no está instalado o no está en el PATH"))
      else throw err
  end.

Definition checkDockerAvailable : M bool :=
  let! run := spawn E "docker" ["--version"] (MkOpts (Some "ignore") None) in
  let! e := proc_end run in
  match e with
  | Exited exit_code =>
      ret (match exit_code with Some 0 => true | _ => false end)
  | SpawnFailed _ => ret false
  end.

Definition runWithDocker (workDir inventoryPath playbookPath extraVarsArg : string)
    (j : job) : M val :=
  let dockerArgs :=
    ["run"; "--rm";
     "-v"; workDir +:+ ":/workspace";
     "quay.io/ansible/ansible-runner:latest";
     "ansible-playbook";
     "-i"; "/workspace/inventory.ini";
     "/workspace/playbook.yml"] in
  let dockerArgs :=
    if truthy (Str extraVarsArg)
    then dockerArgs ++ ["--extra-vars"; "@/workspace/vars.yml"]
    else dockerArgs in
  executeCommand "docker" dockerArgs j.

Definition runWithLocalAnsible (workDir inventoryPath playbookPath extraVarsArg : string)
    (j : job) : M val :=
  let ansibleArgs := ["-i"; inventoryPath; playbookPath] in
  let ansibleArgs :=
    if truthy (Str extraVarsArg)
    then ansibleArgs ++ ["--extra-vars"; "@" +:+ path_join workDir "vars.yml"]
    else ansibleArgs in
  executeCommand "ansible-playbook" ansibleArgs j.

Definition workDir_of (j : job) : string :=
  path_join (tmpdir E) ("job-" +:+ id j).

(** The probe and the choice of the execution path (lines 145-152). *)
Definition execute_playbook (workDir inventoryPath playbookPath extraVarsArg : string)
    (j : job) : M val :=
  let! dockerAvailable := checkDockerAvailable in
  if dockerAvailable
  then runWithDocker workDir inventoryPath playbookPath extraVarsArg j
  else runWithLocalAnsible workDir inventoryPath playbookPath extraVarsArg j.

(** The [try] block of [runAnsiblePlaybook]. *)
Definition playbook_body (j : job) (workDir : string) : M val :=
  let playbook := field j "playbook" in
  let inventory := field j "inventory" in
  let variables :=
    match field j "variables" with Undefined => Obj [] | v => v end in
  fs_mkdir E workDir >>
  let inventoryPath := path_join workDir "inventory.ini" in
  write_inventory inventoryPath inventory >>
  let playbookPath := path_join workDir "playbook.yml" in
  fs_writeFile E playbookPath playbook >>
  let! vars := lift (entries variables) in
  let! extraVarsArg :=
    (if (0 <? length vars)%nat then
       let varsPath := path_join workDir "vars.yml" in
       let yamlVars :=
         join nl ((fun kv : string * val => kv.1 +:+ ": " +:+ json kv.2) <$> vars) in
       fs_writeFile E varsPath (Str yamlVars) >>
       ret ("--extra-vars @" +:+ varsPath)
     else ret EmptyString) in
  execute_playbook workDir inventoryPath playbookPath extraVarsArg j.

(** The [finally] block: the removal is tried, its failure is logged. *)
Definition cleanup (workDir : string) : M unit :=
  try_catch (fs_rm E workDir) (fun _ => ret tt).

Definition runAnsiblePlaybook (j : job) : M val :=
  let workDir := workDir_of j in
  try_finally (playbook_body j workDir) (cleanup workDir).

(** The [try] block of the processor. *)
Definition attempt (j : job) : M val :=
  let dbJobId := field j "dbJobId" in
  when (pool E) (query E SetRunning dbJobId) >>
  let! result :=
    (if String.eqb (name j) "ansible-playbook" then runAnsiblePlaybook j
     else if String.eqb (name j) "terraform-plan" then runTerraformPlan j
     else if String.eqb (name j) "terraform-apply" then runTerraformApply j
     else if String.eqb (name j) "test-echo" then runTestEcho j
     else throw (Error ("Tipo de job desconocido: " +:+ name j))) in
  when (pool E) (query E (SetCompleted result) dbJobId) >>
  when (io E)
    (emit ("job-" +:+ ToString dbJobId) "job-completed"
       (Obj [("jobId", dbJobId); ("result", result)])) >>
  ret result.

(** What the [catch] block stores as the result of a failed job. *)
Definition error_result (error : Js.error) : val :=
  Obj [("error", Str (message error))].

(** The [catch] block of the processor. *)
Definition on_error (j : job) (error : Js.error) : M val :=
  when (pool E) (query E (SetFailed (error_result error)) (field j "dbJobId")) >>
  throw error.

(** The processor of the [conductor-jobs] worker. *)
Definition worker (j : job) : M val :=
  try_catch (attempt j) (on_error j).

End Runners.

(** The number of jobs the worker processes at once. *)
Definition concurrency : nat := 3.

End Worker.

(* ===================================================================== *)
(** ** The queue helpers: [createJob] and [getQueueStats] *)
(* ===================================================================== *)

Module Queue.
Import Js.
Local Open Scope js_scope.

(** The options object [createJob] passes to [jobQueue.add]. *)
Record job_opts : Type := MkOpts {
  removeOnComplete : nat;
  removeOnFail : nat;
  attempts : nat;
  backoff_type : string;
  backoff_delay : Z;
  delay : Z
}.

Record entry : Type := MkEntry {
  id : string;
  name : string;
  data : val;
  opts : job_opts
}.

(** The [conductor-jobs] queue as the queue library keeps it. *)
Record queue : Type := MkQueue {
  waiting : list entry;
  delayed : list entry;
  active : list entry;
  completed : list entry;
  failed : list entry;
  next_id : nat
}.

Inductive call : Type :=
  | Add
  | GetWaiting
  | GetActive
  | GetCompleted
  | GetFailed.

Section Helpers.
(** A call to the queue that is rejected (the store is unreachable, ...). *)
Variable fault : call → option error.

Abbreviation M := (Js.M queue).

(** [jobQueue.add(name, data, opts)]: the entry gets the next id and waits,
    deferred when [opts.delay] is positive. *)
Definition add (jobType : string) (jobData : val) (o : job_opts) : M entry :=
  fun q =>
    match fault Add with
    | Some e => (Throw e, q)
    | None =>
        let job := MkEntry (pretty (next_id q)) jobType jobData o in
        if 0 <? delay o
        then (Ok job, MkQueue (waiting q) (delayed q ++ [job]) (active q)
                        (completed q) (failed q) (S (next_id q)))
        else (Ok job, MkQueue (waiting q ++ [job]) (delayed q) (active q)
                        (completed q) (failed q) (S (next_id q)))
    end.

Definition read (c : call) (sel : queue → list entry) : M (list entry) :=
  fun q =>
    match fault c with
    | Some e => (Throw e, q)
    | None => (Ok (sel q), q)
    end.

Definition createJob (jobType : string) (jobData : val) : M entry :=
  try_catch
    (let! job := add jobType jobData
         {| removeOnComplete := 50;
            removeOnFail := 20;
            attempts := 3;
            backoff_type := "exponential";
            backoff_delay := 2000;
            delay := 1000 |} in
     ret job)
    (fun error => throw error).

Definition counts (w a c f : nat) : val :=
  Obj [("waiting", Num (Z.of_nat w));
       ("active", Num (Z.of_nat a));
       ("completed", Num (Z.of_nat c));
       ("failed", Num (Z.of_nat f))].

Definition getQueueStats : M val :=
  try_catch
    (let! waiting := read GetWaiting waiting in
     let! active := read GetActive active in
     let! completed := read GetCompleted completed in
     let! failed := read GetFailed failed in
     ret (counts (length waiting) (length active) (length completed) (length failed)))
    (fun error => ret (counts 0 0 0 0)).

End Helpers.

Definition empty : queue := MkQueue [] [] [] [] [] 1.

(** Sample inputs: a store that refuses the second read, and a queue with
    one waiting entry. *)
Definition redis_down (c : call) : option error :=
  match c with
  | GetActive => Some (Error "connect ECONNREFUSED 127.0.0.1:6379")
  | _ => None
  end.

Definition one_waiting : queue :=
  MkQueue [MkEntry "1" "test-echo" (Obj [("message", Str "ping")])
             (MkOpts 50 20 3 "exponential" 2000 1000)]
    [] [] [] [] 2.

(** One of the four reads of [getQueueStats] is rejected. *)
Definition unreadable (fault : call → option error) : Prop :=
  is_Some (fault GetWaiting) ∨ is_Some (fault GetActive) ∨
  is_Some (fault GetCompleted) ∨ is_Some (fault GetFailed).

End Queue.

(* ===================================================================== *)
(** ** The demo server: submission handlers and their timers *)
(* ===================================================================== *)

Module Server.
Import Js.
Local Open Scope js_scope.

(** An element of the in-memory [jobs] array. Dates are kept as instants. *)
Record job : Type := MkJob {
  id : Z;
  name : val;
  type : string;
  status : string;
  created_at : Z;
  started_at : option Z;
  completed_at : option Z;
  payload : option val;
  result : option val
}.

Inductive route : Type :=
  | Playbook
  | Plan
  | Apply.

(** The pending [setTimeout] callbacks: the outer one marks the job running
    and arms the inner one, which completes it. *)
Inductive callback : Type :=
  | Start (r : route) (job_id : Z) (name : val)
  | Finish (r : route) (job_id : Z) (name : val).

Record timer : Type := MkTimer {
  due : Z;
  cb : callback
}.

Record state : Type := MkState {
  jobs : list job;
  timers : list timer;
  emitted : list (string * val)
}.

Record response : Type := MkResponse {
  http_status : nat;
  body : val
}.

Abbreviation M := (Js.M state).

(** [jobs.unshift(newJob)] *)
Definition unshift (j : job) : M unit :=
  fun s => (Ok tt, MkState (j :: jobs s) (timers s) (emitted s)).

(** [setTimeout(cb, ms)] at time [t] *)
Definition setTimeout (t : Z) (c : callback) (ms : Z) : M unit :=
  fun s => (Ok tt, MkState (jobs s) (timers s ++ [MkTimer (t + ms) c]) (emitted s)).

(** [global.io.emit(event, payload)] *)
Definition emit (event : string) (p : val) : M unit :=
  fun s => (Ok tt, MkState (jobs s) (timers s) (emitted s ++ [(event, p)])).

(** [res.json(body)] and [res.status(c).json(body)] *)
Definition json_response (b : val) : response := MkResponse 200 b.
Definition status_response (c : nat) (b : val) : response := MkResponse c b.

(** [const job = jobs.find(j => j.id === id); if (job) { mutate job }]: the
    first element with that id is changed in place. *)
Fixpoint mutate_found (jid : Z) (f : job → job) (l : list job) : list job :=
  match l with
  | [] => []
  | j :: rest => if id j =? jid then f j :: rest else j :: mutate_found jid f rest
  end.

Definition find (jid : Z) (l : list job) : option job :=
  List.find (fun j => id j =? jid) l.

Definition playbook_output (name : val) : string :=
  "Playbook " +:+ dq +:+ ToString name +:+ dq +:+ " ejecutado exitosamente (simulación)"
  +:+ nl +:+ nl +:+ "TASK [Gathering Facts] ****" +:+ nl +:+ "ok: [localhost]"
  +:+ nl +:+ nl +:+ "TASK [Debug message] ****" +:+ nl +:+ "ok: [localhost] => {"
  +:+ nl +:+ "    " +:+ dq +:+ "msg" +:+ dq +:+ ": " +:+ dq
  +:+ "Playbook ejecutado desde Conductor" +:+ dq +:+ nl +:+ "}"
  +:+ nl +:+ nl +:+ "PLAY RECAP ****" +:+ nl
  +:+ "localhost : ok=2    changed=0    unreachable=0    failed=0".

Definition plan_output : string :=
  "Terraform plan completado (simulación)" +:+ nl +:+ nl
  +:+ "Terraform used the selected providers to generate the following execution plan."
  +:+ nl +:+ "Resource actions are indicated with the following symbols:"
  +:+ nl +:+ "  + create" +:+ nl +:+ nl
  +:+ "Terraform will perform the following actions:" +:+ nl +:+ nl
  +:+ "  # aws_instance.example will be created" +:+ nl
  +:+ "  + resource " +:+ dq +:+ "aws_instance" +:+ dq +:+ " " +:+ dq +:+ "example" +:+ dq
  +:+ " {" +:+ nl
  +:+ "      + ami                    = " +:+ dq +:+ "ami-0c02fb55956c7d316" +:+ dq +:+ nl
  +:+ "      + instance_type          = " +:+ dq +:+ "t3.micro" +:+ dq +:+ nl
  +:+ "    }" +:+ nl +:+ nl
  +:+ "Plan: 1 to add, 0 to change, 0 to destroy.".

Definition apply_output : string :=
  "Terraform apply completado (simulación)" +:+ nl +:+ nl
  +:+ "aws_instance.example: Creating..." +:+ nl
  +:+ "aws_instance.example: Still creating... [10s elapsed]" +:+ nl
  +:+ "aws_instance.example: Still creating... [20s elapsed]" +:+ nl
  +:+ "aws_instance.example: Creation complete after 22s [id=i-0abc123def456]"
  +:+ nl +:+ nl
  +:+ "Apply complete! Resources: 1 added, 0 changed, 0 destroyed."
  +:+ nl +:+ nl +:+ "Outputs:" +:+ nl +:+ nl
  +:+ "instance_ip = " +:+ dq +:+ "54.123.45.67" +:+ dq.

(** The result the inner callback of a route attaches. *)
Definition simulated_result (r : route) (name : val) : val :=
  match r with
  | Playbook =>
      Obj [("output", Str (playbook_output name)); ("exitCode", Num 0)]
  | Plan =>
      Obj [("output", Str plan_output);
           ("plan", Str "Plan: 1 to add, 0 to change, 0 to destroy");
           ("exitCode", Num 0)]
  | Apply =>
      Obj [("output", Str apply_output);
           ("applied", Str "Apply complete! Resources: 1 added, 0 changed, 0 destroyed");
           ("exitCode", Num 0)]
  end.

(** Delay of the inner callback. *)
Definition finish_delay (r : route) : Z :=
  match r with
  | Playbook => 4000
  | Plan => 6000
  | Apply => 10000
  end.

Definition set_running (t : Z) (j : job) : job :=
  MkJob (id j) (name j) (type j) "running" (created_at j) (Some t)
        (completed_at j) (payload j) (result j).

Definition set_completed (t : Z) (v : val) (j : job) : job :=
  MkJob (id j) (name j) (type j) "completed" (created_at j) (started_at j)
        (Some t) (payload j) (Some v).

Definition is_found (jid : Z) : M bool :=
  fun s => (Ok (bool_decide (is_Some (find jid (jobs s)))), s).

Definition mutate (jid : Z) (f : job → job) : M unit :=
  fun s => (Ok tt, MkState (mutate_found jid f (jobs s)) (timers s) (emitted s)).

(** Running a callback at time [t]. *)
Definition run_callback (t : Z) (c : callback) : M unit :=
  match c with
  | Start r jid name =>
      let! found := is_found jid in
      when found
        (mutate jid (set_running t) >>
         match r with
         | Playbook =>
             emit "job-log"
               (Obj [("jobId", Num jid);
                     ("log", Str ("Iniciando ejecución del playbook " +:+ dq
                                  +:+ ToString name +:+ dq +:+ "..." +:+ nl));
                     ("timestamp", Num t)])
         | _ => ret tt
         end) >>
      setTimeout t (Finish r jid name) (finish_delay r)
  | Finish r jid name =>
      let! found := is_found jid in
      when found
        (let v := simulated_result r name in
         mutate jid (set_completed t v) >>
         emit "job-completed"
           (Obj [("jobId", Num jid); ("status", Str "completed"); ("result", v)]))
  end.

(** [catch (error) { res.status(500).json({ error: error.message }) }] *)
Definition internal_error (error : Js.error) : M response :=
  ret (status_response 500 (Obj [("error", Str (message error))])).

(** [POST /api/ansible/playbook], handled at time [t]. *)
Definition post_playbook (t : Z) (req_body : val) : M response :=
  try_catch
    (let! name := lift (get_first req_body "name" "req.body") in
     let! playbook := lift (get req_body "playbook") in
     let! inventory := lift (get req_body "inventory") in
     let! variables := lift (get_default req_body "variables" (Obj [])) in
     if negb (truthy name) || negb (truthy playbook) || negb (truthy inventory) then
       ret (status_response 400
              (Obj [("error", Str "Faltan campos obligatorios: name, playbook, inventory")]))
     else
       let newJob :=
         MkJob t name "ansible-playbook" "queued" t None None
           (Some (Obj [("playbook", playbook); ("inventory", inventory);
                       ("variables", variables)]))
           None in
       unshift newJob >>
       setTimeout t (Start Playbook (id newJob) name) 1000 >>
       ret (json_response
              (Obj [("jobId", Num (id newJob));
                    ("status", Str "queued");
                    ("message", Str "Playbook encolado para ejecución")])))
    internal_error.

(** [POST /api/terraform/plan] *)
Definition post_plan (t : Z) (req_body : val) : M response :=
  try_catch
    (let! name := lift (get_first req_body "name" "req.body") in
     let! workingDir := lift (get req_body "workingDir") in
     let! variables := lift (get_default req_body "variables" (Obj [])) in
     let newJob :=
       MkJob (t + 1) (Str (ToString name +:+ " - Plan")) "terraform-plan" "queued" t
         None None
         (Some (Obj [("workingDir", workingDir); ("variables", variables)]))
         None in
     unshift newJob >>
     setTimeout t (Start Plan (id newJob) name) 1000 >>
     ret (json_response
            (Obj [("jobId", Num (id newJob));
                  ("status", Str "queued");
                  ("message", Str "Terraform plan encolado para ejecución")])))
    internal_error.

(** [POST /api/terraform/apply] *)
Definition post_apply (t : Z) (req_body : val) : M response :=
  try_catch
    (let! name := lift (get_first req_body "name" "req.body") in
     let! workingDir := lift (get req_body "workingDir") in
     let! variables := lift (get_default req_body "variables" (Obj [])) in
     let newJob :=
       MkJob (t + 2) (Str (ToString name +:+ " - Apply")) "terraform-apply" "queued" t
         None None
         (Some (Obj [("workingDir", workingDir); ("variables", variables)]))
         None in
     unshift newJob >>
     setTimeout t (Start Apply (id newJob) name) 1000 >>
     ret (json_response
            (Obj [("jobId", Num (id newJob));
                  ("status", Str "queued");
                  ("message", Str "Terraform apply encolado para ejecución")])))
    internal_error.

(** [POST /api/test/echo] *)
Definition post_echo (t : Z) (req_body : val) : M response :=
  try_catch
    (let! message := lift (get_first req_body "message" "req.body") in
     let newJob :=
       MkJob (t + 3) (Str ("Echo: " +:+ ToString message)) "test-echo" "completed" t
         None None None
         (Some (Obj [("output", Str ("Echo: " +:+ ToString message));
                     ("exitCode", Num 0)])) in
     unshift newJob >>
     ret (json_response
            (Obj [("jobId", Num (id newJob));
                  ("status", Str "completed");
                  ("message", Str ("Echo job creado: " +:+ ToString message))])))
    internal_error.

(** The four job types of the submission interface. *)
Inductive job_type : Type :=
  | PlaybookRun
  | PlanJob
  | ApplyJob
  | Echo.

Definition submit (ty : job_type) : Z → val → M response :=
  match ty with
  | PlaybookRun => post_playbook
  | PlanJob => post_plan
  | ApplyJob => post_apply
  | Echo => post_echo
  end.

(** *** The timer loop *)

(** Index of the pending timer that is due first (the earliest armed among
    equals). *)
Fixpoint earliest (best_i : nat) (best : Z) (i : nat) (l : list timer) : nat :=
  match l with
  | [] => best_i
  | tm :: rest =>
      if due tm <? best then earliest i (due tm) (S i) rest
      else earliest best_i best (S i) rest
  end.

Definition next_timer (l : list timer) : nat :=
  match l with
  | [] => 0%nat
  | tm :: rest => earliest 0 (due tm) 1 rest
  end.

(** The [i]-th pending timer fires: its callback runs once the timer is
    due, [late] milliseconds after that, and reads the clock then. *)
Definition fire (i : nat) (late : nat) (s : state) : option state :=
  match timers s !! i with
  | None => None
  | Some tm =>
      let s' := MkState (jobs s) (delete i (timers s)) (emitted s) in
      Some (run_callback (due tm + Z.of_nat late) (cb tm) s').2
  end.

(** The event loop runs the timers until none is pending; [lag] gives how
    late it is at each of its steps. *)
Fixpoint run_timers (lag : nat → nat) (fuel : nat) (s : state) : state :=
  match fuel with
  | O => s
  | S n =>
      match fire (next_timer (timers s)) (lag n) s with
      | None => s
      | Some s' => run_timers lag n s'
      end
  end.

(** The job a callback looks up. *)
Definition cb_job (c : callback) : Z :=
  match c with
  | Start _ jid _ => jid
  | Finish _ jid _ => jid
  end.

(** Callbacks still to run for the pending timers: an outer callback arms
    an inner one. *)
Definition weight (l : list timer) : nat :=
  foldr (fun tm n => (match cb tm with Start _ _ _ => 2 | Finish _ _ _ => 1 end + n)%nat)
        0%nat l.

(** The submissions a handler does not turn down: the body can be
    destructured and, for a playbook, the guard on [name], [playbook] and
    [inventory] passes. *)
Definition accepted (ty : job_type) (req_body : val) : bool :=
  match req_body with
  | Undefined | Null => false
  | _ =>
      match ty with
      | PlaybookRun =>
          match get req_body "name", get req_body "playbook", get req_body "inventory" with
          | Ok n, Ok p, Ok i => truthy n && truthy p && truthy i
          | _, _, _ => false
          end
      | _ => true
      end
  end.

(** A non-empty text, and a structured mapping. *)
Definition is_text (v : val) : bool :=
  match v with
  | Str s => negb (String.eqb s EmptyString)
  | _ => false
  end.

Definition is_mapping (v : val) : bool :=
  match v with
  | Obj _ => true
  | _ => false
  end.

(** The submissions the specification calls valid: the body carries the
    fields its job type requires. A playbook run requires its [playbook]
    (text) and its [inventory] (structured or text), with the [name] the
    submission interface takes; a plan and an apply require their
    [workingDir] (a path-like string); an echo requires its [message];
    [variables] are an optional mapping. *)
Definition valid (ty : job_type) (req_body : val) : bool :=
  match req_body with
  | Obj props =>
      let field k := default Undefined (assoc k props) in
      let optional_mapping v :=
        match v with Undefined => true | _ => is_mapping v end in
      match ty with
      | PlaybookRun =>
          is_text (field "name") && is_text (field "playbook")
          && (is_text (field "inventory") || is_mapping (field "inventory"))
          && optional_mapping (field "variables")
      | PlanJob | ApplyJob =>
          is_text (field "workingDir") && optional_mapping (field "variables")
      | Echo =>
          match field "message" with
          | Undefined | Null => false
          | _ => true
          end
      end
  | _ => false
  end.

(** The id a handler gives the job it creates at time [t]. *)
Definition new_id (ty : job_type) (t : Z) : Z :=
  match ty with
  | PlaybookRun => t
  | PlanJob => t + 1
  | ApplyJob => t + 2
  | Echo => t + 3
  end.

(** The job found under [jid] has one of the statuses the timers assign,
    has its result once completed, and is completed unless a timer for it is
    still pending. *)
Definition on_track (jid : Z) (s : state) : Prop :=
  ∃ j, find jid (jobs s) = Some j ∧
       (status j = "queued" ∨ status j = "running" ∨ status j = "completed") ∧
       (status j = "completed" → is_Some (result j)) ∧
       (status j = "completed" ∨ ∃ tm, tm ∈ timers s ∧ cb_job (cb tm) = jid).

(** What the server goes through after a submission: a pending timer fires
    or a further request is handled. *)
Inductive event : Type :=
  | Fires (i : nat) (late : nat)
  | Submits (ty : job_type) (t : Z) (req_body : val).

Definition happen (ev : event) (s : state) : option state :=
  match ev with
  | Fires i late => fire i late s
  | Submits ty t req_body => Some (submit ty t req_body s).2
  end.

Fixpoint happen_all (evs : list event) (s : state) : option state :=
  match evs with
  | [] => Some s
  | ev :: rest =>
      match happen ev s with
      | Some s' => happen_all rest s'
      | None => None
      end
  end.

(** The event does not create a job under [jid]: it is a timer that
    fires, a request that is turned down, or one that takes another id. *)
Definition avoids (jid : Z) (ev : event) : Prop :=
  match ev with
  | Fires _ _ => True
  | Submits ty t req_body => accepted ty req_body = true → new_id ty t ≠ jid
  end.

(** The in-memory store when the server starts, at time [t]. *)
Definition initial (t : Z) : state :=
  MkState
    [MkJob 1 (Str "Deploy Web Server") "ansible-playbook" "completed" t None None None
       (Some (Obj [("output", Str "Playbook ejecutado exitosamente"); ("exitCode", Num 0)]));
     MkJob 2 (Str "AWS Infrastructure") "terraform-plan" "running" (t - 300000)
       None None None None]
    [] [].

End Server.

(* ===================================================================== *)
(** ** Reference descriptions the code is compared with *)
(* ===================================================================== *)

Module Inventory.
Import Js.

(** A structured inventory, as the specification describes it: groups at
    the top level, each with an optional [hosts] mapping from host names to
    variable mappings. [vars = None] is a host mapped to [null];
    [hosts = None] is a group without a [hosts] key; [others] are the further
    keys of the group ([vars], [children], ...). *)
Record host : Type := MkHost {
  host_name : string;
  vars : option (list (string * val))
}.

Record group : Type := MkGroup {
  group_name : string;
  hosts : option (list host);
  others : list (string * val)
}.

Definition host_val (h : host) : string * val :=
  (host_name h, match vars h with Some kvs => Obj kvs | None => Null end).

Definition group_val (g : group) : string * val :=
  let rest := filter (fun kv : string * val => kv.1 ≠ "hosts") (others g) in
  (group_name g,
   match hosts g with
   | Some hs => Obj (("hosts", Obj (host_val <$> hs)) :: rest)
   | None => Obj rest
   end).

(** The JavaScript object of a structured inventory. *)
Definition to_val (inv : list group) : val := Obj (group_val <$> inv).

(** The inventory text in the specification's words: a [[group]] header per
    group, a line per host made of the host name and one [ key=value] token
    per variable, and an empty line closing each section. *)
Definition token (kv : string * val) : string :=
  " " +:+ kv.1 +:+ "=" +:+ ToString kv.2.

Definition host_line (h : host) : string :=
  host_name h +:+ String.concat EmptyString (token <$> default [] (vars h)) +:+ nl.

Definition section (g : group) : string :=
  "[" +:+ group_name g +:+ "]" +:+ nl
  +:+ String.concat EmptyString (host_line <$> default [] (hosts g)) +:+ nl.

Definition text (inv : list group) : string :=
  String.concat EmptyString (section <$> inv).

End Inventory.

Module Captured.
Import Worker.

(** What a process wrote to each of its two streams, in order. *)
Fixpoint stdout (l : list chunk) : string :=
  match l with
  | [] => EmptyString
  | Stdout _ s :: rest => s +:+ stdout rest
  | Stderr _ :: rest => stdout rest
  end.

Fixpoint stderr (l : list chunk) : string :=
  match l with
  | [] => EmptyString
  | Stdout _ _ :: rest => stderr rest
  | Stderr s :: rest => s +:+ stderr rest
  end.

End Captured.

(* ===================================================================== *)
(** ** Sample inputs *)
(* ===================================================================== *)

Module Sample.
Import Js Worker.

(** A host without docker, on which [ansible-playbook] exits with code 2. *)
Definition docker_missing : proc_run :=
  MkRun [] 3 (fun f => f)
    (SpawnFailed (MkError "Error" "spawn docker ENOENT" (Some "ENOENT"))).

Definition playbook_fails : proc_run :=
  MkRun [Stdout 1010 ("PLAY [all] ****" +:+ nl);
         Stderr "ERROR! the role 'web' was not found"]
    250 (fun f => f) (Exited (Some 2)).

Definition host : env :=
  MkEnv "/tmp" true true (fun t => pretty t) (fun _ => None) (fun _ => None)
    (fun command _ =>
       if String.eqb command "docker" then docker_missing else playbook_fails).

(** A registry with the row of job 7, at time 1000. *)
Definition registry : world :=
  MkWorld 1000 ∅ {[7 := MkRow "pending" None None None]} 0 [].

Definition localhost : list Inventory.group :=
  [Inventory.MkGroup "all"
     (Some [Inventory.MkHost "localhost" (Some [("ansible_connection", Str "local")])])
     []].

(** The first of three attempts of a playbook job. *)
Definition first_attempt : job :=
  MkJob "12" "ansible-playbook"
    [("dbJobId", Num 7);
     ("playbook", Str "- hosts: all");
     ("inventory", Inventory.to_val localhost)]
    1000 0 3.

(** The error with which that attempt ends. *)
Definition playbook_error : error :=
  Error ("ansible-playbook falló con código 2:" +:+ nl
         +:+ "ERROR! the role 'web' was not found").

Definition ping : job :=
  MkJob "13" "test-echo" [("dbJobId", Num 7); ("message", Str "ping")] 1000 0 3.

(** A playbook job whose inventory has a group without content, as the
    YAML line [web:] gives it, next to a host without variables. *)
Definition empty_group_attempt : job :=
  MkJob "16" "ansible-playbook"
    [("dbJobId", Num 7);
     ("playbook", Str "- hosts: all");
     ("inventory",
      Obj [("all", Obj [("hosts", Obj [("localhost", Null)])]); ("web", Null)])]
    1000 0 3.

(** A complete playbook submission. *)
Definition deploy : val :=
  Obj [("name", Str "Deploy Web Server");
       ("playbook", Str "- hosts: all");
       ("inventory", Str "localhost ansible_connection=local")].

End Sample.

(* ===================================================================== *)
(** ** Runs of the worker: what a run may do *)
(* ===================================================================== *)

Module Runs.
Import Js Worker.
Local Open Scope js_scope.

(** The [switch] of the processor: the runner of the job's type. *)
Definition run_job (E : env) (j : job) : M val :=
  if String.eqb (name j) "ansible-playbook" then runAnsiblePlaybook E j
  else if String.eqb (name j) "terraform-plan" then runTerraformPlan j
  else if String.eqb (name j) "terraform-apply" then runTerraformApply j
  else if String.eqb (name j) "test-echo" then runTestEcho E j
  else throw (Error ("Tipo de job desconocido: " +:+ name j)).

(** The room the worker emits to for a job. *)
Definition room_of (j : job) : string :=
  "job-" +:+ ToString (field j "dbJobId").

(** The effects a run of job [j] may have: its working directory and the
    three files in it, the two commands, emissions to the room of the job
    that carry its id, updates of its registry row, the three timers. *)
Definition job_op (E : env) (j : job) (o : op) : Prop :=
  match o with
  | Mkdir p => p = workDir_of E j
  | Rm p => p = workDir_of E j
  | WriteFile p _ =>
      p = path_join (workDir_of E j) "inventory.ini" ∨
      p = path_join (workDir_of E j) "playbook.yml" ∨
      p = path_join (workDir_of E j) "vars.yml"
  | Spawn c _ _ => c = "docker" ∨ c = "ansible-playbook"
  | Emit room ev p =>
      room = room_of j ∧
      (ev = "job-log" ∨ ev = "job-completed") ∧
      get p "jobId" = Ok (field j "dbJobId")
  | Query _ idv => idv = field j "dbJobId"
  | SetTimeout ms => ms = 2000 ∨ ms = 3000 ∨ ms = 5000
  end.

(** A relation between the world before and after that every run of a
    computation keeps. *)
Definition stable (R : world → world → Prop) {A} (m : M A) : Prop :=
  ∀ w, R w (m w).2.

(** The trace grows by effects that satisfy [P]. *)
Definition adds (P : op → Prop) (w w' : world) : Prop :=
  ∃ ops, trace w' = trace w ++ ops ∧ Forall P ops.

(** The registry is left alone. *)
Definition same_registry (w w' : world) : Prop :=
  db w' = db w ∧ queries w' = queries w.

(** Two hosts with the same tools, file-system behaviour and clock
    rendering. *)
Definition same_host (E E' : env) : Prop :=
  tmpdir E = tmpdir E' ∧ iso E = iso E' ∧ fs_fault E = fs_fault E' ∧ proc E = proc E'.

(** A result without the clock readings it carries: the [duration] of a
    command and the [timestamp] of an echo. *)
Definition timeless (v : val) : val :=
  match v with
  | Obj props =>
      Obj (List.filter
             (fun kv : string * val =>
                negb (String.eqb kv.1 "duration") && negb (String.eqb kv.1 "timestamp"))
             props)
  | _ => v
  end.

(** Two outcomes related by [R]: two results that [R] relates, or the same
    error. *)
Definition related {A} (R : A → A → Prop) (r r' : res A) : Prop :=
  match r, r' with
  | Ok a, Ok a' => R a a'
  | Throw e, Throw e' => e = e'
  | _, _ => False
  end.

(** The same error, or results that differ in their clock readings only. *)
Definition same_outcome (r r' : res val) : Prop :=
  related (fun v v' => timeless v = timeless v') r r'.

(** Two computations whose outcomes are related by [R] and that leave the
    same files, from worlds with the same files, whatever their clocks. *)
Definition alike {A} (R : A → A → Prop) (m m' : M A) : Prop :=
  ∀ w w', fs w = fs w' → related R (m w).1 (m' w').1 ∧ fs (m w).2 = fs (m' w').2.

(** A computation that returns without touching the files. *)
Definition silent (m : M unit) : Prop :=
  ∀ w, (m w).1 = Ok tt ∧ fs (m w).2 = fs w.

(** The registry after a run on job [j]: no row was created or deleted, and
    every row but the job's own is as it was. *)
Definition own_row (j : job) (w w' : world) : Prop :=
  ∀ n, (is_Some (db w' !! n) ↔ is_Some (db w !! n)) ∧
       (field j "dbJobId" ≠ Num n → db w' !! n = db w !! n).

(** The world in which the runner starts: the update to running has been
    issued when the registry is configured. *)
Definition started (E : env) (j : job) (w : world) : world :=
  (when (pool E) (query E SetRunning (field j "dbJobId")) w).2.

(** The world in which the processor ends, from the outcome [r] of the
    runner and the world [w] it left: the closing update of the registry and,
    on success, the emission to the room of the job. *)
Definition finished (E : env) (j : job) (r : res val) (w : world) : world :=
  match r with
  | Ok v =>
      ((when (pool E) (query E (SetCompleted v) (field j "dbJobId")) >>
        when (io E)
          (emit (room_of j) "job-completed"
             (Obj [("jobId", field j "dbJobId"); ("result", v)]))) w).2
  | Throw e =>
      (when (pool E) (query E (SetFailed (error_result e)) (field j "dbJobId")) w).2
  end.

(** The path a file-system effect works on. *)
Definition fs_path (o : op) : option string :=
  match o with
  | Mkdir p => Some p
  | WriteFile p _ => Some p
  | Rm p => Some p
  | _ => None
  end.

(** The text broadcast by the [job-log] emissions among [ops]. *)
Fixpoint logged (ops : list op) : string :=
  match ops with
  | [] => EmptyString
  | Emit _ ev p :: rest =>
      (if String.eqb ev "job-log"
       then match get p "log" with
            | Ok (Str s) => s
            | _ => EmptyString
            end
       else EmptyString) +:+ logged rest
  | _ :: rest => logged rest
  end.

Definition is_spawn (o : op) : Prop := ∃ c a opts, o = Spawn c a opts.

(** The number of chunks a process wrote to its standard output. *)
Fixpoint stdout_count (l : list chunk) : nat :=
  match l with
  | [] => 0
  | Stdout _ _ :: rest => S (stdout_count rest)
  | Stderr _ :: rest => stdout_count rest
  end.

(** The arguments of the container run, with the variables file or
    without. *)
Definition container_args (workDir : string) (with_vars : bool) : list string :=
  ["run"; "--rm"; "-v"; workDir +:+ ":/workspace";
   "quay.io/ansible/ansible-runner:latest"; "ansible-playbook";
   "-i"; "/workspace/inventory.ini"; "/workspace/playbook.yml"]
  ++ (if with_vars then ["--extra-vars"; "@/workspace/vars.yml"] else []).

(** [const { variables = {} } = job.data] *)
Definition variables_of (j : job) : val :=
  match field j "variables" with
  | Undefined => Obj []
  | v => v
  end.

(** [null] or [undefined] *)
Definition nullish (v : val) : bool :=
  match v with
  | Undefined | Null => true
  | _ => false
  end.

(** Putting a prefix in front of a rendered text. *)
Definition prepend (a : string) (r : res string) : res string :=
  match r with
  | Ok s => Ok (a +:+ s)
  | Throw e => Throw e
  end.

(** Sample inputs: the same host without registry and socket server, and a
    world at the same time with an empty registry. *)
Definition bare_host : env :=
  MkEnv "/tmp" false false (fun t => pretty t) (fun _ => None)
    (fun _ => Some (Error "connect ECONNREFUSED 127.0.0.1:5432"))
    (fun command _ =>
       if String.eqb command "docker" then Sample.docker_missing
       else Sample.playbook_fails).

Definition no_registry : world := MkWorld 1350 ∅ ∅ 4 [].

(** A host with docker, on which the container run prints two chunks. *)
Definition docker_version : proc_run :=
  MkRun [Stdout 1001 "Docker version 24.0.7"] 40 (fun f => f) (Exited (Some 0)).

Definition playbook_ok : proc_run :=
  MkRun [Stdout 1500 ("PLAY [all] ****" +:+ nl);
         Stderr "[WARNING]: no inventory was parsed";
         Stdout 1800 ("PLAY RECAP ****" +:+ nl)]
    900 (fun f => f) (Exited (Some 0)).

Definition docker_host : env :=
  MkEnv "/tmp" true true (fun t => pretty t) (fun _ => None) (fun _ => None)
    (fun command args =>
       if String.eqb command "docker"
       then match args with
            | ["--version"] => docker_version
            | _ => playbook_ok
            end
       else Sample.playbook_fails).

(** What the container run of the sample job returns. *)
Definition container_result : val :=
  Obj [("output", Str ("PLAY [all] ****" +:+ nl +:+ "PLAY RECAP ****" +:+ nl));
       ("exitCode", Num 0);
       ("duration", Num 940)].

(** A playbook job with one variable. *)
Definition with_variables : job :=
  MkJob "17" "ansible-playbook"
    [("dbJobId", Num 7);
     ("playbook", Str "- hosts: all");
     ("inventory", Str "localhost");
     ("variables", Obj [("env", Str "prod")])]
    1000 0 3.

Definition plan_job : job :=
  MkJob "14" "terraform-plan" [("dbJobId", Num 7); ("workingDir", Str "/terraform/aws")]
    1000 0 3.

Definition destroy_job : job :=
  MkJob "15" "terraform-destroy" [("dbJobId", Num 7)] 1000 0 3.

End Runs.

(* ===================================================================== *)
(** ** The store of the demo server over time *)
(* ===================================================================== *)

Module Store.
Import Js Server.

(** What a job is created with. *)
Definition identity (j : job) : Z * val * string * Z * option val :=
  (id j, name j, type j, created_at j, payload j).

(** The simulated route behind a job type; the echo route has none. *)
Definition route_of (ty : job_type) : option route :=
  match ty with
  | PlaybookRun => Some Playbook
  | PlanJob => Some Plan
  | ApplyJob => Some Apply
  | Echo => None
  end.

(** [req.body.name] as the handlers read it. *)
Definition name_of (req_body : val) : val :=
  match get req_body "name" with
  | Ok v => v
  | Throw _ => Undefined
  end.

(** The pending timers that look up job [jid]. *)
Definition pending_for (jid : Z) (l : list timer) : list timer :=
  filter (fun tm => cb_job (cb tm) = jid) l.

(** The three stages of a job submitted at time [t] on route [r]: queued,
    with its outer timer pending, due at [t + 1000]; running since the
    instant [ts] its outer callback ran, no earlier than that, with its inner
    timer pending, due [finish_delay r] after [ts]; completed at the instant
    [tc] its inner callback ran, no earlier than that, with the result of the
    route and no timer left. *)
Definition lifecycle (jid t : Z) (r : route) (name : val) (s : state) : Prop :=
  ∃ j, find jid (jobs s) = Some j ∧
    ((status j = "queued" ∧ started_at j = None ∧ completed_at j = None ∧
      result j = None ∧
      pending_for jid (timers s) = [MkTimer (t + 1000) (Start r jid name)]) ∨
     (∃ ts, t + 1000 ≤ ts ∧
        status j = "running" ∧ started_at j = Some ts ∧ completed_at j = None ∧
        result j = None ∧
        pending_for jid (timers s) = [MkTimer (ts + finish_delay r) (Finish r jid name)]) ∨
     (∃ ts tc, t + 1000 ≤ ts ∧ ts + finish_delay r ≤ tc ∧
        status j = "completed" ∧ started_at j = Some ts ∧ completed_at j = Some tc ∧
        result j = Some (simulated_result r name) ∧
        pending_for jid (timers s) = [])).

(** A job of the list that a newer job shadows: [older] jobs were listed
    before it, and a job listed after it has its id. *)
Definition shadowed (j : job) (older : nat) (l : list job) : Prop :=
  ∃ newer rest,
    l = newer ++ j :: rest ∧ length rest = older ∧ ∃ j', j' ∈ newer ∧ id j' = id j.

(** The store after two playbook submissions handled in the same
    millisecond, and the job of the first of them. *)
Definition twice : state :=
  (post_playbook 1000 Sample.deploy (post_playbook 1000 Sample.deploy (initial 0)).2).2.

Definition first_of_twice : job :=
  MkJob 1000 (Str "Deploy Web Server") "ansible-playbook" "queued" 1000 None None
    (Some (Obj [("playbook", Str "- hosts: all");
                ("inventory", Str "localhost ansible_connection=local");
                ("variables", Obj [])]))
    None.

(** The number of submissions among the events. *)
Fixpoint submissions (evs : list event) : nat :=
  match evs with
  | [] => 0
  | Submits _ _ _ :: rest => S (submissions rest)
  | Fires _ _ :: rest => submissions rest
  end.

End Store.

(* ===================================================================== *)
(** ** The inventories of the demo server *)
(* ===================================================================== *)

Module InventoryApi.
Import Js Server.
Local Open Scope js_scope.

Section Routes.
(** [new Date(t).toISOString()] *)
Variable iso : Z → string.

(** The in-memory [inventories] array. *)
Abbreviation M := (Js.M (list val)).

Definition internal_error (error : Js.error) : M response :=
  ret (status_response 500 (Obj [("error", Str (message error))])).

(** [GET /api/inventories] *)
Definition get_inventories : M response :=
  try_catch
    (fun inventories => (Ok (json_response (Arr inventories)), inventories))
    internal_error.

(** [POST /api/inventories], handled at time [t]. *)
Definition post_inventories (t : Z) (req_body : val) : M response :=
  try_catch
    (let! name := lift (get_first req_body "name" "req.body") in
     let! description := lift (get req_body "description") in
     let! hosts := lift (get req_body "hosts") in
     let! variables := lift (get_default req_body "variables" (Obj [])) in
     let newInventory :=
       Obj [("id", Num t); ("name", name); ("description", description);
            ("hosts", hosts); ("variables", variables);
            ("created_at", Str (iso t))] in
     (fun inventories => (Ok tt, newInventory :: inventories)) >>
     ret (json_response newInventory))
    internal_error.

End Routes.

(** A sample rendering of instants, and a sample request. *)
Definition stamp (t : Z) : string := "T" +:+ pretty t.

Definition staging : val :=
  Obj [("name", Str "staging");
       ("hosts", Obj [("web", Obj [("hosts", Obj [("web1", Obj [])])])])].

End InventoryApi.

(* ===================================================================== *)
(** ** The tables of the database *)
(* ===================================================================== *)

Module Database.
Import Js.
Local Open Scope js_scope.

(** [CREATE TABLE IF NOT EXISTS table (columns...)], with the table a
    column [REFERENCES], if any. *)
Record statement : Type := CreateTableIfNotExists {
  table : string;
  columns : list string;
  references : option string
}.

Definition create_users : statement :=
  CreateTableIfNotExists "users"
    ["id"; "username"; "email"; "password_hash"; "role"; "created_at"] None.

Definition create_jobs : statement :=
  CreateTableIfNotExists "jobs"
    ["id"; "name"; "type"; "status"; "user_id"; "payload"; "result"; "logs";
     "created_at"; "started_at"; "completed_at"] (Some "users").

Definition create_inventories : statement :=
  CreateTableIfNotExists "inventories"
    ["id"; "name"; "description"; "hosts"; "variables"; "created_at"] None.

(** The tables of the database, each with its columns. *)
Abbreviation schema := (gmap string (list string)).

Inductive line : Type :=
  | Log (text : string)
  | LogError (text : string) (e : error).

Record world : Type := MkWorld {
  tables : schema;
  console : list line
}.

Section Pool.
(** What the database server answers to a statement: the new schema, or
    the error the query is rejected with. *)
Variable server : statement → schema → res schema.

Abbreviation M := (Js.M world).

(** [await pool.query(sql)] *)
Definition query (st : statement) : M unit :=
  fun w =>
    match server st (tables w) with
    | Ok db => (Ok tt, MkWorld db (console w))
    | Throw e => (Throw e, w)
    end.

Definition console_log (text : string) : M unit :=
  fun w => (Ok tt, MkWorld (tables w) (console w ++ [Log text])).

Definition console_error (text : string) (e : error) : M unit :=
  fun w => (Ok tt, MkWorld (tables w) (console w ++ [LogError text e])).

Definition initDB : M unit :=
  try_catch
    (query create_users >>
     query create_jobs >>
     query create_inventories >>
     console_log "✅ Base de datos inicializada")
    (fun error => console_error "❌ Error inicializando base de datos:" error).

End Pool.

(** A server honours [IF NOT EXISTS] when an accepted statement leaves the
    schema as it is or adds the table of the statement, which was missing,
    and the table exists afterwards. *)
Definition if_not_exists (server : statement → schema → res schema) : Prop :=
  ∀ st db db', server st db = Ok db' →
    is_Some (db' !! table st) ∧
    (db' = db ∨ (db !! table st = None ∧ db' = <[table st := columns st]> db)).

(** A sample server: it refuses every statement when it is not reachable,
    keeps an existing table and refuses a reference to a missing one. *)
Definition postgres (reachable : bool) (st : statement) (db : schema) : res schema :=
  if negb reachable then Throw (Error "connect ECONNREFUSED 127.0.0.1:5432")
  else
    match db !! table st with
    | Some _ => Ok db
    | None =>
        match references st with
        | Some r =>
            if bool_decide (is_Some (db !! r))
            then Ok (<[table st := columns st]> db)
            else Throw (Error ("relation " +:+ r +:+ " does not exist"))
        | None => Ok (<[table st := columns st]> db)
        end
    end.

(** A database that has an older [jobs] table only. *)
Definition legacy : world :=
  MkWorld {[ "jobs" := ["id"; "name"] ]} [].

End Database.

(* ===================================================================== *)
(** ** Helpers of the dashboard *)
(* ===================================================================== *)

Module Dashboard.
Import Js.
Local Open Scope res_scope.

(** [formatTime(timestamp)] at time [now]. [date] is the instant of
    [new Date(timestamp)], [None] for an invalid date, whose difference to
    [now] is [NaN]: every comparison is false and the locale rendering is
    that of the invalid date. *)
Definition formatTime (toLocaleDateString : option Z → string) (now : Z)
    (date : option Z) : string :=
  match date with
  | None => toLocaleDateString None
  | Some d =>
      let diffMs := now - d in
      let diffMins := diffMs / 60000 in
      let diffHours := diffMs / 3600000 in
      let diffDays := diffMs / 86400000 in
      if diffMins <? 1 then "Justo ahora"
      else if diffMins <? 60 then "Hace " +:+ ToString (Num diffMins) +:+ " min"
      else if diffHours <? 24 then "Hace " +:+ ToString (Num diffHours) +:+ " h"
      else if diffDays <? 7 then "Hace " +:+ ToString (Num diffDays) +:+ " d"
      else toLocaleDateString (Some d)
  end.

(** [truncateOutput(text, maxLength)], for an integer [maxLength];
    [substring(0, n)] takes a negative [n] for 0. *)
Definition truncateOutput (text : string) (maxLength : Z) : string :=
  if Z.of_nat (String.length text) <=? maxLength then text
  else String.substring 0 (Z.to_nat maxLength) text +:+ "...". 

(** The keys [for (const k in v)] goes through, each with [v[k]]. *)
Definition for_in (v : val) : list (string * val) :=
  match v with
  | Obj props => props
  | Arr items => indexed items
  | Str s => indexed (Str <$> units s)
  | Undefined | Null | Bool _ | Num _ => []
  end.

(** [Object.keys(v).length] *)
Definition keys_length (v : val) : res Z :=
  let? l := entries v in Ok (Z.of_nat (length l)).

Definition count_group (count : Z) (entry : string * val) : res Z :=
  let? hosts := get entry.2 "hosts" in
  if truthy hosts then
    let? n := keys_length hosts in Ok (count + n)
  else Ok count.

(** [countHosts(hostsObj)] *)
Definition countHosts (hostsObj : val) : res Z :=
  for_of (for_in hostsObj) count_group 0.


End Dashboard.

(* ===================================================================== *)
(** ** Properties of the queue helpers *)
(* ===================================================================== *)

Module QueueFacts.
Import Js Queue.

Lemma createJob_add fault jobType jobData q :
  createJob fault jobType jobData q =
  add fault jobType jobData (MkOpts 50 20 3 "exponential" 2000 1000) q.
Proof.
  unfold createJob, try_catch, bind, ret, throw.
  destruct (add fault jobType jobData _ q) as [[job|e] q']; reflexivity.
Qed.

Lemma createJob_ok fault jobType jobData q job q' :
  createJob fault jobType jobData q = (Ok job, q') →
  fault Add = None ∧
  job = MkEntry (pretty (next_id q)) jobType jobData
          (MkOpts 50 20 3 "exponential" 2000 1000) ∧
  q' = MkQueue (waiting q) (delayed q ++ [job]) (active q) (completed q)
         (failed q) (S (next_id q)).
Proof.
  rewrite createJob_add. unfold add.
  destruct (fault Add) as [e|]; [discriminate|].
  cbn. intros [= <- <-]. auto.
Qed.

(** C8, as the specification states it, fails: an entry enqueued by
    [createJob] does not carry an initial delay of 0. *)
Lemma createJob_delay_is_not_zero :
  ¬ (∀ (fault : call → option error) (jobType : string) (jobData : val)
       (q q' : queue) (job : entry),
       createJob fault jobType jobData q = (Ok job, q') →
       delay (opts job) = 0).
Proof.
  intros H.
  specialize (H (fun _ => None) "test-echo" (Obj []) Queue.empty).
  specialize (H _ _ eq_refl). discriminate H.
Qed.

(** C8 (amended): every entry enqueued through [createJob] carries
    attempts = 3, exponential backoff with a base delay of 2000 ms, retention
    of 50 completed and 20 failed entries, and an initial delay of 1000 ms,
    so that it is deferred before its first attempt; [createJob] enqueues
    whenever the queue accepts the call. *)
Theorem createJob_options fault jobType jobData q :
  (fault Add = None → ∃ job q', createJob fault jobType jobData q = (Ok job, q')) ∧
  (∀ job q',
     createJob fault jobType jobData q = (Ok job, q') →
     attempts (opts job) = 3%nat ∧
     backoff_type (opts job) = "exponential" ∧
     backoff_delay (opts job) = 2000 ∧
     removeOnComplete (opts job) = 50%nat ∧
     removeOnFail (opts job) = 20%nat ∧
     delay (opts job) = 1000 ∧
     name job = jobType ∧ data job = jobData ∧
     delayed q' = delayed q ++ [job] ∧ waiting q' = waiting q).
Proof.
  split.
  - intros Hf. rewrite createJob_add. unfold add. rewrite Hf. cbn. eauto.
  - intros job q' H. apply createJob_ok in H as (_ & -> & ->). cbn. tauto.
Qed.

Lemma createJob_options_witness :
  ∃ job q',
    createJob (fun _ => None) "test-echo" (Obj [("message", Str "ping")]) Queue.empty
    = (Ok job, q') ∧
    attempts (opts job) = 3%nat ∧ delay (opts job) = 1000.
Proof.
  pose proof (createJob_options (fun _ => None) "test-echo"
                (Obj [("message", Str "ping")]) Queue.empty) as [Hex Hopts].
  destruct (Hex eq_refl) as (job & q' & Hrun).
  exists job, q'. split; [exact Hrun|].
  destruct (Hopts job q' Hrun) as (Ha & _ & _ & _ & _ & Hd & _).
  split; assumption.
Defined.

(** C10: [getQueueStats] never throws; when a read of the queue fails it
    returns the counts object of zeros, which is also what an empty reachable
    queue yields. *)
Theorem getQueueStats_never_throws fault q :
  (∃ v, getQueueStats fault q = (Ok v, q)) ∧
  (unreadable fault → getQueueStats fault q = (Ok (counts 0 0 0 0), q)) ∧
  (getQueueStats (fun _ => None) Queue.empty).1 = Ok (counts 0 0 0 0).
Proof.
  unfold getQueueStats, try_catch, bind, read, ret, unreadable.
  split; [|split].
  - destruct (fault GetWaiting), (fault GetActive), (fault GetCompleted),
      (fault GetFailed); eauto.
  - intros H.
    destruct (fault GetWaiting), (fault GetActive), (fault GetCompleted),
      (fault GetFailed); try reflexivity.
    destruct H as [[? H]|[[? H]|[[? H]|[? H]]]]; discriminate H.
  - reflexivity.
Qed.

Lemma getQueueStats_never_throws_witness :
  getQueueStats redis_down one_waiting = (Ok (counts 0 0 0 0), one_waiting).
Proof.
  apply (getQueueStats_never_throws redis_down one_waiting).
  right; left. eexists; reflexivity.
Defined.

End QueueFacts.

(* ===================================================================== *)
(** ** Properties of the worker *)
(* ===================================================================== *)

Module WorkerFacts.
Import Js Worker.
Local Open Scope js_scope.

(** *** Strings *)

Lemma append_cons (x : ascii) (a b : string) :
  String x a +:+ b = String x (a +:+ b).
Proof. reflexivity. Qed.

Lemma append_assoc (a b c : string) : (a +:+ b) +:+ c = a +:+ (b +:+ c).
Proof.
  induction a as [|x a IH]; [reflexivity|].
  by rewrite !append_cons, IH.
Qed.

Lemma append_empty_r (a : string) : a +:+ EmptyString = a.
Proof.
  induction a as [|x a IH]; [reflexivity|].
  by rewrite append_cons, IH.
Qed.

(** *** Reading the output of a process *)

(** Handling the chunks only appends emissions to the trace. *)
Lemma on_chunks E j l : ∀ out err w,
  ∃ ops,
    mfor l (on_chunk E j) (out, err) w =
    (Ok (out +:+ Captured.stdout l, err +:+ Captured.stderr l),
     MkWorld (now w) (fs w) (db w) (queries w) (trace w ++ ops)) ∧
    Forall (fun o => ∃ room ev p, o = Emit room ev p) ops.
Proof.
  induction l as [|c l IH]; intros out err w.
  - exists []. cbn. rewrite !append_empty_r, app_nil_r. by destruct w.
  - destruct c as [t text|text]; cbn [mfor on_chunk].
    + destruct (io E && truthy (field j "dbJobId")) eqn:Hc.
      * unfold bind at 1. cbn.
        destruct (IH (out +:+ text) err
                    (log_op (Emit ("job-" +:+ ToString (field j "dbJobId")) "job-log"
                       (Obj [("jobId", field j "dbJobId"); ("log", Str text);
                             ("timestamp", Str (iso E t))])) w))
          as (ops & -> & Hops).
        eexists (_ :: ops). cbn. rewrite !append_assoc, <- app_assoc. cbn.
        split; [reflexivity|]. constructor; eauto.
      * unfold bind at 1. cbn.
        destruct (IH (out +:+ text) err w) as (ops & -> & Hops).
        exists ops. by rewrite !append_assoc.
    + unfold bind at 1. cbn.
      destruct (IH out (err +:+ text) w) as (ops & -> & Hops).
      exists ops. by rewrite !append_assoc.
Qed.

Lemma executeCommand_run E command args j w :
  ∃ ops r,
    executeCommand E command args j w =
      (r, ended E command args (MkOpts None None) ops w) ∧
    Forall is_emit ops ∧
    match ending_of (proc E command args) with
    | Exited (Some 0) =>
        r = Ok (Obj [("output", Str (Captured.stdout (chunks (proc E command args))));
                     ("exitCode", Num 0);
                     ("duration",
                      Num (now w + elapsed (proc E command args) - processedOn j))])
    | Exited c =>
        r = Throw (Error (command +:+ " falló con código " +:+ show_code c
                          +:+ ":" +:+ nl
                          +:+ Captured.stderr (chunks (proc E command args))))
    | SpawnFailed e =>
        r = if code_is e "ENOENT"
            then Throw (Error (command +:+ " no está instalado o no está en el PATH"))
            else Throw e
    end.
Proof.
  unfold executeCommand, ended.
  set (run := proc E command args).
  destruct (on_chunks E j (chunks run) EmptyString EmptyString
              (log_op (Spawn command args (MkOpts None None)) w))
    as (ops & Hfor & Hops).
  exists ops.
  unfold bind at 1. unfold spawn. fold run.
  unfold bind at 1. rewrite Hfor. cbn [log_op now fs db queries trace].
  unfold bind at 1, proc_end. cbn [set_fs tick now fs db queries trace].
  rewrite <- app_assoc. cbn [app].
  destruct (ending_of run) as [[[|p|p]|]|e]; cbn.
  all: try (eexists; split; [reflexivity|]; split; [exact Hops|]; reflexivity).
  destruct (code_is e "ENOENT"); eexists; (split; [reflexivity|]); by split.
Qed.

(** C4: [executeCommand] resolves exactly when the process exits with code
    0, with the captured output and exit code 0; any other exit rejects with
    an error whose message holds the exit code and the captured stderr; a
    spawn failure with code ENOENT rejects with the not-installed message,
    which no exit-code message equals. *)
Theorem executeCommand_outcome E command args j w :
  let run := proc E command args in
  let r := (executeCommand E command args j w).1 in
  ((∃ v, r = Ok v) ↔ ending_of run = Exited (Some 0)) ∧
  (ending_of run = Exited (Some 0) →
   ∃ d, r = Ok (Obj [("output", Str (Captured.stdout (chunks run)));
                     ("exitCode", Num 0);
                     ("duration", Num d)])) ∧
  (∀ c, ending_of run = Exited c → c ≠ Some 0 →
   r = Throw (Error (command +:+ " falló con código " +:+ show_code c +:+ ":" +:+ nl
                     +:+ Captured.stderr (chunks run)))) ∧
  (∀ e, ending_of run = SpawnFailed e → code_is e "ENOENT" = true →
   r = Throw (Error (command +:+ " no está instalado o no está en el PATH")) ∧
   ∀ c stderr,
     command +:+ " no está instalado o no está en el PATH" ≠
     command +:+ " falló con código " +:+ show_code c +:+ ":" +:+ nl +:+ stderr).
Proof.
  intros run r.
  destruct (executeCommand_run E command args j w) as (ops & r' & Hrun & _ & Hr).
  assert (r = r') as -> by (unfold r; by rewrite Hrun).
  clear Hrun. fold run in Hr.
  split; [|split; [|split]].
  - split.
    + intros [v ->].
      destruct (ending_of run) as [[[|p|p]|]|e]; try discriminate; [reflexivity|].
      by destruct (code_is e "ENOENT").
    + intros He. rewrite He in Hr. eauto.
  - intros He. rewrite He in Hr. eauto.
  - intros c He Hc. rewrite He in Hr.
    destruct c as [[|p|p]|]; done.
  - intros e He Hcode. rewrite He, Hcode in Hr. split; [exact Hr|].
    intros c stderr H. apply (inj (String.app command)) in H.
    discriminate H.
Qed.

Lemma executeCommand_outcome_witness :
  ending_of (proc Sample.host "ansible-playbook" ["site.yml"]) = Exited (Some 2) ∧
  (executeCommand Sample.host "ansible-playbook" ["site.yml"] Sample.first_attempt
     Sample.registry).1 =
  Throw (Error ("ansible-playbook falló con código 2:" +:+ nl
                +:+ "ERROR! the role 'web' was not found")).
Proof.
  split; [reflexivity|].
  pose proof (executeCommand_outcome Sample.host "ansible-playbook" ["site.yml"]
                Sample.first_attempt Sample.registry) as H.
  cbv zeta in H. destruct H as (_ & _ & H & _).
  apply (H (Some 2)); [reflexivity|discriminate].
Defined.

(** *** The processor *)

Lemma query_run E st idv w :
  query E st idv w =
  (Ok tt,
   MkWorld (now w) (fs w)
     (match db_fault E (queries w) with
      | Some _ => db w
      | None => exec st idv (now w) (db w)
      end)
     (S (queries w)) (trace w ++ [Query st idv])).
Proof. unfold query. by destruct (db_fault E (queries w)). Qed.

Lemma exec_lookup st n t (d : gmap Z row) r :
  d !! n = Some r →
  exec st (Num n) t d !! n =
  Some (match st with
        | SetRunning => MkRow "running" (result r) (Some t) (completed_at r)
        | SetCompleted v => MkRow "completed" (Some v) (started_at r) (Some t)
        | SetFailed v => MkRow "failed" (Some v) (started_at r) (Some t)
        end).
Proof.
  intros Hr. unfold exec.
  destruct st; rewrite lookup_alter_eq, Hr; reflexivity.
Qed.

Lemma exec_is_Some st idv n t (d : gmap Z row) :
  is_Some (d !! n) → is_Some (exec st idv t d !! n).
Proof.
  intros [r Hr]. unfold exec.
  destruct idv as [| |b|m|s|l|ps]; try by eauto.
  destruct (decide (m = n)) as [->|Hne].
  - destruct st; rewrite lookup_alter_eq, Hr; by eauto.
  - destruct st; rewrite lookup_alter_ne by done; by eauto.
Qed.

(** The processor fails exactly when its [try] block does, with the same
    error, after the [catch] block has run. *)
Lemma worker_throw E j w e w1 :
  attempt E j w = (Throw e, w1) →
  worker E j w =
  (Throw e,
   if pool E
   then (query E (SetFailed (error_result e)) (field j "dbJobId") w1).2
   else w1).
Proof.
  intros H. unfold worker, try_catch. rewrite H.
  unfold on_error, when, bind.
  destruct (pool E); [|reflexivity].
  by rewrite query_run.
Qed.

(** C1 (amended): whenever the processing of a job ends with an error, the
    worker rethrows that error to the queue and, the registry being
    configured, issues after the failure the update that marks the job
    failed with the error message as result; when that update is accepted
    the row of the job reads failed with that result. This happens on every
    failed attempt, whether or not retry attempts remain. Whether a failed
    event is emitted besides is left out. *)
Theorem worker_failure_is_recorded E j w e w1 :
  attempt E j w = (Throw e, w1) →
  ∃ w',
    worker E j w = (Throw e, w') ∧
    (pool E = true →
     (∃ ops, trace w' = trace w1 ++ ops ∧
             Query (SetFailed (error_result e)) (field j "dbJobId") ∈ ops) ∧
     ∀ n r,
       field j "dbJobId" = Num n → db w1 !! n = Some r →
       db_fault E (queries w1) = None →
       db w' !! n = Some (MkRow "failed" (Some (error_result e)) (started_at r)
                            (Some (now w1)))).
Proof.
  intros H. eexists. split; [by apply worker_throw|].
  intros ->. rewrite query_run. cbn. split.
  - eexists [_]. split; [reflexivity|]. by left.
  - intros n r -> Hr ->. by rewrite (exec_lookup _ _ _ _ r).
Qed.

(** C1, as the specification states it, fails: the worker marks a job
    failed on an attempt after which retry attempts remain. *)
Lemma failed_is_recorded_while_attempts_remain :
  ¬ (∀ (E : env) (j : job) (w w' : world) (e : error) (n : Z) (r : row),
       worker E j w = (Throw e, w') →
       field j "dbJobId" = Num n →
       db w' !! n = Some r →
       status r = "failed" →
       attempts_remain j = false).
Proof.
  intros H.
  assert (∃ e w' r,
            worker Sample.host Sample.first_attempt Sample.registry = (Throw e, w') ∧
            db w' !! 7 = Some r ∧ status r = "failed") as (e & w' & r & Hrun & Hrow & Hst).
  { eexists _, _, _. split; [vm_compute; reflexivity|]. split; by vm_compute. }
  specialize (H _ _ _ _ _ 7 r Hrun eq_refl Hrow Hst). discriminate H.
Qed.

Lemma worker_failure_is_recorded_witness :
  attempt Sample.host Sample.first_attempt Sample.registry =
    (Throw Sample.playbook_error,
     (attempt Sample.host Sample.first_attempt Sample.registry).2) ∧
  attempts_remain Sample.first_attempt = true ∧
  ∃ w',
    worker Sample.host Sample.first_attempt Sample.registry =
      (Throw Sample.playbook_error, w') ∧
    (pool Sample.host = true →
     (∃ ops,
        trace w' = trace (attempt Sample.host Sample.first_attempt Sample.registry).2 ++ ops ∧
        Query (SetFailed (error_result Sample.playbook_error))
          (field Sample.first_attempt "dbJobId") ∈ ops) ∧
     ∀ n r,
       field Sample.first_attempt "dbJobId" = Num n →
       db (attempt Sample.host Sample.first_attempt Sample.registry).2 !! n = Some r →
       db_fault Sample.host
         (queries (attempt Sample.host Sample.first_attempt Sample.registry).2) = None →
       db w' !! n =
         Some (MkRow "failed" (Some (error_result Sample.playbook_error)) (started_at r)
                 (Some (now (attempt Sample.host Sample.first_attempt Sample.registry).2)))).
Proof.
  assert (attempt Sample.host Sample.first_attempt Sample.registry =
          (Throw Sample.playbook_error,
           (attempt Sample.host Sample.first_attempt Sample.registry).2)) as Ha
    by (vm_compute; reflexivity).
  split; [exact Ha|]. split; [reflexivity|].
  exact (worker_failure_is_recorded Sample.host Sample.first_attempt Sample.registry
           Sample.playbook_error _ Ha).
Defined.

Lemma runTestEcho_run E j w :
  runTestEcho E j w =
  (Ok (Obj [("output", Str ("Echo: " +:+ ToString (field j "message")));
            ("timestamp", Str (iso E (now w + 2000)));
            ("exitCode", Num 0)]),
   MkWorld (now w + 2000) (fs w) (db w) (queries w) (trace w ++ [SetTimeout 2000])).
Proof. reflexivity. Qed.

(** C9: for an echo job with message [m], the runner waits the fixed 2000 ms
    and returns the output [Echo: m] with exit code 0; the processor returns
    that result, so the job completes, and the registry row of the job, when
    the update is accepted, reads completed with that result. *)
Theorem echo_job_completes E j w m :
  name j = "test-echo" →
  field j "message" = Str m →
  ∃ ts w',
    worker E j w =
      (Ok (Obj [("output", Str ("Echo: " +:+ m));
                ("timestamp", Str ts);
                ("exitCode", Num 0)]), w') ∧
    now w' = now w + 2000 ∧
    SetTimeout 2000 ∈ trace w' ∧
    (pool E = true →
     ∀ n, field j "dbJobId" = Num n → is_Some (db w !! n) →
          db_fault E (S (queries w)) = None →
          ∃ r, db w' !! n = Some r ∧ status r = "completed" ∧
               result r = Some (Obj [("output", Str ("Echo: " +:+ m));
                                     ("timestamp", Str ts);
                                     ("exitCode", Num 0)])).
Proof.
  intros Hname Hm.
  exists (iso E (now w + 2000)).
  unfold worker, try_catch, attempt. rewrite Hname.
  change ("test-echo" =? "ansible-playbook")%string with false.
  change ("test-echo" =? "terraform-plan")%string with false.
  change ("test-echo" =? "terraform-apply")%string with false.
  change ("test-echo" =? "test-echo")%string with true.
  cbv iota.
  unfold bind, when, ret, emit.
  destruct (pool E) eqn:Hpool.
  - rewrite !query_run, runTestEcho_run, Hm. cbn [ToString now fs db queries trace].
    rewrite query_run. cbn [now fs db queries trace].
    assert (∀ n, is_Some (db w !! n) →
              is_Some ((match db_fault E (queries w) with
                        | Some _ => db w
                        | None => exec SetRunning (field j "dbJobId") (now w) (db w)
                        end) !! n)) as Hstill.
    { intros n Hn. destruct (db_fault E (queries w)); [done|]. by apply exec_is_Some. }
    destruct (io E); eexists; (split; [reflexivity|]); cbn;
      (split; [reflexivity|]); (split; [set_solver|]).
    all: intros _ n Hid [r0 Hr0]%Hstill Hfault; rewrite Hfault, Hid in *.
    all: eexists; split; [by apply exec_lookup|done].
  - rewrite runTestEcho_run, Hm. cbn [ToString now fs db queries trace].
    destruct (io E); eexists; (split; [reflexivity|]); cbn;
      (split; [reflexivity|]); (split; [set_solver|done]).
Qed.

Lemma echo_job_completes_witness :
  ∃ ts w',
    worker Sample.host Sample.ping Sample.registry =
      (Ok (Obj [("output", Str "Echo: ping"); ("timestamp", Str ts); ("exitCode", Num 0)]),
       w') ∧
    now w' = 3000.
Proof.
  destruct (echo_job_completes Sample.host Sample.ping Sample.registry "ping"
              eq_refl eq_refl) as (ts & w' & Hrun & Hnow & _).
  exists ts, w'. split; [exact Hrun|exact Hnow].
Defined.

(** *** The trace only grows *)

Lemma appends_ret {A} (a : A) : appends (ret a).
Proof. intros w. exists []. cbn. by rewrite app_nil_r. Qed.

Lemma appends_throw {A} e : appends (throw (A := A) e).
Proof. intros w. exists []. cbn. by rewrite app_nil_r. Qed.

Lemma appends_lift {A} (r : res A) : appends (lift r).
Proof. intros w. exists []. cbn. by rewrite app_nil_r. Qed.

Lemma appends_bind {A B} (m : M A) (k : A → M B) :
  appends m → (∀ a, appends (k a)) → appends (bind m k).
Proof.
  intros Hm Hk w. unfold bind.
  destruct (Hm w) as [ops1 H1]. destruct (m w) as [[a|e] w1]; cbn in *.
  - destruct (Hk a w1) as [ops2 H2]. exists (ops1 ++ ops2).
    by rewrite H2, H1, app_assoc.
  - by exists ops1.
Qed.

Lemma appends_try_catch {A} (m : M A) (h : error → M A) :
  appends m → (∀ e, appends (h e)) → appends (try_catch m h).
Proof.
  intros Hm Hh w. unfold try_catch.
  destruct (Hm w) as [ops1 H1]. destruct (m w) as [[a|e] w1]; cbn in *.
  - by exists ops1.
  - destruct (Hh e w1) as [ops2 H2]. exists (ops1 ++ ops2).
    by rewrite H2, H1, app_assoc.
Qed.

Lemma appends_when (c : bool) (m : M unit) : appends m → appends (when c m).
Proof. destruct c; [done|]. intros _. apply appends_ret. Qed.

Lemma appends_fs_mkdir E p : appends (fs_mkdir E p).
Proof.
  intros w. exists [Mkdir p]. unfold fs_mkdir.
  by destruct (fs_fault E (CallMkdir p)).
Qed.

Lemma appends_fs_writeFile E p v : appends (fs_writeFile E p v).
Proof.
  destruct v; try apply appends_throw.
  intros w. eexists [_]. unfold fs_writeFile.
  by destruct (fs_fault E (CallWrite p)).
Qed.

Lemma appends_write_inventory E p v : appends (write_inventory E p v).
Proof.
  unfold write_inventory. destruct (typeof_object v).
  - apply appends_bind; [apply appends_lift|]. intros. apply appends_fs_writeFile.
  - apply appends_fs_writeFile.
Qed.

Lemma appends_executeCommand E command args j : appends (executeCommand E command args j).
Proof.
  intros w. destruct (executeCommand_run E command args j w) as (ops & r & -> & _).
  by eexists (_ :: ops).
Qed.

Lemma checkDockerAvailable_run E w :
  checkDockerAvailable E w =
  (Ok (match ending_of (proc E "docker" ["--version"]) with
       | Exited (Some 0) => true
       | _ => false
       end),
   ended E "docker" ["--version"] (MkOpts (Some "ignore") None) [] w).
Proof.
  unfold checkDockerAvailable, bind, spawn, proc_end, ended.
  by destruct (ending_of (proc E "docker" ["--version"])) as [[[|p|p]|]|e].
Qed.

Lemma appends_checkDockerAvailable E : appends (checkDockerAvailable E).
Proof. intros w. rewrite checkDockerAvailable_run. by eexists [_]. Qed.

Lemma appends_execute_playbook E workDir ip pp xv j :
  appends (execute_playbook E workDir ip pp xv j).
Proof.
  unfold execute_playbook. apply appends_bind; [apply appends_checkDockerAvailable|].
  intros []; apply appends_executeCommand.
Qed.

(** The [try] block starts by creating the directory. *)
Lemma playbook_body_trace E j workDir w :
  ∃ ops, trace (playbook_body E j workDir w).2 = trace w ++ Mkdir workDir :: ops.
Proof.
  unfold playbook_body.
  set (rest := fun _ : unit => _).
  assert (∀ u, appends (rest u)) as Hrest.
  { intros u. unfold rest.
    apply appends_bind; [apply appends_write_inventory|]. intros _.
    apply appends_bind; [apply appends_fs_writeFile|]. intros _.
    apply appends_bind; [apply appends_lift|]. intros vars.
    apply appends_bind; [|intros; apply appends_execute_playbook].
    destruct (0 <? length vars)%nat; [|apply appends_ret].
    apply appends_bind; [apply appends_fs_writeFile|]. intros _. apply appends_ret. }
  unfold bind at 1, fs_mkdir.
  destruct (fs_fault E (CallMkdir workDir)); cbn.
  - by exists [].
  - destruct (Hrest tt (set_fs (<[workDir:=Dir]> (fs w)) (log_op (Mkdir workDir) w)))
      as [ops Hops].
    exists ops. rewrite Hops. cbn. by rewrite <- app_assoc.
Qed.

Lemma cleanup_run E workDir w :
  cleanup E workDir w =
  (Ok tt,
   MkWorld (now w)
     (match fs_fault E (CallRm workDir) with
      | Some _ => fs w
      | None => filter (fun kv : string * node => under workDir kv.1 = false) (fs w)
      end)
     (db w) (queries w) (trace w ++ [Rm workDir])).
Proof.
  unfold cleanup, try_catch, fs_rm.
  by destruct (fs_fault E (CallRm workDir)).
Qed.

(** C5: on every exit of a playbook run - the [try] block returning or
    throwing, wherever it throws - the removal of the working directory is
    the last effect of the run, after its creation was the first; the outcome
    of the run is that of the [try] block; and when the removal succeeds
    nothing at or below the working directory is left. *)
Theorem workdir_removed_on_every_exit E j w :
  let workDir := workDir_of E j in
  let run := runAnsiblePlaybook E j w in
  run.1 = (playbook_body E j workDir w).1 ∧
  (∃ ops, trace run.2 = trace w ++ Mkdir workDir :: ops ++ [Rm workDir]) ∧
  (fs_fault E (CallRm workDir) = None →
   ∀ p, under workDir p = true → fs run.2 !! p = None).
Proof.
  intros workDir run. unfold run, runAnsiblePlaybook, try_finally. fold workDir.
  destruct (playbook_body_trace E j workDir w) as [ops Hops].
  destruct (playbook_body E j workDir w) as [r w1]. cbn in Hops.
  rewrite cleanup_run. cbn.
  split; [reflexivity|]. split.
  - exists ops. rewrite Hops. by rewrite <- app_assoc.
  - intros -> p Hp. apply map_lookup_filter_None. right. intros x _. cbn.
    by rewrite Hp.
Qed.

Lemma workdir_removed_on_every_exit_witness :
  fs_fault Sample.host (CallRm "/tmp/job-12") = None ∧
  fs (runAnsiblePlaybook Sample.host Sample.first_attempt Sample.registry).2
    !! "/tmp/job-12/inventory.ini" = None.
Proof.
  split; [reflexivity|].
  pose proof (workdir_removed_on_every_exit Sample.host Sample.first_attempt
                Sample.registry) as H.
  cbv zeta in H. destruct H as (_ & _ & H).
  apply (H eq_refl). reflexivity.
Defined.




(** *** The inventory text *)

Lemma concat_cons (x : string) (xs : list string) :
  String.concat EmptyString (x :: xs) = x +:+ String.concat EmptyString xs.
Proof. destruct xs; cbn; [by rewrite append_empty_r|reflexivity]. Qed.

Lemma render_vars_text kvs : ∀ acc,
  for_of kvs render_var acc = Ok (acc +:+ String.concat EmptyString (Inventory.token <$> kvs)).
Proof.
  induction kvs as [|[k v] kvs IH]; intros acc.
  - cbn. by rewrite append_empty_r.
  - cbn [for_of render_var res_bind fmap list_fmap]. rewrite IH, concat_cons.
    unfold Inventory.token. cbn [fst snd]. by rewrite !append_assoc.
Qed.







(** C3: an inventory with a group mapped to [null] is not rendered. A host
    mapped to [null] gets its line, and a group without [hosts] its empty
    section; but on the [null] group the loop throws at [hosts.hosts], once
    it has appended the header of the group: no inventory file is written
    and the job fails, where the claim has a header and an empty section. *)
Lemma null_group_is_not_rendered :
  render_inventory (Obj [("all", Obj [("hosts", Obj [("localhost", Null)])]);
                         ("web", Obj [])]) =
    Ok ("[all]" +:+ nl +:+ "localhost" +:+ nl +:+ nl +:+ "[web]" +:+ nl +:+ nl) ∧
  render_inventory (field Sample.empty_group_attempt "inventory") =
    Throw (TypeError "Cannot read properties of null (reading 'hosts')") ∧
  ∃ w',
    worker Sample.host Sample.empty_group_attempt Sample.registry =
      (Throw (TypeError "Cannot read properties of null (reading 'hosts')"), w') ∧
    trace w' =
      [Query SetRunning (Num 7);
       Mkdir "/tmp/job-16";
       Rm "/tmp/job-16";
       Query (SetFailed
                (Obj [("error", Str "Cannot read properties of null (reading 'hosts')")]))
         (Num 7)].
Proof.
  split; [by vm_compute|]. split; [by vm_compute|].
  eexists. split; by vm_compute.
Qed.

End WorkerFacts.

(* ===================================================================== *)
(** ** Properties of the demo server *)
(* ===================================================================== *)

Module ServerFacts.
Import Js Server.
Local Open Scope js_scope.

Lemma find_mutate_found jid jid' f l :
  (∀ j, id (f j) = id j) →
  find jid (mutate_found jid' f l) =
  if jid =? jid' then f <$> find jid l else find jid l.
Proof.
  intros Hf. unfold find.
  induction l as [|j l IH]; cbn.
  - by destruct (jid =? jid').
  - destruct (id j =? jid') eqn:Hj'; cbn.
    + rewrite Hf. destruct (id j =? jid) eqn:Hj.
      * assert ((jid =? jid') = true) as -> by lia. reflexivity.
      * assert ((jid =? jid') = false) as -> by lia. reflexivity.
    + destruct (id j =? jid) eqn:Hj.
      * assert ((jid =? jid') = false) as -> by lia. reflexivity.
      * exact IH.
Qed.

Lemma mutate_found_absent jid f l :
  find jid l = None → mutate_found jid f l = l.
Proof.
  unfold find. induction l as [|j l IH]; cbn; [done|].
  destruct (id j =? jid); [done|]. intros H. by rewrite IH.
Qed.

(** What a callback does to the jobs and to the pending timers. *)
Lemma run_callback_jobs t c s :
  jobs (run_callback t c s).2 =
  mutate_found (cb_job c)
    match c with
    | Start _ _ _ => set_running t
    | Finish r _ name => set_completed t (simulated_result r name)
    end (jobs s).
Proof.
  destruct c as [r jid name|r jid name]; unfold run_callback, bind, is_found, when;
    cbn [cb_job]; destruct (find jid (jobs s)) as [j|] eqn:Hfind.
  - rewrite bool_decide_eq_true_2 by eauto. by destruct r.
  - rewrite bool_decide_eq_false_2 by (by intros [? ?]).
    by rewrite mutate_found_absent.
  - rewrite bool_decide_eq_true_2 by eauto. reflexivity.
  - rewrite bool_decide_eq_false_2 by (by intros [? ?]).
    by rewrite mutate_found_absent.
Qed.

Lemma run_callback_timers t c s :
  timers (run_callback t c s).2 =
  timers s ++
  match c with
  | Start r jid name => [MkTimer (t + finish_delay r) (Finish r jid name)]
  | Finish _ _ _ => []
  end.
Proof.
  destruct c as [r jid name|r jid name]; unfold run_callback, bind, is_found, when;
    destruct (bool_decide (is_Some (find jid (jobs s)))); cbn;
    rewrite ?app_nil_r; try reflexivity.
  by destruct r.
Qed.

Lemma fire_inv i late s s' :
  fire i late s = Some s' →
  ∃ tm, timers s !! i = Some tm ∧
        jobs s' = mutate_found (cb_job (cb tm))
                    match cb tm with
                    | Start _ _ _ => set_running (due tm + Z.of_nat late)
                    | Finish r _ name =>
                        set_completed (due tm + Z.of_nat late) (simulated_result r name)
                    end (jobs s) ∧
        timers s' = delete i (timers s) ++
                    match cb tm with
                    | Start r jid name =>
                        [MkTimer (due tm + Z.of_nat late + finish_delay r)
                           (Finish r jid name)]
                    | Finish _ _ _ => []
                    end.
Proof.
  unfold fire. destruct (timers s !! i) as [tm|] eqn:Hi; [|done].
  intros [= <-]. exists tm. split; [done|].
  by rewrite run_callback_jobs, run_callback_timers.
Qed.

Lemma weight_cons tm l :
  weight (tm :: l) =
  (match cb tm with Start _ _ _ => 2 | Finish _ _ _ => 1 end + weight l)%nat.
Proof. reflexivity. Qed.

Lemma weight_app l1 l2 : weight (l1 ++ l2) = (weight l1 + weight l2)%nat.
Proof.
  induction l1 as [|tm l1 IH]; [done|].
  rewrite <- app_comm_cons, !weight_cons, IH. lia.
Qed.

Lemma weight_delete i l tm :
  l !! i = Some tm →
  weight l = (match cb tm with Start _ _ _ => 2 | Finish _ _ _ => 1 end
              + weight (delete i l))%nat.
Proof.
  revert i. induction l as [|x l IH]; intros [|i] H; try done.
  - by injection H as ->.
  - cbn in H. apply IH in H.
    change (delete (S i) (x :: l)) with (x :: delete i l).
    rewrite !weight_cons, H. lia.
Qed.

(** Firing a timer leaves one callback less to run. *)
Lemma fire_weight i late s s' :
  fire i late s = Some s' → S (weight (timers s')) = weight (timers s).
Proof.
  intros (tm & Hi & _ & ->)%fire_inv.
  rewrite (weight_delete i _ tm Hi), weight_app.
  destruct (cb tm); cbn; lia.
Qed.

Lemma earliest_bound l : ∀ best_i best i,
  (best_i < i)%nat → (earliest best_i best i l < i + length l)%nat.
Proof.
  induction l as [|tm l IH]; intros best_i best i Hlt; cbn; [lia|].
  destruct (due tm <? best).
  - specialize (IH i (due tm) (S i)). lia.
  - specialize (IH best_i best (S i)). lia.
Qed.

Lemma next_timer_pending l : l ≠ [] → is_Some (l !! next_timer l).
Proof.
  destruct l as [|tm l]; [done|]. intros _.
  apply lookup_lt_is_Some. cbn.
  pose proof (earliest_bound l 0 (due tm) 1). lia.
Qed.

(** The loop stops only when no timer is pending, and it does stop. *)
Lemma run_timers_drains lag fuel : ∀ s,
  (weight (timers s) ≤ fuel)%nat → timers (run_timers lag fuel s) = [].
Proof.
  induction fuel as [|fuel IH]; intros s Hw.
  - cbn. destruct (timers s) as [|tm l]; [done|].
    exfalso. rewrite weight_cons in Hw. destruct (cb tm); lia.
  - cbn. destruct (fire (next_timer (timers s)) (lag fuel) s) as [s'|] eqn:Hfire.
    + apply IH. apply fire_weight in Hfire. lia.
    + unfold fire in Hfire.
      destruct (decide (timers s = [])) as [Hnil|Hne]; [done|].
      destruct (next_timer_pending _ Hne) as [tm Htm]. by rewrite Htm in Hfire.
Qed.

Lemma elem_of_delete_other (l : list timer) i tm tm' :
  l !! i = Some tm → tm' ∈ l → cb_job (cb tm') ≠ cb_job (cb tm) → tm' ∈ delete i l.
Proof.
  intros Hi [k Hk]%list_elem_of_lookup Hne.
  assert (k ≠ i) as Hki by (intros ->; congruence).
  apply list_elem_of_lookup.
  destruct (decide (k < i)%nat).
  - exists k. by rewrite list_lookup_delete_lt.
  - exists (pred k). rewrite list_lookup_delete_ge by lia.
    replace (S (pred k)) with k by lia. done.
Qed.

Lemma fire_on_track jid i late s s' :
  fire i late s = Some s' → on_track jid s → on_track jid s'.
Proof.
  intros (tm & Hi & Hjobs & Htimers)%fire_inv (j & Hfind & Hst & Hres & Hpending).
  unfold on_track. rewrite Hjobs, Htimers.
  rewrite find_mutate_found by (by destruct (cb tm)).
  destruct (jid =? cb_job (cb tm)) eqn:Hid.
  - apply Z.eqb_eq in Hid. rewrite Hfind. cbn [fmap option_fmap option_map].
    destruct (cb tm) as [r jid' name|r jid' name] eqn:Hcb; cbn in Hid; subst jid'.
    + exists (set_running (due tm + Z.of_nat late) j). split; [done|]. cbn.
      split; [auto|]. split; [done|]. right.
      exists (MkTimer (due tm + Z.of_nat late + finish_delay r) (Finish r jid name)).
      split; [|reflexivity]. apply elem_of_app. right. constructor.
    + exists (set_completed (due tm + Z.of_nat late) (simulated_result r name) j).
      split; [done|]. cbn.
      split; [auto|]. split; [eauto|]. by left.
  - apply Z.eqb_neq in Hid. exists j. split; [done|]. split; [done|]. split; [done|].
    destruct Hpending as [Hc|(tm' & Hin & Hjid)]; [by left|right].
    exists tm'. split; [|done]. apply elem_of_app. left.
    eapply elem_of_delete_other; [done..|congruence].
Qed.

Lemma run_timers_on_track jid lag fuel : ∀ s,
  on_track jid s → on_track jid (run_timers lag fuel s).
Proof.
  induction fuel as [|fuel IH]; intros s Hs; cbn; [done|].
  destruct (fire (next_timer (timers s)) (lag fuel) s) as [s'|] eqn:Hfire; [|done].
  apply IH. by eapply fire_on_track.
Qed.

(** The answer of a route with the new job at the head of the list, and the
    outer timer of a simulated route. *)
Local Ltac answered Hhead :=
  eexists _, _; (split; [reflexivity|]); cbn [jobs unshift setTimeout timers];
  rewrite Hhead by reflexivity; (split; [reflexivity|]);
  eexists; (split; [apply Hhead; reflexivity|]); cbn.

Local Ltac timer_armed :=
  (split; [by left|]); (split; [done|]); right;
  eexists; (split; [apply elem_of_app; right; constructor|reflexivity]).

(** An accepted submission is answered at once; the new job heads the
    list, and for the three simulated routes its outer timer is armed. *)
Lemma submit_accepted ty t req_body s :
  accepted ty req_body = true →
  ∃ msg s1,
    submit ty t req_body s =
      (Ok (json_response
             (Obj [("jobId", Num (new_id ty t));
                   ("status", Str (match ty with Echo => "completed" | _ => "queued" end));
                   ("message", Str msg)])), s1) ∧
    (status <$> find (new_id ty t) (jobs s1)) =
      Some (match ty with Echo => "completed" | _ => "queued" end) ∧
    on_track (new_id ty t) s1.
Proof.
  intros Hacc.
  assert (∀ j l, id j = new_id ty t → find (new_id ty t) (j :: l) = Some j) as Hhead.
  { intros j l Hj. unfold find. cbn. by rewrite Hj, Z.eqb_refl. }
  destruct ty; cbn [submit new_id];
    unfold post_playbook, post_plan, post_apply, post_echo, try_catch, bind, lift;
    (destruct req_body as [| |b|n|str|items|props]; try discriminate Hacc);
    cbn in Hacc; cbn [get_first get get_default res_bind].
  - (* playbook *)
    destruct (truthy (default Undefined (assoc "name" props))); [|discriminate Hacc].
    destruct (truthy (default Undefined (assoc "playbook" props))); [|discriminate Hacc].
    destruct (truthy (default Undefined (assoc "inventory" props))); [|discriminate Hacc].
    destruct (default Undefined (assoc "variables" props)); cbn [negb orb];
      answered Hhead; timer_armed.
  - (* plan *) answered Hhead; timer_armed.
  - answered Hhead; timer_armed.
  - answered Hhead; timer_armed.
  - answered Hhead; timer_armed.
  - destruct (default Undefined (assoc "variables" props)); answered Hhead; timer_armed.
  - (* apply *) answered Hhead; timer_armed.
  - answered Hhead; timer_armed.
  - answered Hhead; timer_armed.
  - answered Hhead; timer_armed.
  - destruct (default Undefined (assoc "variables" props)); answered Hhead; timer_armed.
  - (* echo *) answered Hhead; (split; [auto|]); (split; [eauto|]); by left.
  - answered Hhead; (split; [auto|]); (split; [eauto|]); by left.
  - answered Hhead; (split; [auto|]); (split; [eauto|]); by left.
  - answered Hhead; (split; [auto|]); (split; [eauto|]); by left.
  - answered Hhead; (split; [auto|]); (split; [eauto|]); by left.
Qed.

(** A handler adds at most one job, at the head and under the id of its
    route, and only ever arms timers. *)
Lemma submit_effect ty t req_body s :
  ∃ js ts,
    jobs (submit ty t req_body s).2 = js ++ jobs s ∧
    timers (submit ty t req_body s).2 = timers s ++ ts ∧
    (js = [] ∨ ∃ j, js = [j] ∧ id j = new_id ty t).
Proof.
  destruct ty; cbn [submit new_id];
    unfold post_playbook, post_plan, post_apply, post_echo, try_catch, bind, lift;
    destruct req_body as [| |b|n|str|items|props];
    cbn [get_first get get_default res_bind].
  all: repeat match goal with
         | |- context [if ?c then _ else _] => destruct c
         | |- context [match default Undefined ?o with _ => _ end] =>
             destruct (default Undefined o)
         end.
  all: try (exists [], []; split; [reflexivity|]; split;
            [symmetry; apply app_nil_r|by left]).
  all: try (eexists [_], [_]; (split; [reflexivity|]); (split; [reflexivity|]); right;
            eexists; by split).
  all: eexists [_], []; (split; [reflexivity|]); (split; [symmetry; apply app_nil_r|]);
    right; eexists; by split.
Qed.

(** A request that is turned down leaves the store as it was. *)
Lemma submit_rejected ty t req_body s :
  accepted ty req_body = false → (submit ty t req_body s).2 = s.
Proof.
  destruct ty; cbn [submit];
    unfold post_playbook, post_plan, post_apply, post_echo, try_catch, bind, lift;
    destruct req_body as [| |b|n|str|items|props];
    cbn [get_first get get_default res_bind accepted]; try discriminate;
    try reflexivity.
  all: repeat match goal with
         | |- context [truthy ?v] => destruct (truthy v)
         | |- context [match default Undefined ?o with _ => _ end] =>
             destruct (default Undefined o)
         end; cbn; try discriminate; reflexivity.
Qed.

Lemma happen_on_track jid ev s s' :
  avoids jid ev → happen ev s = Some s' → on_track jid s → on_track jid s'.
Proof.
  destruct ev as [i late|ty t req_body]; cbn.
  - intros _. apply fire_on_track.
  - destruct (accepted ty req_body) eqn:Hacc;
      [|intros _ [= <-]; by rewrite submit_rejected].
    intros Hne [= <-] (j & Hfind & Hst & Hres & Hpending).
    specialize (Hne eq_refl).
    destruct (submit_effect ty t req_body s) as (js & ts & Hjobs & Htimers & Hjs).
    exists j. rewrite Hjobs, Htimers. split.
    + destruct Hjs as [->|(j' & -> & Hid)]; [done|].
      unfold find in *. cbn. rewrite Hid.
      by destruct (Z.eqb_spec (new_id ty t) jid).
    + split; [done|]. split; [done|].
      destruct Hpending as [?|(tm & Hin & Hjid)]; [by left|right].
      exists tm. split; [|done]. apply elem_of_app. by left.
Qed.

Lemma happen_all_on_track jid evs : ∀ s s',
  Forall (avoids jid) evs → happen_all evs s = Some s' →
  on_track jid s → on_track jid s'.
Proof.
  induction evs as [|ev evs IH]; intros s s' Hav; cbn.
  - by intros [= <-].
  - apply Forall_cons in Hav as [Hev Hav].
    destruct (happen ev s) as [s1|] eqn:Hs1; [|done].
    intros Hrest Htrack. apply (IH s1 s' Hav Hrest).
    by eapply happen_on_track.
Qed.

(** C2, as the specification states it, fails: a valid echo submission is
    not answered with the status queued. *)
Lemma echo_submission_is_not_queued :
  ¬ (∀ (ty : job_type) (t : Z) (req_body : val) (s s' : state) (resp : response),
       valid ty req_body = true →
       submit ty t req_body s = (Ok resp, s') →
       get (body resp) "status" = Ok (Str "queued")).
Proof.
  intros H.
  specialize (H Echo 1000 (Obj [("message", Str "ping")]) (initial 0) _ _ eq_refl eq_refl).
  discriminate H.
Qed.

Lemma is_text_truthy v : is_text v = true → truthy v = true.
Proof. by destruct v. Qed.

Lemma is_mapping_truthy v : is_mapping v = true → truthy v = true.
Proof. by destruct v. Qed.

Lemma valid_accepted ty req_body :
  valid ty req_body = true → accepted ty req_body = true.
Proof.
  destruct req_body as [| |b|n|str|items|props]; try discriminate.
  destruct ty; try done.
  unfold valid, accepted. cbn [get].
  intros [[[Hn Hp]%andb_true_iff Hi]%andb_true_iff _]%andb_true_iff.
  rewrite (is_text_truthy _ Hn), (is_text_truthy _ Hp). cbn [andb].
  apply orb_true_iff in Hi as [Hi|Hi];
    [by apply is_text_truthy|by apply is_mapping_truthy].
Qed.

(** C2 (amended): a valid playbook, plan or apply submission is answered at
    once with the status queued, a valid echo submission with the status
    completed; in both cases the job is recorded under the returned id with
    that status. From then on - whatever timers fire, however late, and
    whatever other requests are handled; what becomes of a job whose id
    another submission takes is left out - the job only ever reads queued,
    running or completed, never failed, and it reads completed, with its
    result, as soon as no timer is pending; the timer loop does reach that
    point. *)
Theorem submission_lifecycle ty t req_body s :
  valid ty req_body = true →
  ∃ msg s1,
    submit ty t req_body s =
      (Ok (json_response
             (Obj [("jobId", Num (new_id ty t));
                   ("status", Str (match ty with Echo => "completed" | _ => "queued" end));
                   ("message", Str msg)])), s1) ∧
    (status <$> find (new_id ty t) (jobs s1)) =
      Some (match ty with Echo => "completed" | _ => "queued" end) ∧
    (∀ evs s2,
       Forall (avoids (new_id ty t)) evs →
       happen_all evs s1 = Some s2 →
       ∃ j, find (new_id ty t) (jobs s2) = Some j ∧
            (status j = "queued" ∨ status j = "running" ∨ status j = "completed") ∧
            (timers s2 = [] → status j = "completed" ∧ is_Some (result j))) ∧
    (∀ lag fuel,
       (weight (timers s1) ≤ fuel)%nat →
       timers (run_timers lag fuel s1) = [] ∧
       ∃ j, find (new_id ty t) (jobs (run_timers lag fuel s1)) = Some j ∧
            status j = "completed" ∧ is_Some (result j)).
Proof.
  intros Hacc%valid_accepted.
  destruct (submit_accepted ty t req_body s Hacc) as (msg & s1 & Hrun & Hst & Htrack).
  assert (∀ s2, on_track (new_id ty t) s2 → timers s2 = [] →
            ∃ j, find (new_id ty t) (jobs s2) = Some j ∧
                 status j = "completed" ∧ is_Some (result j)) as Hdone.
  { intros s2 (j & Hfind & _ & Hres & Hpending) Hnil. exists j. split; [exact Hfind|].
    destruct Hpending as [Hc|(tm & Hin & _)]; [auto|].
    rewrite Hnil in Hin. by apply elem_of_nil in Hin. }
  exists msg, s1. split; [exact Hrun|]. split; [exact Hst|]. split.
  - intros evs s2 Hav Hevs.
    pose proof (happen_all_on_track _ evs s1 s2 Hav Hevs Htrack) as Hs2.
    destruct Hs2 as (j & Hfind & Hstatus & Hres & Hpending).
    exists j. split; [exact Hfind|]. split; [exact Hstatus|].
    intros Hnil. destruct Hpending as [Hc|(tm & Hin & _)]; [auto|].
    rewrite Hnil in Hin. by apply elem_of_nil in Hin.
  - intros lag fuel Hfuel.
    pose proof (run_timers_drains lag fuel s1 Hfuel) as Hnil.
    split; [exact Hnil|].
    apply Hdone; [|exact Hnil]. by apply run_timers_on_track.
Qed.

Lemma submission_lifecycle_witness :
  valid PlaybookRun Sample.deploy = true ∧
  ∃ msg s1,
    submit PlaybookRun 1000 Sample.deploy (initial 0) =
      (Ok (json_response
             (Obj [("jobId", Num 1000); ("status", Str "queued"); ("message", Str msg)])),
       s1) ∧
    ∃ j, find 1000 (jobs (run_timers (fun _ => 3%nat) 2 s1)) = Some j ∧
         status j = "completed".
Proof.
  split; [reflexivity|].
  destruct (submission_lifecycle PlaybookRun 1000 Sample.deploy (initial 0) eq_refl)
    as (msg & s1 & Hrun & Hst & _ & Hloop).
  exists msg, s1. split; [exact Hrun|].
  assert (weight (timers s1) ≤ 2)%nat as Hw.
  { injection Hrun as _ <-. vm_compute. lia. }
  destruct (Hloop (fun _ => 3%nat) 2%nat Hw) as (_ & j & Hfind & Hc & _).
  by exists j.
Defined.

(** Two submissions handled in the same millisecond get the same id: the
    timers of both find the later job, and the earlier one stays queued. *)
Lemma same_millisecond_submissions :
  status <$> jobs (run_timers (fun _ => 0%nat) 4
                     (post_playbook 1000 Sample.deploy
                        (post_playbook 1000 Sample.deploy (initial 0)).2).2) =
  ["completed"; "queued"; "completed"; "running"].
Proof. by vm_compute. Qed.

(** C7: a plan submission without [workingDir] is not turned down: it is
    answered 200 with the status queued and a job is created. *)
Lemma plan_without_workingDir_is_queued :
  ∃ s',
    post_plan 1000 (Obj [("name", Str "vpc")]) (initial 0) =
      (Ok (json_response
             (Obj [("jobId", Num 1001);
                   ("status", Str "queued");
                   ("message", Str "Terraform plan encolado para ejecución")])), s') ∧
    (status <$> find 1001 (jobs s')) = Some "queued" ∧
    (find 1001 (jobs s') ≫= payload) =
      Some (Obj [("workingDir", Undefined); ("variables", Obj [])]) ∧
    length (jobs s') = S (length (jobs (initial 0))) ∧
    timers s' = [MkTimer 2000 (Start Plan 1001 (Str "vpc"))].
Proof. eexists. split; [reflexivity|]. by vm_compute. Qed.

(** The apply and echo routes lack the guard in the same way. *)
Lemma apply_without_workingDir_is_queued :
  ∃ s',
    post_apply 1000 (Obj [("name", Str "vpc")]) (initial 0) =
      (Ok (json_response
             (Obj [("jobId", Num 1002);
                   ("status", Str "queued");
                   ("message", Str "Terraform apply encolado para ejecución")])), s') ∧
    (find 1002 (jobs s') ≫= payload) =
      Some (Obj [("workingDir", Undefined); ("variables", Obj [])]).
Proof. eexists. split; [reflexivity|]. by vm_compute. Qed.

Lemma echo_without_message_is_completed :
  ∃ s',
    post_echo 1000 (Obj []) (initial 0) =
      (Ok (json_response
             (Obj [("jobId", Num 1003);
                   ("status", Str "completed");
                   ("message", Str "Echo job creado: undefined")])), s') ∧
    (name <$> find 1003 (jobs s')) = Some (Str "Echo: undefined").
Proof. eexists. split; [reflexivity|]. by vm_compute. Qed.

(** The guard of the playbook route: a submission lacking [name],
    [playbook] or [inventory] is answered 400 and leaves the store as it
    was. *)
Lemma playbook_guard t props s :
  truthy (default Undefined (assoc "name" props))
  && truthy (default Undefined (assoc "playbook" props))
  && truthy (default Undefined (assoc "inventory" props)) = false →
  post_playbook t (Obj props) s =
  (Ok (status_response 400
         (Obj [("error", Str "Faltan campos obligatorios: name, playbook, inventory")])),
   s).
Proof.
  intros H. unfold post_playbook, try_catch, bind, lift.
  cbn [get_first get get_default res_bind].
  destruct (truthy (default Undefined (assoc "name" props))),
    (truthy (default Undefined (assoc "playbook" props))),
    (truthy (default Undefined (assoc "inventory" props))); try discriminate H.
  all: by destruct (default Undefined (assoc "variables" props)).
Qed.

End ServerFacts.

Module RunsFacts.
Import Js Worker Runs WorkerFacts.
Local Open Scope js_scope.

(** *** Relations kept by every step of a run *)

Section Stable.
Context (R : world → world → Prop).
Hypothesis Rrefl : ∀ w, R w w.
Hypothesis Rtrans : ∀ w1 w2 w3, R w1 w2 → R w2 w3 → R w1 w3.

Lemma stable_ret {A} (a : A) : stable R (ret a).
Proof. intros w. apply Rrefl. Qed.

Lemma stable_throw {A} e : stable R (throw (A := A) e).
Proof. intros w. apply Rrefl. Qed.

Lemma stable_lift {A} (r : res A) : stable R (lift r).
Proof. intros w. apply Rrefl. Qed.

Lemma stable_clock : stable R clock.
Proof. intros w. apply Rrefl. Qed.

Lemma stable_bind {A B} (m : M A) (k : A → M B) :
  stable R m → (∀ a, stable R (k a)) → stable R (bind m k).
Proof.
  intros Hm Hk w. unfold bind. specialize (Hm w).
  destruct (m w) as [[a|e] w1]; cbn in *; [|done].
  eapply Rtrans; [exact Hm|apply Hk].
Qed.

Lemma stable_try_catch {A} (m : M A) (h : error → M A) :
  stable R m → (∀ e, stable R (h e)) → stable R (try_catch m h).
Proof.
  intros Hm Hh w. unfold try_catch. specialize (Hm w).
  destruct (m w) as [[a|e] w1]; cbn in *; [done|].
  eapply Rtrans; [exact Hm|apply Hh].
Qed.

Lemma stable_try_finally {A} (m : M A) (fin : M unit) :
  stable R m → stable R fin → stable R (try_finally m fin).
Proof.
  intros Hm Hf w. unfold try_finally. specialize (Hm w).
  destruct (m w) as [r w1]. specialize (Hf w1).
  destruct (fin w1) as [[u|e] w2]; cbn in *; by eapply Rtrans.
Qed.

Lemma stable_when (c : bool) (m : M unit) : stable R m → stable R (when c m).
Proof. destruct c; [done|]. intros _. apply stable_ret. Qed.

Lemma stable_mfor {A B} (body : B → A → M B) (l : list A) :
  (∀ b x, stable R (body b x)) → ∀ b, stable R (mfor l body b).
Proof.
  intros Hbody. induction l as [|x l IH]; intros b; cbn [mfor].
  - apply stable_ret.
  - apply stable_bind; [apply Hbody|]. intros b'. apply IH.
Qed.

(** The steps of a runner: they log an effect and change the files or the
    clock. *)
Context (ok : op → Prop).
Hypothesis Rlog : ∀ o w, ok o → R w (log_op o w).
Hypothesis Rfs : ∀ f w, R w (set_fs f w).
Hypothesis Rtick : ∀ dt w, R w (tick dt w).

Lemma stable_sleep ms : ok (SetTimeout ms) → stable R (sleep ms).
Proof. intros Hok w. cbn. eapply Rtrans; [by apply Rlog|apply Rtick]. Qed.

Lemma stable_emit room ev p : ok (Emit room ev p) → stable R (emit room ev p).
Proof. intros Hok w. cbn. by apply Rlog. Qed.

Lemma stable_fs_mkdir E p : ok (Mkdir p) → stable R (fs_mkdir E p).
Proof.
  intros Hok w. unfold fs_mkdir.
  destruct (fs_fault E (CallMkdir p)); cbn; [by apply Rlog|].
  eapply Rtrans; [by apply Rlog|apply Rfs].
Qed.

Lemma stable_fs_writeFile E p v :
  (∀ s, ok (WriteFile p s)) → stable R (fs_writeFile E p v).
Proof.
  intros Hok. destruct v; try apply stable_throw.
  intros w. unfold fs_writeFile.
  destruct (fs_fault E (CallWrite p)); cbn; [by apply Rlog|].
  eapply Rtrans; [by apply Rlog|apply Rfs].
Qed.

Lemma stable_fs_rm E p : ok (Rm p) → stable R (fs_rm E p).
Proof.
  intros Hok w. unfold fs_rm.
  destruct (fs_fault E (CallRm p)); cbn; [by apply Rlog|].
  eapply Rtrans; [by apply Rlog|apply Rfs].
Qed.

Lemma stable_spawn E c a o : ok (Spawn c a o) → stable R (spawn E c a o).
Proof. intros Hok w. cbn. by apply Rlog. Qed.

Lemma stable_proc_end run : stable R (proc_end run).
Proof. intros w. cbn. eapply Rtrans; [apply Rfs|apply Rtick]. Qed.

(** The runners of a job. *)
Context (E : env) (j : job).
Hypothesis Hok : ∀ o, job_op E j o → ok o.

Lemma stable_write_inventory v :
  stable R (write_inventory E (path_join (workDir_of E j) "inventory.ini") v).
Proof.
  unfold write_inventory. destruct (typeof_object v).
  - apply stable_bind; [apply stable_lift|]. intros c.
    apply stable_fs_writeFile. intros s. apply Hok. cbn. auto.
  - apply stable_fs_writeFile. intros s. apply Hok. cbn. auto.
Qed.

Lemma stable_executeCommand command args :
  command = "docker" ∨ command = "ansible-playbook" →
  stable R (executeCommand E command args j).
Proof.
  intros Hc. unfold executeCommand.
  apply stable_bind; [apply stable_spawn, Hok; exact Hc|]. intros run.
  apply stable_bind.
  { apply stable_mfor. intros [output error] [t text|text]; cbn [on_chunk].
    - apply stable_bind; [|intros; apply stable_ret].
      apply stable_when, stable_emit, Hok. cbn. auto.
    - apply stable_ret. }
  intros [output error].
  apply stable_bind; [apply stable_proc_end|]. intros [[[|p|p]|]|e].
  - apply stable_bind; [apply stable_clock|]. intros; apply stable_ret.
  - apply stable_throw.
  - apply stable_throw.
  - apply stable_throw.
  - destruct (code_is e "ENOENT"); apply stable_throw.
Qed.

Lemma stable_checkDockerAvailable : stable R (checkDockerAvailable E).
Proof.
  unfold checkDockerAvailable.
  apply stable_bind; [apply stable_spawn, Hok; cbn; auto|]. intros run.
  apply stable_bind; [apply stable_proc_end|].
  intros [c|e]; apply stable_ret.
Qed.

Lemma stable_runAnsiblePlaybook : stable R (runAnsiblePlaybook E j).
Proof.
  unfold runAnsiblePlaybook. apply stable_try_finally.
  - unfold playbook_body.
    apply stable_bind; [apply stable_fs_mkdir, Hok; reflexivity|]. intros _.
    apply stable_bind; [apply stable_write_inventory|]. intros _.
    apply stable_bind; [apply stable_fs_writeFile; intros s; apply Hok; cbn; auto|].
    intros _.
    apply stable_bind; [apply stable_lift|]. intros vars.
    apply stable_bind.
    { destruct (0 <? length vars)%nat; [|apply stable_ret].
      apply stable_bind; [|intros; apply stable_ret].
      apply stable_fs_writeFile. intros s. apply Hok. cbn. auto. }
    intros extraVarsArg. unfold execute_playbook.
    apply stable_bind; [apply stable_checkDockerAvailable|].
    intros []; apply stable_executeCommand; auto.
  - unfold cleanup. apply stable_try_catch; [|intros; apply stable_ret].
    apply stable_fs_rm, Hok. reflexivity.
Qed.

Lemma stable_run_job : stable R (run_job E j).
Proof.
  unfold run_job.
  destruct (String.eqb (name j) "ansible-playbook"); [apply stable_runAnsiblePlaybook|].
  destruct (String.eqb (name j) "terraform-plan").
  { unfold runTerraformPlan. apply stable_bind; [|intros; apply stable_ret].
    apply stable_sleep, Hok. cbn. auto. }
  destruct (String.eqb (name j) "terraform-apply").
  { unfold runTerraformApply. apply stable_bind; [|intros; apply stable_ret].
    apply stable_sleep, Hok. cbn. auto. }
  destruct (String.eqb (name j) "test-echo"); [|apply stable_throw].
  unfold runTestEcho. apply stable_bind; [apply stable_sleep, Hok; cbn; auto|].
  intros _. apply stable_bind; [apply stable_clock|]. intros; apply stable_ret.
Qed.

End Stable.

(** *** The two relations *)

Lemma adds_refl P w : adds P w w.
Proof. exists []. by rewrite app_nil_r. Qed.

Lemma adds_trans P w1 w2 w3 : adds P w1 w2 → adds P w2 w3 → adds P w1 w3.
Proof.
  intros (o1 & H1 & F1) (o2 & H2 & F2). exists (o1 ++ o2).
  rewrite H2, H1, app_assoc. split; [done|]. by apply Forall_app.
Qed.

Lemma adds_log (P : op → Prop) o w : P o → adds P w (log_op o w).
Proof. intros Ho. exists [o]. split; [done|]. by constructor. Qed.

Lemma adds_set_fs P f w : adds P w (set_fs f w).
Proof. exists []. cbn. by rewrite app_nil_r. Qed.

Lemma adds_tick P dt w : adds P w (tick dt w).
Proof. exists []. cbn. by rewrite app_nil_r. Qed.

Lemma adds_query (P : op → Prop) E st idv :
  P (Query st idv) → stable (adds P) (query E st idv).
Proof.
  intros Hq w. exists [Query st idv]. unfold query.
  destruct (db_fault E (queries w)); cbn; (split; [done|by constructor]).
Qed.

(** Every effect of the processor on a job is one of the effects of that
    job. *)
Lemma worker_ops E j : stable (adds (job_op E j)) (worker E j).
Proof.
  pose proof (adds_refl (job_op E j)) as Hr.
  pose proof (adds_trans (job_op E j)) as Ht.
  unfold worker. apply stable_try_catch; [done..| |].
  - change (attempt E j) with
      (when (pool E) (query E SetRunning (field j "dbJobId")) >>
       let! result := run_job E j in
       when (pool E) (query E (SetCompleted result) (field j "dbJobId")) >>
       when (io E)
         (emit (room_of j) "job-completed"
            (Obj [("jobId", field j "dbJobId"); ("result", result)])) >>
       ret result).
    apply stable_bind; [done..|by apply stable_when, adds_query|]. intros _.
    apply stable_bind; [done..| |].
    { apply (stable_run_job _ Hr Ht (job_op E j));
        auto using adds_log, adds_set_fs, adds_tick. }
    intros result.
    apply stable_bind; [done..|by apply stable_when, adds_query|]. intros _.
    apply stable_bind; [done..| |intros; by apply stable_ret].
    apply stable_when; [done|].
    apply (stable_emit _ (job_op E j)); [by apply adds_log|]. cbn. auto.
  - intros e. unfold on_error.
    apply stable_bind; [done..|by apply stable_when, adds_query|].
    intros; by apply stable_throw.
Qed.

(** *** Same host, different registry, socket server and clock *)

Lemma alike_ret {A} (R : A → A → Prop) (a a' : A) : R a a' → alike R (ret a) (ret a').
Proof. by intros Ha w w' H. Qed.

Lemma alike_throw {A} (R : A → A → Prop) e : alike R (throw e) (throw e).
Proof. by intros w w' H. Qed.

Lemma alike_lift {A} (r : res A) : alike eq (lift r) (lift r).
Proof. intros w w' H. split; [|done]. by destruct r. Qed.

Lemma alike_bind {A B} (R1 : A → A → Prop) (R : B → B → Prop)
    (m m' : M A) (k k' : A → M B) :
  alike R1 m m' → (∀ a a', R1 a a' → alike R (k a) (k' a')) →
  alike R (bind m k) (bind m' k').
Proof.
  intros Hm Hk w w' Hw. unfold bind. destruct (Hm w w' Hw) as [Hr Ha].
  destruct (m w) as [[a|e] w1], (m' w') as [[a'|e'] w1']; cbn in *; try done.
  by apply Hk.
Qed.

Lemma alike_try_catch {A} (R : A → A → Prop) (m m' : M A) (h h' : error → M A) :
  alike R m m' → (∀ e, alike R (h e) (h' e)) → alike R (try_catch m h) (try_catch m' h').
Proof.
  intros Hm Hh w w' Hw. unfold try_catch. destruct (Hm w w' Hw) as [Hr Ha].
  destruct (m w) as [[a|e] w1], (m' w') as [[a'|e'] w1']; cbn in *; try done.
  subst e'. by apply Hh.
Qed.

Lemma alike_try_finally {A} (R : A → A → Prop) (m m' : M A) (fin fin' : M unit) :
  alike R m m' → alike eq fin fin' → alike R (try_finally m fin) (try_finally m' fin').
Proof.
  intros Hm Hf w w' Hw. unfold try_finally. destruct (Hm w w' Hw) as [Hr Ha].
  destruct (m w) as [r w1], (m' w') as [r' w1']; cbn in *.
  destruct (Hf w1 w1' Ha) as [Hr' Ha'].
  destruct (fin w1) as [[u|e] w2], (fin' w1') as [[u'|e'] w2']; cbn in *; done.
Qed.

Lemma alike_silent (m m' : M unit) : silent m → silent m' → alike eq m m'.
Proof.
  intros Hm Hm' w w' Hf. destruct (Hm w) as (-> & Hf1).
  destruct (Hm' w') as (-> & Hf2). split; [done|]. congruence.
Qed.

Lemma silent_ret : silent (ret tt).
Proof. by intros w. Qed.

Lemma silent_when c m : silent m → silent (when c m).
Proof. destruct c; [done|]. intros _. apply silent_ret. Qed.

Lemma silent_emit room ev p : silent (emit room ev p).
Proof. by intros w. Qed.

Lemma silent_query E st idv : silent (query E st idv).
Proof. intros w. unfold query. by destruct (db_fault E (queries w)). Qed.

Lemma alike_mfor {A B} (body body' : B → A → M B) (l : list A) :
  (∀ b x, alike eq (body b x) (body' b x)) →
  ∀ b, alike eq (mfor l body b) (mfor l body' b).
Proof.
  intros Hbody. induction l as [|x l IH]; intros b; cbn [mfor].
  - by apply alike_ret.
  - apply (alike_bind eq); [apply Hbody|]. intros b' ? <-. apply IH.
Qed.

(** The clock is the one thing two such runs read differently. *)
Lemma alike_clock : alike (fun _ _ => True) clock clock.
Proof. by intros w w' Hf. Qed.

Lemma alike_sleep ms : alike eq (sleep ms) (sleep ms).
Proof. by intros w w' Hf. Qed.

Lemma alike_proc_end run : alike eq (proc_end run) (proc_end run).
Proof. intros w w' Hf. split; [done|]. cbn. by rewrite Hf. Qed.

Section SameHost.
Context (tmp : string) (iso_ : Z → string) (faults : fs_call → option error)
        (procs : string → list string → proc_run).
Context (pool1 io1 : bool) (dbf1 : nat → option error).
Context (pool2 io2 : bool) (dbf2 : nat → option error).
Let E1 := MkEnv tmp pool1 io1 iso_ faults dbf1 procs.
Let E2 := MkEnv tmp pool2 io2 iso_ faults dbf2 procs.
Context (j : job).

Lemma alike_fs_mkdir p : alike eq (fs_mkdir E1 p) (fs_mkdir E2 p).
Proof.
  intros w w' Hf. unfold fs_mkdir. cbn.
  destruct (faults (CallMkdir p)); (split; [done|]); cbn; congruence.
Qed.

Lemma alike_fs_writeFile p v : alike eq (fs_writeFile E1 p v) (fs_writeFile E2 p v).
Proof.
  destruct v; try apply alike_throw.
  intros w w' Hf. unfold fs_writeFile. cbn.
  destruct (faults (CallWrite p)); (split; [done|]); cbn; congruence.
Qed.

Lemma alike_fs_rm p : alike eq (fs_rm E1 p) (fs_rm E2 p).
Proof.
  intros w w' Hf. unfold fs_rm. cbn.
  destruct (faults (CallRm p)); (split; [done|]); cbn; congruence.
Qed.

Lemma alike_spawn c a o : alike eq (spawn E1 c a o) (spawn E2 c a o).
Proof. by intros w w' H. Qed.

Lemma alike_executeCommand command args :
  alike (fun v v' => timeless v = timeless v')
    (executeCommand E1 command args j) (executeCommand E2 command args j).
Proof.
  unfold executeCommand.
  apply (alike_bind eq); [apply alike_spawn|]. intros run ? <-.
  apply (alike_bind eq).
  { apply alike_mfor. intros [output error] [t text|text]; cbn [on_chunk].
    - apply (alike_bind eq); [|intros; by apply alike_ret].
      apply alike_silent; apply silent_when, silent_emit.
    - by apply alike_ret. }
  intros [output error] ? <-.
  apply (alike_bind eq); [apply alike_proc_end|]. intros [[[|p|p]|]|e] ? <-.
  - apply (alike_bind (fun _ _ => True)); [apply alike_clock|].
    intros t t' _. by apply alike_ret.
  - apply alike_throw.
  - apply alike_throw.
  - apply alike_throw.
  - destruct (code_is e "ENOENT"); apply alike_throw.
Qed.

Lemma alike_runAnsiblePlaybook :
  alike (fun v v' => timeless v = timeless v')
    (runAnsiblePlaybook E1 j) (runAnsiblePlaybook E2 j).
Proof.
  unfold runAnsiblePlaybook. apply alike_try_finally.
  - unfold playbook_body.
    apply (alike_bind eq); [apply alike_fs_mkdir|]. intros _ _ _.
    apply (alike_bind eq).
    { unfold write_inventory. destruct (typeof_object _); [|apply alike_fs_writeFile].
      apply (alike_bind eq); [apply alike_lift|]. intros ? ? <-. apply alike_fs_writeFile. }
    intros _ _ _.
    apply (alike_bind eq); [apply alike_fs_writeFile|]. intros _ _ _.
    apply (alike_bind eq); [apply alike_lift|]. intros vars ? <-.
    apply (alike_bind eq).
    { destruct (0 <? length vars)%nat; [|by apply alike_ret].
      apply (alike_bind eq); [apply alike_fs_writeFile|]. intros; by apply alike_ret. }
    intros extraVarsArg ? <-. unfold execute_playbook.
    apply (alike_bind eq).
    { unfold checkDockerAvailable.
      apply (alike_bind eq); [apply alike_spawn|]. intros run ? <-.
      apply (alike_bind eq); [apply alike_proc_end|].
      intros [c|e] ? <-; by apply alike_ret. }
    intros [] ? <-; apply alike_executeCommand.
  - unfold cleanup. apply alike_try_catch; [apply alike_fs_rm|].
    intros; by apply alike_ret.
Qed.

Lemma alike_run_job :
  alike (fun v v' => timeless v = timeless v') (run_job E1 j) (run_job E2 j).
Proof.
  unfold run_job.
  destruct (String.eqb (name j) "ansible-playbook"); [apply alike_runAnsiblePlaybook|].
  destruct (String.eqb (name j) "terraform-plan").
  { apply (alike_bind eq); [apply alike_sleep|]. intros; by apply alike_ret. }
  destruct (String.eqb (name j) "terraform-apply").
  { apply (alike_bind eq); [apply alike_sleep|]. intros; by apply alike_ret. }
  destruct (String.eqb (name j) "test-echo"); [|apply alike_throw].
  unfold runTestEcho. apply (alike_bind eq); [apply alike_sleep|]. intros _ _ _.
  apply (alike_bind (fun _ _ => True)); [apply alike_clock|].
  intros t t' _. by apply alike_ret.
Qed.

Lemma alike_worker :
  alike (fun v v' => timeless v = timeless v') (worker E1 j) (worker E2 j).
Proof.
  unfold worker. apply alike_try_catch.
  - change (attempt E1 j) with
      (when pool1 (query E1 SetRunning (field j "dbJobId")) >>
       let! result := run_job E1 j in
       when pool1 (query E1 (SetCompleted result) (field j "dbJobId")) >>
       when io1
         (emit (room_of j) "job-completed"
            (Obj [("jobId", field j "dbJobId"); ("result", result)])) >>
       ret result).
    change (attempt E2 j) with
      (when pool2 (query E2 SetRunning (field j "dbJobId")) >>
       let! result := run_job E2 j in
       when pool2 (query E2 (SetCompleted result) (field j "dbJobId")) >>
       when io2
         (emit (room_of j) "job-completed"
            (Obj [("jobId", field j "dbJobId"); ("result", result)])) >>
       ret result).
    apply (alike_bind eq); [apply alike_silent; apply silent_when, silent_query|].
    intros _ _ _.
    apply (alike_bind (fun v v' => timeless v = timeless v')); [apply alike_run_job|].
    intros result result' Hres.
    apply (alike_bind eq); [apply alike_silent; apply silent_when, silent_query|].
    intros _ _ _.
    apply (alike_bind eq); [apply alike_silent; apply silent_when, silent_emit|].
    intros; by apply alike_ret.
  - intros e. unfold on_error.
    apply (alike_bind eq); [apply alike_silent; apply silent_when, silent_query|].
    intros; apply alike_throw.
Qed.

End SameHost.

(** *** The processor around the runner *)

Lemma same_registry_refl w : same_registry w w.
Proof. done. Qed.

Lemma same_registry_trans w1 w2 w3 :
  same_registry w1 w2 → same_registry w2 w3 → same_registry w1 w3.
Proof. intros [H1 H2] [H3 H4]. split; congruence. Qed.

(** The runners never touch the registry. *)
Lemma run_job_same_registry E j : stable same_registry (run_job E j).
Proof.
  apply (stable_run_job _ same_registry_refl same_registry_trans (fun _ => True));
    by intros.
Qed.

(** The processor returns what the runner returns. *)
Lemma worker_run E j w :
  worker E j w =
  ((run_job E j (started E j w)).1,
   finished E j (run_job E j (started E j w)).1 (run_job E j (started E j w)).2).
Proof.
  unfold worker, try_catch, started, finished.
  change (attempt E j) with
    (when (pool E) (query E SetRunning (field j "dbJobId")) >>
     let! result := run_job E j in
     when (pool E) (query E (SetCompleted result) (field j "dbJobId")) >>
     when (io E)
       (emit (room_of j) "job-completed"
          (Obj [("jobId", field j "dbJobId"); ("result", result)])) >>
     ret result).
  unfold bind at 1.
  assert ((when (pool E) (query E SetRunning (field j "dbJobId")) w).1 = Ok tt) as Hq.
  { unfold when. destruct (pool E); [|done]. by rewrite query_run. }
  destruct (when (pool E) (query E SetRunning (field j "dbJobId")) w) as [r0 w1].
  cbn in Hq. subst r0. cbn [snd].
  unfold bind at 1. destruct (run_job E j w1) as [[v|e] w2]; cbn [fst snd].
  - unfold bind, when, ret, emit.
    destruct (pool E); [rewrite query_run|]; by destruct (io E).
  - unfold on_error, bind, when, throw.
    destruct (pool E); [by rewrite query_run|done].
Qed.

(** X1: a job whose runner returns a result is returned that result by the
    processor; with the registry configured and accepting the two updates,
    the row of the job reads completed with the result, started at the time
    the processor began and completed at the time the runner ended; with the
    socket server present the last effect of the run is the completed
    emission, to the room of the job, with its id and the result. *)
Theorem worker_success_is_recorded E j w v w2 :
  run_job E j (started E j w) = (Ok v, w2) →
  ∃ w',
    worker E j w = (Ok v, w') ∧
    (pool E = true →
     db_fault E (queries w) = None → db_fault E (S (queries w)) = None →
     ∀ n r, field j "dbJobId" = Num n → db w !! n = Some r →
            db w' !! n = Some (MkRow "completed" (Some v) (Some (now w)) (Some (now w2)))) ∧
    (io E = true →
     last (trace w') =
       Some (Emit (room_of j) "job-completed"
               (Obj [("jobId", field j "dbJobId"); ("result", v)]))).
Proof.
  intros Hrun. eexists. split; [by rewrite worker_run, Hrun|].
  destruct (run_job_same_registry E j (started E j w)) as [Hdb Hq].
  rewrite Hrun in Hdb, Hq. cbn in Hdb, Hq.
  unfold finished, bind, when, emit. split.
  - intros Hpool Hf1 Hf2 n r Hid Hr.
    unfold started, when in Hdb, Hq. rewrite Hpool in *.
    rewrite query_run in Hdb, Hq. cbn in Hdb, Hq. rewrite Hf1 in Hdb.
    cbn [fst snd]. rewrite query_run. cbn [fst snd].
    assert (db w2 !! n = Some (MkRow "running" (result r) (Some (now w)) (completed_at r)))
      as Hrow by (rewrite Hdb, Hid; exact (exec_lookup SetRunning n (now w) (db w) r Hr)).
    destruct (io E); cbn; rewrite Hq, Hf2, Hid;
      exact (exec_lookup (SetCompleted v) n (now w2) (db w2) _ Hrow).
  - intros Hio. rewrite Hio. cbn [fst snd].
    destruct (pool E); [rewrite query_run|]; cbn; apply last_snoc.
Qed.

Lemma worker_success_is_recorded_witness :
  run_job docker_host Sample.first_attempt
    (started docker_host Sample.first_attempt Sample.registry) =
    (Ok container_result,
     (run_job docker_host Sample.first_attempt
        (started docker_host Sample.first_attempt Sample.registry)).2) ∧
  ∃ w',
    worker docker_host Sample.first_attempt Sample.registry = (Ok container_result, w') ∧
    db w' !! 7 = Some (MkRow "completed" (Some container_result) (Some 1000) (Some 1940)).
Proof.
  assert (run_job docker_host Sample.first_attempt
            (started docker_host Sample.first_attempt Sample.registry) =
          (Ok container_result,
           (run_job docker_host Sample.first_attempt
              (started docker_host Sample.first_attempt Sample.registry)).2)) as Hrun
    by (vm_compute; reflexivity).
  split; [exact Hrun|].
  destruct (worker_success_is_recorded docker_host Sample.first_attempt Sample.registry
              container_result _ Hrun) as (w' & Hw & Hrow & _).
  exists w'. split; [exact Hw|].
  rewrite (Hrow eq_refl eq_refl eq_refl 7 (MkRow "pending" None None None) eq_refl eq_refl).
  by vm_compute.
Defined.

Lemma worker_outcome_witness_env :
  same_host Sample.host bare_host.
Proof. done. Qed.

(** X2: apart from the clock readings it carries - the duration of a
    command, the timestamp of an echo - the outcome of processing a job
    depends on the host only, its tools and its files: with the registry
    absent, failing or holding other rows, with or without the socket
    server, and whatever the time at which the run starts, the processor
    throws the same error or returns a result with the same other fields. *)
Theorem outcome_depends_on_host_only E E' j w w' :
  same_host E E' → fs w = fs w' →
  same_outcome (worker E j w).1 (worker E' j w').1.
Proof.
  destruct E as [tmp p1 i1 is1 f1 d1 pr1], E' as [tmp' p2 i2 is2 f2 d2 pr2].
  unfold same_host. cbn. intros (<- & <- & <- & <-) Hw.
  by apply (alike_worker tmp is1 f1 pr1 p1 i1 d1 p2 i2 d2 j).
Qed.

Lemma outcome_depends_on_host_only_witness :
  same_host Sample.host bare_host ∧ fs Sample.registry = fs no_registry ∧
  same_outcome (worker Sample.host Sample.ping Sample.registry).1
    (worker bare_host Sample.ping no_registry).1.
Proof.
  split; [exact worker_outcome_witness_env|]. split; [done|].
  apply (outcome_depends_on_host_only Sample.host bare_host Sample.ping
           Sample.registry no_registry); [exact worker_outcome_witness_env|done].
Defined.

(** *** The registry *)

Lemma exec_other st idv t (d : gmap Z row) n :
  idv ≠ Num n → exec st idv t d !! n = d !! n.
Proof.
  intros Hne. unfold exec. destruct idv as [| |b|m|s|l|ps]; try done.
  assert (m ≠ n) by congruence.
  destruct st; by rewrite lookup_alter_ne.
Qed.

Lemma exec_rows st idv t (d : gmap Z row) n :
  is_Some (exec st idv t d !! n) ↔ is_Some (d !! n).
Proof.
  destruct idv as [| |b|m|s|l|ps]; try done.
  destruct (decide (m = n)) as [->|Hne]; [|rewrite exec_other; [done|congruence]].
  unfold exec. destruct st; rewrite lookup_alter_eq; by rewrite fmap_is_Some.
Qed.

Lemma own_row_refl j w : own_row j w w.
Proof. by intros n. Qed.

Lemma own_row_trans j w1 w2 w3 : own_row j w1 w2 → own_row j w2 w3 → own_row j w1 w3.
Proof.
  intros H1 H2 n. destruct (H1 n) as [Ha Hb], (H2 n) as [Hc Hd]. split.
  - by rewrite Hc.
  - intros Hne. by rewrite Hd, Hb.
Qed.

Lemma own_row_same j w w' : db w' = db w → own_row j w w'.
Proof. intros H n. by rewrite H. Qed.

Lemma own_row_when_query E j c st w :
  own_row j w (when c (query E st (field j "dbJobId")) w).2.
Proof.
  unfold when. destruct c; [|apply own_row_refl].
  rewrite query_run. intros n. cbn.
  destruct (db_fault E (queries w)); [done|]. split; [apply exec_rows|].
  intros Hne. by apply exec_other.
Qed.

(** X3: a run of the processor neither creates nor deletes a row of the
    registry and leaves every row but the job's own as it was; it issues
    exactly two updates when the registry is configured and none otherwise. *)
Theorem worker_touches_own_row_only E j w :
  own_row j w (worker E j w).2 ∧
  queries (worker E j w).2 = (queries w + if pool E then 2 else 0)%nat.
Proof.
  rewrite worker_run. cbn [snd].
  destruct (run_job_same_registry E j (started E j w)) as [Hdb Hq].
  set (w1 := started E j w) in *.
  destruct (run_job E j w1) as [r w2]. cbn [fst snd] in *.
  assert (own_row j w w1) as H1 by apply own_row_when_query.
  assert (own_row j w1 w2) as H2 by by apply own_row_same.
  assert (queries w1 = (queries w + if pool E then 1 else 0)%nat) as Hq1.
  { unfold w1, started, when. destruct (pool E); [rewrite query_run|]; cbn; lia. }
  split.
  - eapply own_row_trans; [exact H1|]. eapply own_row_trans; [exact H2|].
    unfold finished. destruct r as [v|e]; [|apply own_row_when_query].
    unfold bind.
    pose proof (own_row_when_query E j (pool E) (SetCompleted v) w2) as H3.
    destruct (when (pool E) (query E (SetCompleted v) (field j "dbJobId")) w2)
      as [[[]|e] w3] eqn:Hw3; cbn [snd] in *; [|done].
    eapply own_row_trans; [exact H3|]. apply own_row_same.
    unfold when, emit. by destruct (io E).
  - unfold finished, bind, when, emit, ret.
    destruct r as [v|e], (pool E); rewrite ?query_run; cbn;
      try destruct (io E); cbn; lia.
Qed.

(** *** Emissions and files *)

(** X4: every emission a run of the processor makes for the job with
    registry id [n] goes to the room [job-n] and carries that id; no emission
    goes to the room of a job with another id. *)
Theorem worker_emits_to_own_room E j w n :
  field j "dbJobId" = Num n →
  ∃ ops,
    trace (worker E j w).2 = trace w ++ ops ∧
    ∀ room ev p,
      Emit room ev p ∈ ops →
      room = "job-" +:+ pretty n ∧ get p "jobId" = Ok (Num n) ∧
      ∀ n', n' ≠ n → room ≠ "job-" +:+ pretty n'.
Proof.
  intros Hid. destruct (worker_ops E j w) as (ops & Htrace & Hops).
  exists ops. split; [exact Htrace|]. intros room ev p Hin.
  rewrite Forall_forall in Hops. destruct (Hops _ Hin) as (Hroom & _ & Hp).
  unfold room_of in Hroom. rewrite Hid in Hroom, Hp. cbn in Hroom.
  split; [exact Hroom|]. split; [exact Hp|].
  intros n' Hne Heq. rewrite Hroom in Heq.
  apply (inj (String.app "job-")) in Heq. by apply (inj pretty) in Heq.
Qed.

Lemma worker_emits_to_own_room_witness :
  ∃ ops,
    trace (worker docker_host Sample.first_attempt Sample.registry).2 =
      trace Sample.registry ++ ops ∧
    ∀ room ev p,
      Emit room ev p ∈ ops →
      room = "job-7" ∧ get p "jobId" = Ok (Num 7) ∧
      ∀ n', n' ≠ 7 → room ≠ "job-" +:+ pretty n'.
Proof.
  exact (worker_emits_to_own_room docker_host Sample.first_attempt Sample.registry 7
           eq_refl).
Defined.

(** X27: the processor emits no events but [job-log] and [job-completed];
    after a failed attempt it emits nothing: the update of the registry,
    when there is one, is the one effect that follows the failure. *)
Theorem worker_never_emits_job_failed E j w :
  ∃ ops,
    trace (worker E j w).2 = trace w ++ ops ∧
    (∀ room ev p, Emit room ev p ∈ ops → ev = "job-log" ∨ ev = "job-completed") ∧
    (∀ e w1,
       attempt E j w = (Throw e, w1) →
       trace (worker E j w).2 =
         trace w1 ++ (if pool E
                      then [Query (SetFailed (error_result e)) (field j "dbJobId")]
                      else [])).
Proof.
  destruct (worker_ops E j w) as (ops & Hops & Hall).
  exists ops. split; [exact Hops|]. split.
  - intros room ev p Hin.
    rewrite Forall_forall in Hall. by destruct (Hall _ Hin) as (_ & Hev & _).
  - intros e w1 Hfail. rewrite (worker_throw E j w e w1 Hfail).
    destruct (pool E); cbn [snd]; [|by rewrite app_nil_r].
    by rewrite query_run.
Qed.

Lemma worker_never_emits_job_failed_witness :
  attempt Sample.host Sample.first_attempt Sample.registry =
    (Throw Sample.playbook_error,
     (attempt Sample.host Sample.first_attempt Sample.registry).2) ∧
  trace (worker Sample.host Sample.first_attempt Sample.registry).2 =
    trace (attempt Sample.host Sample.first_attempt Sample.registry).2
    ++ [Query (SetFailed (error_result Sample.playbook_error)) (Num 7)].
Proof.
  assert (attempt Sample.host Sample.first_attempt Sample.registry =
          (Throw Sample.playbook_error,
           (attempt Sample.host Sample.first_attempt Sample.registry).2)) as Ha
    by (vm_compute; reflexivity).
  split; [exact Ha|].
  destruct (worker_never_emits_job_failed Sample.host Sample.first_attempt
              Sample.registry) as (ops & _ & _ & Hfail).
  exact (Hfail _ _ Ha).
Defined.

Lemma prefix_append (a b : string) : String.prefix a (a +:+ b) = true.
Proof.
  induction a as [|x a IH]; [by destruct b|].
  rewrite append_cons.
  change (String.prefix (String x a) (String x (a +:+ b)))
    with (if ascii_dec x x then String.prefix a (a +:+ b) else false).
  by destruct (ascii_dec x x).
Qed.

Lemma under_self root : under root root = true.
Proof. unfold under. by rewrite String.eqb_refl. Qed.

Lemma under_join root x : under root (path_join root x) = true.
Proof.
  unfold under, path_join. rewrite <- append_assoc, prefix_append.
  apply orb_true_r.
Qed.

(** X5: every directory creation, file write and removal of a run of the
    processor is at or below the working directory of the job. *)
Theorem worker_files_confined E j w :
  ∃ ops,
    trace (worker E j w).2 = trace w ++ ops ∧
    ∀ o p, o ∈ ops → fs_path o = Some p → under (workDir_of E j) p = true.
Proof.
  destruct (worker_ops E j w) as (ops & Htrace & Hops).
  exists ops. split; [exact Htrace|]. intros o p Hin Hp.
  rewrite Forall_forall in Hops. specialize (Hops _ Hin).
  destruct o; cbn in Hp, Hops; try discriminate Hp; injection Hp as <-.
  - rewrite Hops. apply under_self.
  - destruct Hops as [->|[->| ->]]; apply under_join.
  - rewrite Hops. apply under_self.
Qed.

(** *** Job types *)

(** X6: a job whose type is none of the four known ones fails with the
    unknown-type error; the run touches neither the clock nor the files and
    its only effects are the two updates of the registry, running and then
    failed, when the registry is configured. *)
Theorem unknown_job_type_fails E j w :
  name j ≠ "ansible-playbook" → name j ≠ "terraform-plan" →
  name j ≠ "terraform-apply" → name j ≠ "test-echo" →
  ∃ w',
    worker E j w = (Throw (Error ("Tipo de job desconocido: " +:+ name j)), w') ∧
    now w' = now w ∧ fs w' = fs w ∧
    trace w' =
      trace w ++
      (if pool E
       then [Query SetRunning (field j "dbJobId");
             Query (SetFailed (Obj [("error", Str ("Tipo de job desconocido: " +:+ name j))]))
               (field j "dbJobId")]
       else []).
Proof.
  intros H1 H2 H3 H4. rewrite worker_run.
  assert (∀ w0, run_job E j w0 =
                (Throw (Error ("Tipo de job desconocido: " +:+ name j)), w0)) as Hrun.
  { intros w0. unfold run_job.
    by rewrite (proj2 (String.eqb_neq _ _) H1), (proj2 (String.eqb_neq _ _) H2),
      (proj2 (String.eqb_neq _ _) H3), (proj2 (String.eqb_neq _ _) H4). }
  rewrite Hrun. cbn [fst snd]. eexists. split; [reflexivity|].
  unfold finished, started, when.
  destruct (pool E); rewrite ?query_run; cbn; rewrite ?app_nil_r, <- ?app_assoc; done.
Qed.

Lemma unknown_job_type_fails_witness :
  ∃ w',
    worker Sample.host destroy_job Sample.registry =
      (Throw (Error "Tipo de job desconocido: terraform-destroy"), w') ∧
    now w' = 1000 ∧ fs w' = ∅.
Proof.
  destruct (unknown_job_type_fails Sample.host destroy_job Sample.registry)
    as (w' & Hw & Hn & Hf & _); try discriminate.
  exists w'. by repeat split.
Defined.

(** X7: a plan or apply job always succeeds, whatever its payload, with a
    fixed result of exit code 0, after 3000 ms for a plan and 5000 ms for an
    apply; the run spawns no process and leaves the files alone. *)
Theorem infrastructure_jobs_are_simulated E j w :
  name j = "terraform-plan" ∨ name j = "terraform-apply" →
  ∃ v w' ops,
    worker E j w = (Ok v, w') ∧
    get v "exitCode" = Ok (Num 0) ∧
    (∀ j', name j' = name j → (worker E j' w).1 = Ok v) ∧
    now w' = now w + (if String.eqb (name j) "terraform-plan" then 3000 else 5000) ∧
    fs w' = fs w ∧
    trace w' = trace w ++ ops ∧
    ∀ o, o ∈ ops → ¬ is_spawn o ∧ fs_path o = None.
Proof.
  intros [Hn|Hn].
  - assert (∀ j' w0, name j' = "terraform-plan" →
              run_job E j' w0 = runTerraformPlan j' w0) as Hrun.
    { intros j' w0 Hj'. unfold run_job. by rewrite Hj'. }
    rewrite worker_run, Hrun by done. rewrite Hn.
    unfold finished, started, bind, when, emit. cbn [String.eqb].
    destruct (pool E), (io E); rewrite ?query_run; cbn; rewrite ?query_run; cbn;
      eexists _, _, _; (split; [reflexivity|]); (split; [reflexivity|]);
      (split; [intros j' Hj'; rewrite worker_run, Hrun by congruence; reflexivity|]);
      (split; [reflexivity|]); (split; [reflexivity|]);
      cbn; rewrite <- ?app_assoc; (split; [reflexivity|]);
      apply Forall_forall;
      repeat (constructor; [split; [by intros (? & ? & ? & ?)|done]|]);
      constructor.
  - assert (∀ j' w0, name j' = "terraform-apply" →
              run_job E j' w0 = runTerraformApply j' w0) as Hrun.
    { intros j' w0 Hj'. unfold run_job. by rewrite Hj'. }
    rewrite worker_run, Hrun by done. rewrite Hn.
    unfold finished, started, bind, when, emit. cbn [String.eqb].
    destruct (pool E), (io E); rewrite ?query_run; cbn; rewrite ?query_run; cbn;
      eexists _, _, _; (split; [reflexivity|]); (split; [reflexivity|]);
      (split; [intros j' Hj'; rewrite worker_run, Hrun by congruence; reflexivity|]);
      (split; [reflexivity|]); (split; [reflexivity|]);
      cbn; rewrite <- ?app_assoc; (split; [reflexivity|]);
      apply Forall_forall;
      repeat (constructor; [split; [by intros (? & ? & ? & ?)|done]|]);
      constructor.
Qed.

Lemma infrastructure_jobs_are_simulated_witness :
  ∃ v w',
    worker Sample.host plan_job Sample.registry = (Ok v, w') ∧
    get v "exitCode" = Ok (Num 0) ∧ now w' = 4000.
Proof.
  destruct (infrastructure_jobs_are_simulated Sample.host plan_job Sample.registry)
    as (v & w' & ops & Hw & Hc & _ & Hn & _); [by left|].
  exists v, w'. split; [exact Hw|]. split; [exact Hc|exact Hn].
Defined.

(** *** The inventory file *)



(** *** The container path *)

(** *** Streaming *)

Lemma on_chunks_logged E j l : ∀ out err w,
  ∃ ops,
    mfor l (on_chunk E j) (out, err) w =
    (Ok (out +:+ Captured.stdout l, err +:+ Captured.stderr l),
     MkWorld (now w) (fs w) (db w) (queries w) (trace w ++ ops)) ∧
    Forall (fun o => ∃ p, o = Emit (room_of j) "job-log" p) ops ∧
    if io E && truthy (field j "dbJobId")
    then logged ops = Captured.stdout l ∧ length ops = stdout_count l
    else ops = [].
Proof.
  induction l as [|c l IH]; intros out err w.
  - exists []. cbn. rewrite !append_empty_r, app_nil_r.
    split; [by destruct w|]. split; [constructor|].
    by destruct (io E && truthy (field j "dbJobId")).
  - destruct c as [t text|text]; cbn [mfor on_chunk Captured.stdout Captured.stderr
                                       stdout_count].
    + destruct (io E && truthy (field j "dbJobId")) eqn:Hc.
      * unfold bind at 1. cbn.
        destruct (IH (out +:+ text) err
                    (log_op (Emit ("job-" +:+ ToString (field j "dbJobId")) "job-log"
                       (Obj [("jobId", field j "dbJobId"); ("log", Str text);
                             ("timestamp", Str (iso E t))])) w))
          as (ops & -> & Hops & Hlog).
        eexists (_ :: ops). cbn. rewrite !append_assoc, <- app_assoc. cbn.
        split; [reflexivity|]. split; [constructor; eauto|].
        destruct Hlog as [-> ->]. done.
      * unfold bind at 1. cbn.
        destruct (IH (out +:+ text) err w) as (ops & -> & Hops & Hlog).
        exists ops. by rewrite !append_assoc.
    + unfold bind at 1. cbn.
      destruct (IH out (err +:+ text) w) as (ops & -> & Hops & Hlog).
      exists ops. by rewrite !append_assoc.
Qed.

(** X9: while a command runs, with the socket server present and a truthy
    registry id in the payload, one [job-log] emission goes to the room of
    the job for every chunk of the standard output, in order, so that the
    texts emitted make up exactly the output returned on success; chunks of
    the standard error are never emitted. Without the socket server or
    without a truthy id nothing is emitted. *)
Theorem stdout_is_streamed_in_order E command args j w :
  ∃ ops r,
    executeCommand E command args j w =
      (r, ended E command args (MkOpts None None) ops w) ∧
    Forall (fun o => ∃ p, o = Emit (room_of j) "job-log" p) ops ∧
    (io E && truthy (field j "dbJobId") = true →
     length ops = stdout_count (chunks (proc E command args)) ∧
     logged ops = Captured.stdout (chunks (proc E command args)) ∧
     ∀ v, r = Ok v → get v "output" = Ok (Str (logged ops))) ∧
    (io E && truthy (field j "dbJobId") = false → ops = []).
Proof.
  unfold executeCommand, ended.
  set (run := proc E command args).
  destruct (on_chunks_logged E j (chunks run) EmptyString EmptyString
              (log_op (Spawn command args (MkOpts None None)) w))
    as (ops & Hfor & Hops & Hlog).
  exists ops.
  unfold bind at 1. unfold spawn. fold run.
  unfold bind at 1. rewrite Hfor. cbn [log_op now fs db queries trace].
  unfold bind at 1, proc_end. cbn [set_fs tick now fs db queries trace].
  rewrite <- app_assoc. cbn [app].
  assert (∀ r : res val,
            (∀ v, r = Ok v → get v "output" = Ok (Str (Captured.stdout (chunks run)))) →
            Forall (fun o => ∃ p, o = Emit (room_of j) "job-log" p) ops ∧
            (io E && truthy (field j "dbJobId") = true →
             length ops = stdout_count (chunks run) ∧
             logged ops = Captured.stdout (chunks run) ∧
             ∀ v, r = Ok v → get v "output" = Ok (Str (logged ops))) ∧
            (io E && truthy (field j "dbJobId") = false → ops = [])) as Hrest.
  { intros r Hr. split; [exact Hops|].
    destruct (io E && truthy (field j "dbJobId")).
    - destruct Hlog as [Hl Hn]. split; [|done]. intros _. rewrite Hl. by repeat split.
    - split; [done|]. by intros _. }
  destruct (ending_of run) as [[[|p|p]|]|e]; cbn.
  2-4: eexists; (split; [reflexivity|]); by apply Hrest.
  - eexists; (split; [reflexivity|]). apply Hrest. by intros v [= <-].
  - destruct (code_is e "ENOENT"); eexists; (split; [reflexivity|]); by apply Hrest.
Qed.

Lemma stdout_is_streamed_in_order_witness :
  io docker_host && truthy (field Sample.first_attempt "dbJobId") = true ∧
  ∃ ops r,
    executeCommand docker_host "docker" ["run"] Sample.first_attempt Sample.registry =
      (r, ended docker_host "docker" ["run"] (MkOpts None None) ops Sample.registry) ∧
    length ops = 2%nat ∧
    logged ops = "PLAY [all] ****" +:+ nl +:+ "PLAY RECAP ****" +:+ nl.
Proof.
  split; [reflexivity|].
  destruct (stdout_is_streamed_in_order docker_host "docker" ["run"]
              Sample.first_attempt Sample.registry) as (ops & r & Hrun & _ & Hlog & _).
  exists ops, r. split; [exact Hrun|].
  destruct (Hlog eq_refl) as (Hlen & Htext & _). split; [exact Hlen|exact Htext].
Defined.

(** *** Files before processes *)

Lemma fs_writeFile_cases E p v w :
  (∃ e w' ops,
     fs_writeFile E p v w = (Throw e, w') ∧ trace w' = trace w ++ ops ∧
     Forall (fun o => ¬ is_spawn o) ops) ∨
  (∃ s w',
     fs_writeFile E p v w = (Ok tt, w') ∧ trace w' = trace w ++ [WriteFile p s] ∧
     fs_fault E (CallWrite p) = None).
Proof.
  assert (∀ e, ∃ e' w' ops,
            throw (A := unit) e w = (Throw e', w') ∧ trace w' = trace w ++ ops ∧
            Forall (fun o => ¬ is_spawn o) ops) as Hthrow.
  { intros e. exists e, w, []. by rewrite app_nil_r. }
  destruct v as [| |b|n|s|l|ps]; try (left; apply Hthrow).
  unfold fs_writeFile. destruct (fs_fault E (CallWrite p)) as [e|] eqn:Hf.
  - left. eexists _, _, [_]. split; [reflexivity|]. split; [reflexivity|].
    constructor; [|constructor]. by intros (? & ? & ? & ?).
  - right. by eexists _, _.
Qed.

Lemma write_inventory_cases E p v w :
  (∃ e w' ops,
     write_inventory E p v w = (Throw e, w') ∧ trace w' = trace w ++ ops ∧
     Forall (fun o => ¬ is_spawn o) ops) ∨
  (∃ s w',
     write_inventory E p v w = (Ok tt, w') ∧ trace w' = trace w ++ [WriteFile p s] ∧
     fs_fault E (CallWrite p) = None).
Proof.
  unfold write_inventory. destruct (typeof_object v); [|apply fs_writeFile_cases].
  unfold bind, lift. destruct (render_inventory v) as [c|e].
  - apply fs_writeFile_cases.
  - left. exists e, w, []. by rewrite app_nil_r.
Qed.

Lemma playbook_body_before_spawn E j w :
  ∃ pre post,
    trace (playbook_body E j (workDir_of E j) w).2 = trace w ++ pre ++ post ∧
    Forall (fun o => ¬ is_spawn o) pre ∧
    (post = [] ∨
     (fs_fault E (CallMkdir (workDir_of E j)) = None ∧
      fs_fault E (CallWrite (path_join (workDir_of E j) "inventory.ini")) = None ∧
      fs_fault E (CallWrite (path_join (workDir_of E j) "playbook.yml")) = None ∧
      Mkdir (workDir_of E j) ∈ pre ∧
      (∃ s, WriteFile (path_join (workDir_of E j) "inventory.ini") s ∈ pre) ∧
      (∃ s, WriteFile (path_join (workDir_of E j) "playbook.yml") s ∈ pre))).
Proof.
  set (wd := workDir_of E j).
  assert (∀ p s, ¬ is_spawn (WriteFile p s)) as Hw by (by intros p s (? & ? & ? & ?)).
  assert (¬ is_spawn (Mkdir wd)) as Hm by (by intros (? & ? & ? & ?)).
  unfold playbook_body. unfold bind at 1, fs_mkdir.
  destruct (fs_fault E (CallMkdir wd)) as [e|] eqn:Hmk.
  { exists [Mkdir wd], []. cbn. split; [done|]. split; [by repeat constructor|by left]. }
  set (w1 := set_fs _ _). unfold bind at 1.
  destruct (write_inventory_cases E (path_join wd "inventory.ini")
              (field j "inventory") w1) as [(e & w2 & ops & -> & Ht & Hops)
                                           |(s1 & w2 & -> & Ht & Hf1)].
  { exists (Mkdir wd :: ops), []. cbn. rewrite Ht. cbn. rewrite app_nil_r, <- app_assoc.
    split; [done|]. split; [by constructor|by left]. }
  unfold bind at 1.
  destruct (fs_writeFile_cases E (path_join wd "playbook.yml") (field j "playbook") w2)
    as [(e & w3 & ops & -> & Ht3 & Hops)|(s2 & w3 & -> & Ht3 & Hf2)].
  { exists (Mkdir wd :: WriteFile (path_join wd "inventory.ini") s1 :: ops), [].
    cbn. rewrite Ht3, Ht. cbn. rewrite app_nil_r, <- !app_assoc.
    split; [done|]. split; [by repeat constructor|by left]. }
  match goal with
  | |- context [trace (?m w3).2] => assert (appends m) as Htail
  end.
  { apply appends_bind; [apply appends_lift|]. intros vars.
    apply appends_bind; [|intros; apply appends_execute_playbook].
    destruct (0 <? length vars)%nat; [|apply appends_ret].
    apply appends_bind; [apply appends_fs_writeFile|]. intros; apply appends_ret. }
  destruct (Htail w3) as [post Hpost].
  exists [Mkdir wd; WriteFile (path_join wd "inventory.ini") s1;
          WriteFile (path_join wd "playbook.yml") s2], post.
  rewrite Hpost, Ht3, Ht. cbn. rewrite <- !app_assoc. cbn.
  split; [done|]. split; [by repeat constructor|]. right.
  split; [done|]. split; [done|]. split; [done|].
  split; [set_solver|]. split; [exists s1|exists s2]; set_solver.
Qed.

(** X10: a playbook run spawns a process - the probe included - only after
    the working directory was created and the inventory and the playbook
    were written to it, all three without failure. *)
Theorem no_process_before_the_files E j w ops1 c a o ops2 :
  trace (runAnsiblePlaybook E j w).2 = trace w ++ ops1 ++ Spawn c a o :: ops2 →
  fs_fault E (CallMkdir (workDir_of E j)) = None ∧
  fs_fault E (CallWrite (path_join (workDir_of E j) "inventory.ini")) = None ∧
  fs_fault E (CallWrite (path_join (workDir_of E j) "playbook.yml")) = None ∧
  Mkdir (workDir_of E j) ∈ ops1 ∧
  (∃ s, WriteFile (path_join (workDir_of E j) "inventory.ini") s ∈ ops1) ∧
  (∃ s, WriteFile (path_join (workDir_of E j) "playbook.yml") s ∈ ops1).
Proof.
  unfold runAnsiblePlaybook, try_finally.
  destruct (playbook_body_before_spawn E j w) as (pre & post & Hbody & Hpre & Hpost).
  destruct (playbook_body E j (workDir_of E j) w) as [r w1]. cbn in Hbody.
  rewrite cleanup_run. cbn. rewrite Hbody, <- !app_assoc.
  intros Heq%app_inv_head.
  apply app_eq_inv in Heq as [(k & Hk1 & Hk2)|(k & Hk1 & Hk2)].
  - (* the spawn is not among [pre] *)
    destruct k as [|x k].
    + rewrite app_nil_r in Hk1. subst pre. cbn in Hk2.
      destruct Hpost as [->|(Hm & Hi & Hp & Hin1 & [s1 Hin2] & [s2 Hin3])].
      * discriminate Hk2.
      * split; [done|]. split; [done|]. split; [done|].
        split; [done|]. split; [by exists s1|by exists s2].
    + injection Hk2 as <- _. subst pre.
      rewrite Forall_app, Forall_cons in Hpre. destruct Hpre as (_ & Hx & _).
      exfalso. apply Hx. by eexists _, _, _.
  - (* the spawn comes after [pre] *)
    destruct Hpost as [->|(Hm & Hi & Hp & Hin1 & [s1 Hin2] & [s2 Hin3])].
    + cbn in Hk2. destruct k as [|x k]; [discriminate Hk2|].
      injection Hk2 as _ Hk2. destruct k; discriminate Hk2.
    + subst ops1. split; [done|]. split; [done|]. split; [done|].
      split; [set_solver|]. split; [exists s1|exists s2]; set_solver.
Qed.

Lemma no_process_before_the_files_witness :
  ∃ ops1 ops2,
    trace (runAnsiblePlaybook Sample.host Sample.first_attempt Sample.registry).2 =
      trace Sample.registry ++ ops1 ++
      Spawn "docker" ["--version"] (MkOpts (Some "ignore") None) :: ops2 ∧
    Mkdir "/tmp/job-12" ∈ ops1.
Proof.
  eexists [_; _; _], _. split; [vm_compute; reflexivity|].
  eapply (no_process_before_the_files Sample.host Sample.first_attempt Sample.registry).
  vm_compute. reflexivity.
Defined.

(** *** The container path *)

(** A run of the [try] block ends before any process is spawned, or gets
    to the probe with the directory made, the inventory and the playbook
    written, and the variables written when there are some. *)
Lemma playbook_body_shape E j w :
  let wd := workDir_of E j in
  (∃ e w1 pre,
     playbook_body E j wd w = (Throw e, w1) ∧
     trace w1 = trace w ++ pre ∧ Forall (fun o => ¬ is_spawn o) pre) ∨
  (∃ s1 s2 s3 vars w2,
     entries (variables_of j) = Ok vars ∧
     trace w2 =
       trace w ++ [Mkdir wd;
                   WriteFile (path_join wd "inventory.ini") s1;
                   WriteFile (path_join wd "playbook.yml") s2]
               ++ (if (0 <? length vars)%nat
                   then [WriteFile (path_join wd "vars.yml") s3] else []) ∧
     playbook_body E j wd w =
       execute_playbook E wd (path_join wd "inventory.ini") (path_join wd "playbook.yml")
         (if (0 <? length vars)%nat
          then "--extra-vars @" +:+ path_join wd "vars.yml" else EmptyString)
         j w2).
Proof.
  intros wd.
  assert (¬ is_spawn (Mkdir wd)) as Hm by (by intros (? & ? & ? & ?)).
  assert (∀ p s, ¬ is_spawn (WriteFile p s)) as Hw by (by intros p s (? & ? & ? & ?)).
  remember (playbook_body E j wd w) as out eqn:Hout.
  unfold playbook_body in Hout. fold (variables_of j) in Hout.
  unfold bind at 1, fs_mkdir in Hout.
  destruct (fs_fault E (CallMkdir wd)) as [e|] eqn:Hmk.
  { left. eexists _, _, [_]. split; [exact Hout|]. split; [reflexivity|].
    by repeat constructor. }
  set (w1 := set_fs _ _) in Hout. unfold bind at 1 in Hout.
  destruct (write_inventory_cases E (path_join wd "inventory.ini")
              (field j "inventory") w1) as [(e & w2 & ops & Hrun & Ht & Hops)
                                           |(s1 & w2 & Hrun & Ht & _)];
    rewrite Hrun in Hout.
  { left. exists e, w2, (Mkdir wd :: ops). split; [exact Hout|].
    rewrite Ht. cbn. rewrite <- app_assoc. split; [done|]. by constructor. }
  unfold bind at 1 in Hout.
  destruct (fs_writeFile_cases E (path_join wd "playbook.yml") (field j "playbook") w2)
    as [(e & w3 & ops & Hrun3 & Ht3 & Hops)|(s2 & w3 & Hrun3 & Ht3 & _)];
    rewrite Hrun3 in Hout.
  { left. exists e, w3, (Mkdir wd :: WriteFile (path_join wd "inventory.ini") s1 :: ops).
    split; [exact Hout|]. rewrite Ht3, Ht. cbn. rewrite <- !app_assoc.
    split; [done|]. by repeat constructor. }
  assert (trace w3 = trace w ++ [Mkdir wd; WriteFile (path_join wd "inventory.ini") s1;
                                 WriteFile (path_join wd "playbook.yml") s2]) as Hw3.
  { rewrite Ht3, Ht. cbn. by rewrite <- !app_assoc. }
  unfold bind at 1, lift in Hout.
  destruct (entries (variables_of j)) as [vars|e] eqn:Hvars.
  2:{ left. exists e, w3, [Mkdir wd; WriteFile (path_join wd "inventory.ini") s1;
                            WriteFile (path_join wd "playbook.yml") s2].
      split; [exact Hout|]. split; [exact Hw3|]. by repeat constructor. }
  unfold bind at 1 in Hout.
  destruct (0 <? length vars)%nat eqn:Hlen.
  - unfold bind at 1 in Hout.
    destruct (fs_writeFile_cases E (path_join wd "vars.yml")
                (Str (join nl ((fun kv : string * val => kv.1 +:+ ": " +:+ json kv.2)
                               <$> vars))) w3)
      as [(e & w4 & ops & Hrun4 & Ht4 & Hops)|(s3 & w4 & Hrun4 & Ht4 & _)];
      rewrite Hrun4 in Hout.
    + left. exists e, w4, ([Mkdir wd; WriteFile (path_join wd "inventory.ini") s1;
                             WriteFile (path_join wd "playbook.yml") s2] ++ ops).
      split; [exact Hout|]. rewrite Ht4, Hw3, <- app_assoc. split; [done|].
      apply Forall_app. split; [by repeat constructor|done].
    + right. exists s1, s2, s3, vars, w4. split; [reflexivity|]. rewrite Hlen.
      split; [|exact Hout]. rewrite Ht4, Hw3. cbn. by rewrite <- !app_assoc.
  - right. exists s1, s2, EmptyString, vars, w3. split; [reflexivity|]. rewrite Hlen.
    split; [|exact Hout]. rewrite Hw3. by rewrite (app_nil_r [_; _; _]).
Qed.

(** X8: when the probe finds docker (exit code 0), a playbook run either
    fails before it spawns any process, or runs the playbook in the
    container: after the probe the one process spawned is [docker run --rm]
    with the working directory mounted at [/workspace] and the inventory and
    the playbook named by their paths in the container; [--extra-vars] is
    passed exactly when the variables have a key, which is when the
    variables file was written; the outcome is that of this command. *)
Theorem docker_available_runs_in_container E j w :
  ending_of (proc E "docker" ["--version"]) = Exited (Some 0) →
  let wd := workDir_of E j in
  (∃ e pre,
     (runAnsiblePlaybook E j w).1 = Throw e ∧
     trace (runAnsiblePlaybook E j w).2 = trace w ++ pre ++ [Rm wd] ∧
     Forall (fun o => ¬ is_spawn o) pre) ∨
  (∃ s1 s2 s3 vars (with_vars : bool) ops w2,
     entries (variables_of j) = Ok vars ∧
     with_vars = (0 <? length vars)%nat ∧
     trace (runAnsiblePlaybook E j w).2 =
       trace w ++ [Mkdir wd;
                   WriteFile (path_join wd "inventory.ini") s1;
                   WriteFile (path_join wd "playbook.yml") s2]
               ++ (if with_vars then [WriteFile (path_join wd "vars.yml") s3] else [])
               ++ [Spawn "docker" ["--version"] (MkOpts (Some "ignore") None);
                   Spawn "docker" (container_args wd with_vars) (MkOpts None None)]
               ++ ops ++ [Rm wd] ∧
     Forall is_emit ops ∧
     (runAnsiblePlaybook E j w).1 =
       (executeCommand E "docker" (container_args wd with_vars) j
          (ended E "docker" ["--version"] (MkOpts (Some "ignore") None) [] w2)).1).
Proof.
  intros Hprobe wd. unfold runAnsiblePlaybook, try_finally. fold wd.
  destruct (playbook_body_shape E j w) as [(e & w1 & pre & Hbody & Ht & Hpre)
                                          |(s1 & s2 & s3 & vars & w2 & Hvars & Ht & Hbody)];
    fold wd in Hbody, Ht; rewrite Hbody.
  - left. exists e, pre. rewrite cleanup_run. cbn. rewrite Ht, <- app_assoc. done.
  - right. exists s1, s2, s3, vars, (0 <? length vars)%nat.
    set (b := (0 <? length vars)%nat) in *.
    assert (execute_playbook E wd (path_join wd "inventory.ini")
              (path_join wd "playbook.yml")
              (if b then "--extra-vars @" +:+ path_join wd "vars.yml" else EmptyString)
              j w2 =
            executeCommand E "docker" (container_args wd b) j
              (ended E "docker" ["--version"] (MkOpts (Some "ignore") None) [] w2))
      as Hexec.
    { unfold execute_playbook, bind. rewrite checkDockerAvailable_run, Hprobe.
      unfold runWithDocker, container_args. by destruct b. }
    rewrite Hexec.
    destruct (executeCommand_run E "docker" (container_args wd b) j
                (ended E "docker" ["--version"] (MkOpts (Some "ignore") None) [] w2))
      as (ops & r & Hrun & Hops & _).
    exists ops, w2. rewrite Hrun. split; [done|]. split; [done|].
    rewrite cleanup_run. cbn. rewrite Ht, <- ?app_assoc. cbn. rewrite <- ?app_assoc.
    split; [done|]. split; [exact Hops|done].
Qed.

Lemma docker_available_runs_in_container_witness :
  ending_of (proc docker_host "docker" ["--version"]) = Exited (Some 0) ∧
  ∃ ops,
    trace (runAnsiblePlaybook docker_host with_variables Sample.registry).2 =
      [Mkdir "/tmp/job-17";
       WriteFile "/tmp/job-17/inventory.ini" "localhost";
       WriteFile "/tmp/job-17/playbook.yml" "- hosts: all";
       WriteFile "/tmp/job-17/vars.yml" ("env: " +:+ dq +:+ "prod" +:+ dq);
       Spawn "docker" ["--version"] (MkOpts (Some "ignore") None);
       Spawn "docker" (container_args "/tmp/job-17" true) (MkOpts None None)]
      ++ ops ++ [Rm "/tmp/job-17"].
Proof.
  split; [reflexivity|].
  destruct (docker_available_runs_in_container docker_host with_variables Sample.registry
              eq_refl)
    as [(e & pre & He & _)
       |(s1 & s2 & s3 & vars & b & ops & w2 & Hvars & Hb & Ht & _)].
  - exfalso. revert He. vm_compute. discriminate.
  - exists ops. injection Hvars as <-. subst b.
    assert (trace (runAnsiblePlaybook docker_host with_variables Sample.registry).2 =
            default [] (Some (trace (runAnsiblePlaybook docker_host with_variables
                                       Sample.registry).2))) as Hcomp by reflexivity.
    revert Ht. cbn [length Nat.ltb Nat.leb app trace Sample.registry].
    intros Ht. rewrite Ht in Hcomp |- *.
    assert (s1 = "localhost" ∧ s2 = "- hosts: all" ∧
            s3 = "env: " +:+ dq +:+ "prod" +:+ dq) as (-> & -> & ->).
    { assert (trace (runAnsiblePlaybook docker_host with_variables Sample.registry).2 !! 1%nat
              = Some (WriteFile "/tmp/job-17/inventory.ini" "localhost") ∧
              trace (runAnsiblePlaybook docker_host with_variables Sample.registry).2 !! 2%nat
              = Some (WriteFile "/tmp/job-17/playbook.yml" "- hosts: all") ∧
              trace (runAnsiblePlaybook docker_host with_variables Sample.registry).2 !! 3%nat
              = Some (WriteFile "/tmp/job-17/vars.yml" ("env: " +:+ dq +:+ "prod" +:+ dq)))
        as (H1 & H2 & H3) by (repeat split; vm_compute; reflexivity).
      rewrite Ht in H1, H2, H3. cbn in H1, H2, H3.
      injection H1 as ->. injection H2 as ->. injection H3 as ->. done. }
    reflexivity.
Defined.


(** *** Rendering any inventory object *)

Lemma entries_truthy v : truthy v = true → ∃ l, entries v = Ok l.
Proof. destruct v; cbn; try discriminate; eauto. Qed.

Lemma render_host_shift hv : ∃ s, ∀ acc, render_host acc hv = Ok (acc +:+ s).
Proof.
  destruct hv as [host vars]. unfold render_host.
  destruct (truthy vars) eqn:Hv.
  - destruct (entries_truthy vars Hv) as [kvs ->].
    eexists. intros acc. cbn. rewrite render_vars_text. cbn.
    by rewrite !append_assoc.
  - eexists. intros acc. cbn. by rewrite !append_assoc.
Qed.

Lemma render_hosts_shift hs : ∃ s, ∀ acc, for_of hs render_host acc = Ok (acc +:+ s).
Proof.
  induction hs as [|hv hs [s IH]].
  - exists EmptyString. intros acc. cbn. by rewrite append_empty_r.
  - destruct (render_host_shift hv) as [s1 H1]. exists (s1 +:+ s).
    intros acc. cbn [for_of]. rewrite H1. cbn. by rewrite IH, append_assoc.
Qed.

(** A group whose value is an object, or any other value but [null] and
    [undefined], yields its section whatever was rendered before it; a
    [null] group throws. *)
Lemma render_group_shift gh :
  if nullish gh.2
  then ∃ e, ∀ acc, render_group acc gh = Throw e
  else ∃ s, ∀ acc, render_group acc gh = Ok (acc +:+ s).
Proof.
  destruct gh as [group body]. cbn [snd]. unfold render_group.
  destruct (nullish body) eqn:Hn.
  - destruct body; try discriminate Hn; eexists; intros acc; reflexivity.
  - assert (∃ hh, get body "hosts" = Ok hh) as [hh Hh].
    { destruct body; try discriminate Hn; cbn; eauto. }
    rewrite Hh. cbn [res_bind].
    destruct (truthy hh) eqn:Ht.
    + destruct (entries_truthy hh Ht) as [hs ->].
      destruct (render_hosts_shift hs) as [s Hs].
      eexists. intros acc. cbn. rewrite Hs. cbn. by rewrite !append_assoc.
    + eexists. intros acc. cbn. by rewrite !append_assoc.
Qed.

Lemma render_groups_shift groups :
  (∃ s, ∀ acc, for_of groups render_group acc = Ok (acc +:+ s)) ∨
  (∃ e, ∀ acc, for_of groups render_group acc = Throw e).
Proof.
  induction groups as [|gh groups IH].
  - left. exists EmptyString. intros acc. cbn. by rewrite append_empty_r.
  - pose proof (render_group_shift gh) as Hg.
    destruct (nullish gh.2).
    + right. destruct Hg as [e He]. exists e. intros acc. cbn [for_of]. by rewrite He.
    + destruct Hg as [s1 H1]. destruct IH as [[s IH]|[e IH]].
      * left. exists (s1 +:+ s). intros acc. cbn [for_of]. rewrite H1. cbn.
        by rewrite IH, append_assoc.
      * right. exists e. intros acc. cbn [for_of]. rewrite H1. cbn. by rewrite IH.
Qed.

Lemma for_of_app {A S} (body : S → A → res S) l1 l2 : ∀ s,
  for_of (l1 ++ l2) body s = res_bind (for_of l1 body s) (for_of l2 body).
Proof.
  induction l1 as [|x l1 IH]; intros s; [done|].
  cbn [for_of app]. destruct (body s x); cbn; [apply IH|done].
Qed.

Lemma render_throws_iff groups :
  (∃ e, render_inventory (Obj groups) = Throw e) ↔
  ∃ g body, (g, body) ∈ groups ∧ nullish body = true.
Proof.
  unfold render_inventory. cbn [entries res_bind].
  generalize EmptyString. induction groups as [|[g body] groups IH]; intros acc.
  - cbn. split; [by intros [e He]|]. intros (g & body & Hin & _).
    by apply elem_of_nil in Hin.
  - cbn [for_of]. pose proof (render_group_shift (g, body)) as Hg. cbn [snd] in Hg.
    destruct (nullish body) eqn:Hn.
    + destruct Hg as [e He]. rewrite He. cbn. split; [|by eauto].
      intros _. exists g, body. split; [left|done].
    + destruct Hg as [s Hs]. rewrite Hs. cbn [res_bind]. rewrite IH.
      split; intros (g' & body' & Hin & Hb); exists g', body'.
      * split; [by right|done].
      * split; [|done]. apply elem_of_cons in Hin as [[= -> ->]|Hin]; [congruence|done].
Qed.

(** X11: rendering an inventory object fails exactly when one of its
    groups is [null] (or [undefined]): every other group value, an object
    without [hosts] included, is rendered. *)
Theorem render_fails_on_null_group_only groups :
  (∃ e, render_inventory (Obj groups) = Throw e) ↔
  ∃ g body, (g, body) ∈ groups ∧ nullish body = true.
Proof. exact (render_throws_iff groups). Qed.

Lemma render_fails_on_null_group_only_witness :
  ∃ e, render_inventory (Obj [("web", Obj []); ("db", Null)]) = Throw e.
Proof.
  apply (proj2 (render_fails_on_null_group_only [("web", Obj []); ("db", Null)])).
  exists "db", Null. split; [|reflexivity]. right. left.
Defined.

(** X12: the text of an inventory made of the groups of two inventories is
    the text of the first followed by the text of the second, and it fails
    with the error of the first that fails. *)
Theorem render_appended_inventories groups1 groups2 :
  render_inventory (Obj (groups1 ++ groups2)) =
  match render_inventory (Obj groups1) with
  | Ok text1 => prepend text1 (render_inventory (Obj groups2))
  | Throw e => Throw e
  end.
Proof.
  unfold render_inventory. cbn [entries res_bind]. rewrite for_of_app.
  destruct (for_of groups1 render_group EmptyString) as [text1|e]; cbn [res_bind]; [|done].
  destruct (render_groups_shift groups2) as [[s Hs]|[e He]].
  - rewrite !Hs. cbn. reflexivity.
  - by rewrite !He.
Qed.

End RunsFacts.

Module StoreFacts.
Import Js Server Store ServerFacts.
Local Open Scope js_scope.

(** *** Requests *)

(** X13: every submission is answered - no handler throws; it is answered
    200 exactly when it is accepted, and otherwise 400 or 500 with an error
    message, the store being left as it was. *)
Theorem every_submission_is_answered ty t req_body s :
  ∃ resp,
    (submit ty t req_body s).1 = Ok resp ∧
    (accepted ty req_body = true → http_status resp = 200%nat) ∧
    (accepted ty req_body = false →
     (submit ty t req_body s).2 = s ∧
     (http_status resp = 400%nat ∨ http_status resp = 500%nat) ∧
     ∃ msg, body resp = Obj [("error", Str msg)]).
Proof.
  destruct ty; cbn [submit];
    unfold post_playbook, post_plan, post_apply, post_echo, try_catch, bind, lift;
    destruct req_body as [| |b|n|str|items|props];
    cbn [get_first get get_default res_bind accepted].
  all: repeat match goal with
         | |- context [truthy ?v] => destruct (truthy v)
         | |- context [match default Undefined ?o with _ => _ end] =>
             destruct (default Undefined o)
         end.
  all: cbn; eexists; (split; [reflexivity|]); split; intros H; try discriminate H;
    try reflexivity.
  all: split; [by destruct s|]; split; eauto.
Qed.

Lemma every_submission_is_answered_witness :
  accepted PlaybookRun (Obj [("name", Str "web")]) = false ∧
  (submit PlaybookRun 1000 (Obj [("name", Str "web")]) (initial 0)).2 = initial 0.
Proof.
  split; [reflexivity|].
  destruct (every_submission_is_answered PlaybookRun 1000 (Obj [("name", Str "web")])
              (initial 0)) as (resp & _ & _ & H).
  exact (proj1 (H eq_refl)).
Defined.

(** *** The list of jobs *)

Lemma identity_mutate_found jid f l :
  (∀ j, identity (f j) = identity j) →
  identity <$> mutate_found jid f l = identity <$> l.
Proof.
  intros Hf. induction l as [|j l IH]; [done|]. cbn.
  destruct (id j =? jid); cbn; [by rewrite Hf|by rewrite IH].
Qed.

Lemma fire_store i late s s' :
  fire i late s = Some s' →
  identity <$> jobs s' = identity <$> jobs s ∧
  ∃ more, emitted s' = emitted s ++ more.
Proof.
  intros Hfire. split.
  - apply fire_inv in Hfire as (tm & _ & -> & _).
    apply identity_mutate_found. by destruct (cb tm).
  - unfold fire in Hfire. destruct (timers s !! i) as [tm|]; [|done].
    injection Hfire as <-.
    destruct (cb tm) as [r jid name|r jid name];
      unfold run_callback, bind, is_found, when, mutate, emit, setTimeout, ret; cbn;
      destruct (bool_decide _); try destruct r; cbn;
      first [by exists [] ; rewrite app_nil_r | by eexists].
Qed.

Lemma submit_store ty t req_body s :
  ∃ js ts,
    jobs (submit ty t req_body s).2 = js ++ jobs s ∧
    timers (submit ty t req_body s).2 = timers s ++ ts ∧
    emitted (submit ty t req_body s).2 = emitted s ∧
    (length js ≤ 1)%nat ∧
    Forall (fun j => id j = new_id ty t) js ∧
    Forall (fun tm => cb_job (cb tm) = new_id ty t) ts.
Proof.
  destruct ty; cbn [submit new_id];
    unfold post_playbook, post_plan, post_apply, post_echo, try_catch, bind, lift;
    destruct req_body as [| |b|n|str|items|props];
    cbn [get_first get get_default res_bind].
  all: repeat match goal with
         | |- context [if ?c then _ else _] => destruct c
         | |- context [match default Undefined ?o with _ => _ end] =>
             destruct (default Undefined o)
         end.
  all: cbn.
  all: first
    [ exists [], []; rewrite app_nil_r; repeat split; first [done | cbn; lia | constructor]
    | eexists [_], []; rewrite app_nil_r; repeat split;
      first [done | cbn; lia | by repeat constructor]
    | eexists [_], [_]; repeat split; first [done | cbn; lia | by repeat constructor] ].
Qed.

(** X14: whatever timers fire and whatever requests are handled, the list
    of jobs only grows, at its head and by at most one job per request;
    the jobs already listed keep their place, id, name, type, creation time
    and payload; and nothing emitted is taken back. *)
Theorem store_only_grows evs : ∀ s s',
  happen_all evs s = Some s' →
  ∃ new more,
    identity <$> jobs s' = new ++ (identity <$> jobs s) ∧
    (length new ≤ submissions evs)%nat ∧
    emitted s' = emitted s ++ more.
Proof.
  induction evs as [|ev evs IH]; intros s s'; cbn [happen_all].
  - intros [= <-]. exists [], []. by rewrite app_nil_r.
  - destruct (happen ev s) as [s1|] eqn:Hev; [|done]. intros Hrest.
    destruct (IH s1 s' Hrest) as (new & more & Hjobs & Hlen & Hem).
    destruct ev as [i late|ty t req_body]; cbn in Hev.
    + destruct (fire_store i late s s1 Hev) as [Hid [more1 Hem1]].
      exists new, (more1 ++ more). rewrite Hjobs, Hid, Hem, Hem1.
      split; [done|]. split; [done|]. by rewrite app_assoc.
    + injection Hev as <-.
      destruct (submit_store ty t req_body s) as (js & ts & Hjs & _ & Hem1 & Hlen1 & _ & _).
      exists (new ++ (identity <$> js)), more.
      rewrite Hjobs, Hjs, Hem, Hem1, fmap_app, app_assoc.
      split; [done|]. split; [|done].
      rewrite length_app, length_fmap. cbn. lia.
Qed.

Lemma store_only_grows_witness :
  ∃ s' new more,
    happen_all [Submits PlaybookRun 1000 Sample.deploy; Fires 0 2; Fires 0 0] (initial 0)
      = Some s' ∧
    identity <$> jobs s' = new ++ (identity <$> jobs (initial 0)) ∧
    (length new ≤ 1)%nat ∧ emitted s' = more.
Proof.
  eexists. 
  assert (happen_all [Submits PlaybookRun 1000 Sample.deploy; Fires 0 2; Fires 0 0]
            (initial 0) =
          Some (default (initial 0)
                  (happen_all [Submits PlaybookRun 1000 Sample.deploy; Fires 0 2; Fires 0 0]
                     (initial 0)))) as Hrun by (vm_compute; reflexivity).
  destruct (store_only_grows _ _ _ Hrun) as (new & more & Hj & Hl & He).
  exists new, more. split; [exact Hrun|]. split; [exact Hj|]. split; [exact Hl|exact He].
Defined.

(** *** Jobs that share an id *)

Lemma mutate_found_ids jid f l :
  (∀ j, id (f j) = id j) → id <$> mutate_found jid f l = id <$> l.
Proof.
  intros Hf. induction l as [|j l IH]; [done|]. cbn.
  destruct (id j =? jid); cbn; [by rewrite Hf|by rewrite IH].
Qed.

Lemma mutate_found_length jid f l : length (mutate_found jid f l) = length l.
Proof.
  induction l as [|j l IH]; [done|]. cbn.
  destruct (id j =? jid); cbn; [done|by rewrite IH].
Qed.

Lemma mutate_found_app_in jid f l1 l2 :
  (∃ x, x ∈ l1 ∧ id x = jid) →
  mutate_found jid f (l1 ++ l2) = mutate_found jid f l1 ++ l2.
Proof.
  induction l1 as [|j l1 IH]; intros (x & Hin & Hid).
  - by apply elem_of_nil in Hin.
  - cbn. destruct (id j =? jid) eqn:Hj; [done|].
    apply elem_of_cons in Hin as [->|Hin]; [lia|].
    rewrite IH; [done|by exists x].
Qed.

Lemma mutate_found_app_out jid f l1 l2 :
  (∀ x, x ∈ l1 → id x ≠ jid) →
  mutate_found jid f (l1 ++ l2) = l1 ++ mutate_found jid f l2.
Proof.
  induction l1 as [|j l1 IH]; intros Hout; [done|].
  cbn. assert (id j ≠ jid) as Hj by (apply Hout; left).
  rewrite (proj2 (Z.eqb_neq _ _) Hj), IH; [done|].
  intros x Hx. apply Hout. by right.
Qed.

Lemma has_id_mutate_found jid f l a :
  (∀ j, id (f j) = id j) →
  (∃ x, x ∈ l ∧ id x = a) → ∃ x, x ∈ mutate_found jid f l ∧ id x = a.
Proof.
  intros Hf (x & Hin & Hid).
  assert (a ∈ id <$> mutate_found jid f l) as Ha.
  { rewrite mutate_found_ids by done. apply list_elem_of_fmap. by exists x. }
  apply list_elem_of_fmap in Ha as (y & -> & Hy). by exists y.
Qed.

Lemma mutate_found_shadowed jid f j older l :
  (∀ j, id (f j) = id j) → shadowed j older l → shadowed j older (mutate_found jid f l).
Proof.
  intros Hf (newer & rest & -> & Hlen & Hnew).
  destruct (decide (Exists (fun x => id x = jid) newer)) as [Hin|Hout].
  - apply Exists_exists in Hin.
    exists (mutate_found jid f newer), rest.
    split; [by apply mutate_found_app_in|]. split; [done|].
    by apply has_id_mutate_found.
  - assert (∀ x, x ∈ newer → id x ≠ jid) as Hnone.
    { intros x Hx Hid. apply Hout, Exists_exists. by exists x. }
    destruct Hnew as (j' & Hj' & Hid).
    assert (id j ≠ jid) as Hj by (rewrite <- Hid; by apply Hnone).
    exists newer, (mutate_found jid f rest).
    rewrite mutate_found_app_out by done. cbn.
    rewrite (proj2 (Z.eqb_neq _ _) Hj).
    split; [done|]. split; [by rewrite mutate_found_length|]. by exists j'.
Qed.

(** X28: a job whose id a newer job of the list has is never changed
    again, whatever timers fire and whatever requests are handled: it stays
    at its place with its status, its instants and its result, since the
    callbacks look a job up by its id and find the newer one. A job that is
    queued when another takes its id stays queued. *)
Theorem shadowed_job_is_frozen j older evs : ∀ s s',
  shadowed j older (jobs s) →
  happen_all evs s = Some s' →
  shadowed j older (jobs s').
Proof.
  induction evs as [|ev evs IH]; intros s s' Hs; cbn [happen_all].
  - by intros [= <-].
  - destruct (happen ev s) as [s1|] eqn:Hev; [|done]. intros Hrest.
    apply (IH s1 s'); [|exact Hrest].
    destruct ev as [i late|ty t req_body]; cbn in Hev.
    + apply fire_inv in Hev as (tm & _ & -> & _).
      apply mutate_found_shadowed; [|exact Hs]. by destruct (cb tm).
    + injection Hev as <-.
      destruct (submit_store ty t req_body s) as (js & ts & -> & _).
      destruct Hs as (newer & rest & -> & Hlen & j' & Hj' & Hid).
      exists (js ++ newer), rest. rewrite <- app_assoc. split; [done|]. split; [done|].
      exists j'. split; [|done]. apply elem_of_app. by right.
Qed.

Lemma shadowed_job_is_frozen_witness :
  shadowed first_of_twice 2 (jobs twice) ∧
  ∃ s', happen_all [Fires 0 0; Fires 0 0; Fires 0 0; Fires 0 0] twice = Some s' ∧
        timers s' = [] ∧ shadowed first_of_twice 2 (jobs s').
Proof.
  assert (shadowed first_of_twice 2 (jobs twice)) as Hs.
  { eexists [_], _. split; [vm_compute; reflexivity|]. split; [reflexivity|].
    eexists. split; [left|reflexivity]. }
  split; [exact Hs|].
  assert (happen_all [Fires 0 0; Fires 0 0; Fires 0 0; Fires 0 0] twice =
          Some (default twice
                  (happen_all [Fires 0 0; Fires 0 0; Fires 0 0; Fires 0 0] twice)))
    as Hrun by (vm_compute; reflexivity).
  eexists. split; [exact Hrun|]. split; [by vm_compute|].
  exact (shadowed_job_is_frozen first_of_twice 2 _ twice _ Hs Hrun).
Defined.

(** *** The timing of a submitted job *)

Lemma pending_for_app jid l1 l2 :
  pending_for jid (l1 ++ l2) = pending_for jid l1 ++ pending_for jid l2.
Proof. apply filter_app. Qed.

Lemma pending_for_others jid jid' l :
  Forall (fun tm => cb_job (cb tm) = jid') l → jid' ≠ jid → pending_for jid l = [].
Proof.
  intros Hall Hne. induction Hall as [|tm l Htm _ IH]; [done|].
  unfold pending_for. rewrite filter_cons_False by congruence. exact IH.
Qed.

Lemma pending_for_delete_other jid i l tm :
  l !! i = Some tm → cb_job (cb tm) ≠ jid →
  pending_for jid (delete i l) = pending_for jid l.
Proof.
  revert i. induction l as [|x l IH]; intros [|i] Hi Hne; try done.
  - injection Hi as ->. unfold pending_for. by rewrite filter_cons_False.
  - change (delete (S i) (x :: l)) with (x :: delete i l).
    specialize (IH i Hi Hne).
    unfold pending_for in *. rewrite !filter_cons.
    destruct (decide (cb_job (cb x) = jid)); [f_equal|]; exact IH.
Qed.

Lemma pending_for_delete_only jid i l tm tm' :
  l !! i = Some tm → cb_job (cb tm) = jid → pending_for jid l = [tm'] →
  tm = tm' ∧ pending_for jid (delete i l) = [].
Proof.
  revert i. induction l as [|x l IH]; intros [|i] Hi Hid Hone; try done.
  - injection Hi as ->. unfold pending_for in *.
    rewrite filter_cons_True in Hone by done. injection Hone as -> Hrest.
    split; [done|exact Hrest].
  - change (delete (S i) (x :: l)) with (x :: delete i l). cbn in Hi.
    unfold pending_for in *. rewrite filter_cons in Hone |- *.
    destruct (decide (cb_job (cb x) = jid)) as [Hx|Hx].
    + injection Hone as -> Hrest. exfalso.
      apply list_elem_of_lookup_2 in Hi.
      assert (tm ∈ filter (λ tm0, cb_job (cb tm0) = jid) l) as Hin
        by (by apply list_elem_of_filter).
      rewrite Hrest in Hin. by apply elem_of_nil in Hin.
    + by apply (IH i).
Qed.

Lemma pending_for_delete_none jid i l tm :
  l !! i = Some tm → cb_job (cb tm) = jid → pending_for jid l ≠ [].
Proof.
  intros Hi Hid Hnil. apply list_elem_of_lookup_2 in Hi.
  assert (tm ∈ pending_for jid l) as Hin by (by apply list_elem_of_filter).
  rewrite Hnil in Hin. by apply elem_of_nil in Hin.
Qed.

Lemma find_app_others jid js l :
  Forall (fun j => id j ≠ jid) js → find jid (js ++ l) = find jid l.
Proof.
  intros Hall. induction Hall as [|j js Hj _ IH]; [done|].
  unfold find in *. cbn. by rewrite (proj2 (Z.eqb_neq _ _) Hj).
Qed.

Lemma fire_lifecycle jid t r name i late s s' :
  fire i late s = Some s' → lifecycle jid t r name s → lifecycle jid t r name s'.
Proof.
  intros (tm & Hi & Hjobs & Htimers)%fire_inv (j & Hfind & Hphase).
  unfold lifecycle. rewrite Hjobs, Htimers, pending_for_app.
  rewrite find_mutate_found by (by destruct (cb tm)).
  destruct (decide (cb_job (cb tm) = jid)) as [Hid|Hid].
  - rewrite (proj2 (Z.eqb_eq _ _) (eq_sym Hid)), Hfind.
    cbn [fmap option_fmap option_map].
    destruct Hphase as [(Hst & Hsa & Hca & Hres & Hp)|
                        [(ts & Hts & Hst & Hsa & Hca & Hres & Hp)|
                         (ts & tc & Hts & Htc & Hst & Hsa & Hca & Hres & Hp)]].
    + destruct (pending_for_delete_only _ _ _ _ _ Hi Hid Hp) as [-> ->].
      cbn [cb due]. eexists. split; [reflexivity|]. right. left.
      exists (t + 1000 + Z.of_nat late). split; [lia|].
      cbn [status started_at completed_at result set_running app].
      unfold pending_for. rewrite filter_cons_True by done. done.
    + destruct (pending_for_delete_only _ _ _ _ _ Hi Hid Hp) as [-> ->].
      cbn [cb due]. eexists. split; [reflexivity|]. right. right.
      exists ts, (ts + finish_delay r + Z.of_nat late).
      split; [exact Hts|]. split; [lia|].
      cbn [status started_at completed_at result set_completed app].
      by rewrite Hsa.
    + by destruct (pending_for_delete_none _ _ _ _ Hi Hid).
  - assert ((jid =? cb_job (cb tm)) = false) as -> by (apply Z.eqb_neq; congruence).
    rewrite (pending_for_delete_other _ _ _ _ Hi Hid).
    assert (pending_for jid
              match cb tm with
              | Start r0 jid0 name0 =>
                  [MkTimer (due tm + Z.of_nat late + finish_delay r0)
                     (Finish r0 jid0 name0)]
              | Finish _ _ _ => []
              end = []) as ->.
    { destruct (cb tm) as [r0 jid0 name0|r0 jid0 name0]; [|done].
      cbn in Hid. unfold pending_for. by rewrite filter_cons_False. }
    rewrite app_nil_r. by exists j.
Qed.

Lemma submit_lifecycle jid t r name ty' t' req_body s :
  (accepted ty' req_body = true → new_id ty' t' ≠ jid) →
  lifecycle jid t r name s → lifecycle jid t r name (submit ty' t' req_body s).2.
Proof.
  destruct (accepted ty' req_body) eqn:Hacc; [|intros _; by rewrite submit_rejected].
  intros Hne (j & Hfind & Hphase). specialize (Hne eq_refl).
  destruct (submit_store ty' t' req_body s) as (js & ts & Hjs & Hts & _ & _ & Hids & Hcbs).
  unfold lifecycle. rewrite Hjs, Hts, pending_for_app.
  rewrite (pending_for_others _ _ _ Hcbs Hne), app_nil_r.
  rewrite find_app_others; [by exists j|].
  eapply Forall_impl; [exact Hids|]. cbn. congruence.
Qed.

Lemma happen_all_lifecycle jid t r name evs : ∀ s s',
  Forall (avoids jid) evs → happen_all evs s = Some s' →
  lifecycle jid t r name s → lifecycle jid t r name s'.
Proof.
  induction evs as [|ev evs IH]; intros s s' Hav; cbn [happen_all].
  - by intros [= <-].
  - apply Forall_cons in Hav as [Hev Hav].
    destruct (happen ev s) as [s1|] eqn:Hh; [|done]. intros Hrest Hs.
    apply (IH s1 s' Hav Hrest).
    destruct ev as [i late|ty' t' req_body]; cbn in Hh.
    + by eapply fire_lifecycle.
    + injection Hh as <-. by apply submit_lifecycle.
Qed.

Lemma run_timers_lifecycle jid t r name lag fuel : ∀ s,
  lifecycle jid t r name s → lifecycle jid t r name (run_timers lag fuel s).
Proof.
  induction fuel as [|fuel IH]; intros s Hs; cbn; [done|].
  destruct (fire (next_timer (timers s)) (lag fuel) s) as [s'|] eqn:Hfire; [|done].
  apply IH. by eapply fire_lifecycle.
Qed.

(** A submission a simulated route accepts heads the list with a queued job
    and arms its outer timer a second later. *)
Lemma submit_queued ty t r req_body s :
  accepted ty req_body = true → route_of ty = Some r →
  ∃ j, jobs (submit ty t req_body s).2 = j :: jobs s ∧
       id j = new_id ty t ∧ status j = "queued" ∧ created_at j = t ∧
       started_at j = None ∧ completed_at j = None ∧ result j = None ∧
       timers (submit ty t req_body s).2 =
         timers s ++ [MkTimer (t + 1000) (Start r (new_id ty t) (name_of req_body))].
Proof.
  intros Hacc Hr.
  destruct ty; cbn in Hr; try discriminate; injection Hr as <-;
    cbn [submit new_id];
    unfold post_playbook, post_plan, post_apply, try_catch, bind, lift, name_of;
    destruct req_body as [| |b|n|str|items|props]; try discriminate Hacc;
    cbn [get_first get get_default res_bind] in *.
  all: cbn in Hacc; try discriminate Hacc.
  all: try (apply andb_true_iff in Hacc as [[H1 H2]%andb_true_iff H3];
            rewrite H1, H2, H3).
  all: repeat match goal with
         | |- context [match default Undefined ?o with _ => _ end] =>
             destruct (default Undefined o)
         end.
  all: cbn; eexists; repeat split.
Qed.

Lemma submit_starts_lifecycle ty t r req_body s :
  accepted ty req_body = true → route_of ty = Some r →
  pending_for (new_id ty t) (timers s) = [] →
  lifecycle (new_id ty t) t r (name_of req_body) (submit ty t req_body s).2.
Proof.
  intros Hacc Hr Hfree.
  destruct (submit_queued ty t r req_body s Hacc Hr)
    as (j & Hjobs & Hid & Hst & _ & Hsa & Hca & Hres & Htimers).
  exists j. rewrite Hjobs, Htimers, pending_for_app, Hfree. split.
  - unfold find. cbn. by rewrite (proj2 (Z.eqb_eq _ _) Hid).
  - left. repeat split; try done.
    unfold pending_for. by rewrite filter_cons_True.
Qed.

(** X15: take a job that one of the three simulated routes accepts at time
    [t], while no timer of a job with the same id is pending, and let timers
    fire in any order and however late and other requests be handled, none
    of which takes the id of the job. At every moment the job is in one of
    three stages: queued, its outer timer pending and due at [t + 1000];
    running since its outer callback ran, at [t + 1000] or later, its inner
    timer pending and due 4000, 6000 or 10000 after that instant; or
    completed when its inner callback ran, no earlier than that timer was
    due, with the result of its route and no timer left. *)
Theorem simulated_job_timing ty t r req_body s evs s' :
  accepted ty req_body = true →
  route_of ty = Some r →
  pending_for (new_id ty t) (timers s) = [] →
  Forall (avoids (new_id ty t)) evs →
  happen_all evs (submit ty t req_body s).2 = Some s' →
  lifecycle (new_id ty t) t r (name_of req_body) s'.
Proof.
  intros Hacc Hr Hfree Hav Hrun.
  eapply happen_all_lifecycle; [exact Hav|exact Hrun|].
  by apply submit_starts_lifecycle.
Qed.

Lemma simulated_job_timing_witness :
  ∃ s', happen_all [Submits PlanJob 1000 Sample.deploy; Fires 0 7; Fires 1 0]
          (submit PlaybookRun 1000 Sample.deploy (initial 0)).2 = Some s' ∧
        lifecycle 1000 1000 Playbook (name_of Sample.deploy) s'.
Proof.
  assert (happen_all [Submits PlanJob 1000 Sample.deploy; Fires 0 7; Fires 1 0]
            (submit PlaybookRun 1000 Sample.deploy (initial 0)).2 =
          Some (default (initial 0)
                  (happen_all [Submits PlanJob 1000 Sample.deploy; Fires 0 7; Fires 1 0]
                     (submit PlaybookRun 1000 Sample.deploy (initial 0)).2)))
    as Hrun by (vm_compute; reflexivity).
  eexists. split; [exact Hrun|].
  apply (simulated_job_timing PlaybookRun 1000 Playbook Sample.deploy (initial 0)
           [Submits PlanJob 1000 Sample.deploy; Fires 0 7; Fires 1 0]).
  - vm_compute; reflexivity.
  - reflexivity.
  - reflexivity.
  - repeat constructor. cbn. lia.
  - exact Hrun.
Defined.

(** X16: take a job that one of the three simulated routes accepts at time
    [t], while no timer of a job with the same id is pending, and let the
    timer loop run, however late, until no timer is left, no other request
    being handled meanwhile. The job is then completed: it started at
    [t + 1000] or later, it completed 4000, 6000 or 10000 after it started
    or later, and it carries the simulated result of its route. *)
Theorem simulated_job_completes ty t r req_body s lag fuel :
  accepted ty req_body = true →
  route_of ty = Some r →
  pending_for (new_id ty t) (timers s) = [] →
  (weight (timers s) + 2 ≤ fuel)%nat →
  ∃ j ts tc,
    find (new_id ty t) (jobs (run_timers lag fuel (submit ty t req_body s).2)) = Some j ∧
    status j = "completed" ∧
    started_at j = Some ts ∧ t + 1000 ≤ ts ∧
    completed_at j = Some tc ∧ ts + finish_delay r ≤ tc ∧
    result j = Some (simulated_result r (name_of req_body)) ∧
    timers (run_timers lag fuel (submit ty t req_body s).2) = [].
Proof.
  intros Hacc Hr Hfree Hfuel.
  pose proof (submit_starts_lifecycle ty t r req_body s Hacc Hr Hfree) as Hs.
  apply (run_timers_lifecycle _ _ _ _ lag fuel) in Hs.
  assert (timers (run_timers lag fuel (submit ty t req_body s).2) = []) as Hnil.
  { apply run_timers_drains.
    destruct (submit_queued ty t r req_body s Hacc Hr) as (j & _ & _ & _ & _ & _ & _ & _ & ->).
    rewrite weight_app. cbn. lia. }
  destruct Hs as (j & Hfind & Hphase). rewrite Hnil in Hphase.
  destruct Hphase as [(_ & _ & _ & _ & Hp)|
                      [(ts & _ & _ & _ & _ & _ & Hp)|
                       (ts & tc & Hts & Htc & Hst & Hsa & Hca & Hres & _)]];
    [discriminate Hp|discriminate Hp|].
  exists j, ts, tc. by repeat split.
Qed.

Lemma simulated_job_completes_witness :
  ∃ j ts tc,
    find 1002 (jobs (run_timers (fun n => n) 2
                       (submit ApplyJob 1000 Sample.deploy (initial 0)).2)) = Some j ∧
    status j = "completed" ∧ started_at j = Some ts ∧ 2000 ≤ ts ∧
    completed_at j = Some tc ∧ ts + 10000 ≤ tc.
Proof.
  destruct (simulated_job_completes ApplyJob 1000 Apply Sample.deploy (initial 0)
              (fun n => n) 2)
    as (j & ts & tc & Hfind & Hst & Hsa & Hts & Hca & Htc & _).
  - vm_compute; reflexivity.
  - reflexivity.
  - reflexivity.
  - cbn. lia.
  - exists j, ts, tc. by repeat split.
Defined.

End StoreFacts.

(* ===================================================================== *)
(** ** Properties of the queue helpers, continued *)
(* ===================================================================== *)

Module BacklogFacts.
Import Js Queue QueueFacts.

Lemma getQueueStats_reads fault q :
  (getQueueStats fault q).1 =
  Ok (match fault GetWaiting, fault GetActive, fault GetCompleted, fault GetFailed with
      | None, None, None, None =>
          counts (length (waiting q)) (length (active q)) (length (completed q))
                 (length (failed q))
      | _, _, _, _ => counts 0 0 0 0
      end).
Proof.
  unfold getQueueStats, try_catch, bind, read, ret.
  by destruct (fault GetWaiting), (fault GetActive), (fault GetCompleted),
    (fault GetFailed).
Qed.

(** X17: a job that [createJob] has just enqueued does not show in the
    statistics: [getQueueStats] answers the same before and after, whether
    the queue took the job or not. *)
Theorem enqueued_job_is_not_counted fault jobType jobData q :
  (getQueueStats fault (createJob fault jobType jobData q).2).1 =
  (getQueueStats fault q).1.
Proof.
  rewrite !getQueueStats_reads, createJob_add. unfold add.
  destruct (fault Add); [done|]. by cbn.
Qed.

(** X18: when the queue rejects the job, [createJob] throws the error of
    the queue and nothing is enqueued. *)
Theorem createJob_rethrows fault jobType jobData q e :
  fault Add = Some e →
  createJob fault jobType jobData q = (Throw e, q).
Proof.
  intros Hf. unfold createJob, try_catch, bind, add, throw. by rewrite Hf.
Qed.

Lemma createJob_rethrows_witness :
  createJob (fun _ => Some (Error "connect ECONNREFUSED 127.0.0.1:6379"))
    "test-echo" (Obj [("message", Str "ping")]) one_waiting =
  (Throw (Error "connect ECONNREFUSED 127.0.0.1:6379"), one_waiting).
Proof.
  apply (createJob_rethrows (fun _ => Some (Error "connect ECONNREFUSED 127.0.0.1:6379"))).
  reflexivity.
Defined.

End BacklogFacts.

(* ===================================================================== *)
(** ** Properties of the inventories of the demo server *)
(* ===================================================================== *)

Module InventoryApiFacts.
Import Js Server Runs InventoryApi.

(** X19: an inventory posted with any body other than [null] and
    [undefined] is answered with the stored inventory, which carries the
    [name], [description] and [hosts] of the body and the time as id, and
    the list served afterwards starts with it and goes on with the
    inventories there were; a missing body is answered with status 500 and
    stores nothing. *)
Theorem posted_inventory_is_listed iso t req_body inventories :
  (nullish req_body = false →
   ∃ inv,
     post_inventories iso t req_body inventories =
       (Ok (json_response inv), inv :: inventories) ∧
     get inv "id" = Ok (Num t) ∧
     get inv "name" = get req_body "name" ∧
     get inv "description" = get req_body "description" ∧
     get inv "hosts" = get req_body "hosts" ∧
     (get_inventories (inv :: inventories)).1 =
       Ok (json_response (Arr (inv :: inventories)))) ∧
  (nullish req_body = true →
   ∃ resp,
     post_inventories iso t req_body inventories = (Ok resp, inventories) ∧
     http_status resp = 500%nat).
Proof.
  split; intros Hn; destruct req_body as [| |b|n|str|items|props]; try discriminate Hn;
    unfold post_inventories, try_catch, bind, lift;
    cbn [get_first get get_default res_bind].
  all: repeat match goal with
         | |- context [match default Undefined ?o with _ => _ end] =>
             destruct (default Undefined o)
         end.
  all: cbn; eexists; repeat split.
Qed.

Lemma posted_inventory_is_listed_witness :
  ∃ inv,
    post_inventories stamp 1000 staging [] = (Ok (json_response inv), [inv]) ∧
    get inv "name" = Ok (Str "staging").
Proof.
  destruct (posted_inventory_is_listed stamp 1000 staging []) as [H _].
  destruct (H eq_refl) as (inv & Hpost & _ & Hname & _).
  exists inv. split; [exact Hpost|]. rewrite Hname. reflexivity.
Defined.

End InventoryApiFacts.

(* ===================================================================== *)
(** ** Properties of the initialisation of the database *)
(* ===================================================================== *)

Module DatabaseFacts.
Import Js Database.

Lemma query_tables server st w :
  if_not_exists server →
  tables w ⊆ tables (query server st w).2 ∧
  (∀ name, is_Some (tables (query server st w).2 !! name) →
           is_Some (tables w !! name) ∨ name = table st) ∧
  console (query server st w).2 = console w ∧
  ((query server st w).1 = Ok tt → is_Some (tables (query server st w).2 !! table st)).
Proof.
  intros Hs. unfold query.
  destruct (server st (tables w)) as [db|e] eqn:Hrun; cbn.
  - destruct (Hs _ _ _ Hrun) as [Hex [->|[Hnone ->]]].
    + split; [done|]. split; [by left|]. done.
    + split; [by apply insert_subseteq|]. split; [|done].
      intros name. destruct (decide (name = table st)) as [->|Hne]; [by right|].
      rewrite lookup_insert_ne by done. by left.
  - split; [done|]. split; [by left|]. split; [done|]. discriminate.
Qed.

(** X20: [initDB] never rejects, whatever the database answers: it ends
    with one more line on the console, the line of success or the error. *)
Theorem initDB_never_rejects server w :
  ∃ w' l, initDB server w = (Ok tt, w') ∧ console w' = console w ++ [l] ∧
          ∃ e, l = Log "✅ Base de datos inicializada" ∨
               l = LogError "❌ Error inicializando base de datos:" e.
Proof.
  unfold initDB, try_catch, bind, query, console_log, console_error.
  destruct (server create_users (tables w)) as [db1|e1]; cbn.
  - destruct (server create_jobs db1) as [db2|e2]; cbn.
    + destruct (server create_inventories db2) as [db3|e3]; cbn.
      * eexists _, _. split; [reflexivity|]. split; [reflexivity|].
        exists (Error EmptyString). by left.
      * eexists _, _. split; [reflexivity|]. split; [reflexivity|]. exists e3. by right.
    + eexists _, _. split; [reflexivity|]. split; [reflexivity|]. exists e2. by right.
  - eexists _, _. split; [reflexivity|]. split; [reflexivity|]. exists e1. by right.
Qed.

(** X21: with a database that honours [IF NOT EXISTS], [initDB] leaves
    every table there was with the columns it had, adds no table other than
    [users], [jobs] and [inventories], and logs the success only once the
    three of them exist. *)
Theorem initDB_keeps_tables server w :
  if_not_exists server →
  tables w ⊆ tables (initDB server w).2 ∧
  (∀ name, is_Some (tables (initDB server w).2 !! name) →
           is_Some (tables w !! name) ∨
           name = "users" ∨ name = "jobs" ∨ name = "inventories") ∧
  (last (console (initDB server w).2) = Some (Log "✅ Base de datos inicializada") →
   is_Some (tables (initDB server w).2 !! "users") ∧
   is_Some (tables (initDB server w).2 !! "jobs") ∧
   is_Some (tables (initDB server w).2 !! "inventories")).
Proof.
  intros Hs.
  pose proof (query_tables server create_users w Hs) as (Hsub1 & Hnew1 & Hc1 & Hex1).
  set (w1 := (query server create_users w).2) in *.
  pose proof (query_tables server create_jobs w1 Hs) as (Hsub2 & Hnew2 & Hc2 & Hex2).
  set (w2 := (query server create_jobs w1).2) in *.
  pose proof (query_tables server create_inventories w2 Hs) as (Hsub3 & Hnew3 & Hc3 & Hex3).
  set (w3 := (query server create_inventories w2).2) in *.
  assert (∀ name, is_Some (tables w3 !! name) →
                  is_Some (tables w !! name) ∨
                  name = "users" ∨ name = "jobs" ∨ name = "inventories") as Hnew.
  { intros name H3. destruct (Hnew3 name H3) as [H2| ->]; [|by auto].
    destruct (Hnew2 name H2) as [H1| ->]; [|by auto].
    destruct (Hnew1 name H1) as [H0| ->]; by auto. }
  assert (∀ (a b : schema) name, a ⊆ b → is_Some (a !! name) → is_Some (b !! name))
    as Hmono.
  { intros a b name Hab [x Hx]. exists x. by eapply lookup_weaken. }
  unfold initDB, try_catch, bind, console_log, console_error.
  destruct (query server create_users w) as [[[]|e1] w1'] eqn:Hq1; cbn [fst snd] in *.
  - subst w1. cbn [snd] in *.
    destruct (query server create_jobs w1') as [[[]|e2] w2'] eqn:Hq2; cbn [fst snd] in *.
    + subst w2. cbn [snd] in *.
      destruct (query server create_inventories w2') as [[[]|e3] w3'] eqn:Hq3;
        cbn [fst snd] in *; subst w3; cbn [snd tables console] in *.
      * split; [by repeat (etrans; [eassumption|])|]. split; [exact Hnew|].
        intros _. split; [|split].
        -- apply (Hmono (tables w1')); [by etrans|]. by apply Hex1.
        -- apply (Hmono (tables w2')); [done|]. by apply Hex2.
        -- by apply Hex3.
      * split; [by repeat (etrans; [eassumption|])|]. split; [exact Hnew|].
        rewrite last_snoc. discriminate.
    + subst w2. cbn [snd tables console] in *.
      split; [by etrans|].
      split; [intros name H2; apply Hnew; by apply (Hmono (tables w2'))|].
      rewrite last_snoc. discriminate.
  - subst w1. cbn [snd tables console] in *.
    split; [done|].
    split; [intros name H1; apply Hnew;
            apply (Hmono (tables w2)); [done|]; by apply (Hmono (tables w1'))|].
    rewrite last_snoc. discriminate.
Qed.

Lemma postgres_if_not_exists reachable : if_not_exists (postgres reachable).
Proof.
  intros st db db'. unfold postgres.
  destruct reachable; cbn; [|discriminate].
  destruct (db !! table st) as [cols|] eqn:Hl.
  - intros [= <-]. split; [by rewrite Hl|by left].
  - destruct (references st) as [r|].
    + destruct (bool_decide (is_Some (db !! r))); [|discriminate].
      intros [= <-]. split; [by rewrite lookup_insert_eq|by right].
    + intros [= <-]. split; [by rewrite lookup_insert_eq|by right].
Qed.

Lemma initDB_keeps_tables_witness :
  tables (initDB (postgres true) legacy).2 !! "jobs" = Some ["id"; "name"] ∧
  is_Some (tables (initDB (postgres true) legacy).2 !! "users").
Proof.
  destruct (initDB_keeps_tables (postgres true) legacy (postgres_if_not_exists true))
    as (Hsub & _ & Hall).
  split.
  - eapply lookup_weaken; [|exact Hsub]. reflexivity.
  - apply Hall. vm_compute. reflexivity.
Defined.

End DatabaseFacts.

(* ===================================================================== *)
(** ** Properties of the helpers of the dashboard *)
(* ===================================================================== *)

Module DashboardFacts.
Import Js Worker Runs WorkerFacts RunsFacts Dashboard.

(** X22: the label of a valid timestamp never counts zero: it reads
    [Justo ahora] under a minute (and for a timestamp in the future), then
    1 to 59 minutes, 1 to 23 hours, 1 to 6 days, and the locale date from
    seven days on. *)
Theorem formatTime_label fmt now d :
  (now - d < 60000 ∧ formatTime fmt now (Some d) = "Justo ahora") ∨
  (∃ n, 1 ≤ n ≤ 59 ∧ n = (now - d) / 60000 ∧
        formatTime fmt now (Some d) = "Hace " +:+ pretty n +:+ " min") ∨
  (∃ n, 1 ≤ n ≤ 23 ∧ n = (now - d) / 3600000 ∧
        formatTime fmt now (Some d) = "Hace " +:+ pretty n +:+ " h") ∨
  (∃ n, 1 ≤ n ≤ 6 ∧ n = (now - d) / 86400000 ∧
        formatTime fmt now (Some d) = "Hace " +:+ pretty n +:+ " d") ∨
  (604800000 ≤ now - d ∧ formatTime fmt now (Some d) = fmt (Some d)).
Proof.
  unfold formatTime. cbn zeta. generalize (now - d). intros diff.
  pose proof (Z.div_mod diff 60000 ltac:(lia)) as Hm.
  pose proof (Z.mod_pos_bound diff 60000 ltac:(lia)) as Hmb.
  pose proof (Z.div_mod diff 3600000 ltac:(lia)) as Hh.
  pose proof (Z.mod_pos_bound diff 3600000 ltac:(lia)) as Hhb.
  pose proof (Z.div_mod diff 86400000 ltac:(lia)) as Hd.
  pose proof (Z.mod_pos_bound diff 86400000 ltac:(lia)) as Hdb.
  destruct (Z.ltb_spec (diff / 60000) 1) as [H1|H1].
  { left. split; [lia|done]. }
  right. destruct (Z.ltb_spec (diff / 60000) 60) as [H2|H2].
  { left. exists (diff / 60000). split; [lia|]. by split. }
  right. destruct (Z.ltb_spec (diff / 3600000) 24) as [H3|H3].
  { left. exists (diff / 3600000). split; [lia|]. by split. }
  right. destruct (Z.ltb_spec (diff / 86400000) 7) as [H4|H4].
  { left. exists (diff / 86400000). split; [lia|]. by split. }
  right. split; [lia|done].
Qed.

Lemma length_append (a b : string) :
  String.length (a +:+ b) = (String.length a + String.length b)%nat.
Proof.
  induction a as [|c a IH]; [done|].
  rewrite append_cons. cbn [String.length]. by rewrite IH.
Qed.

Lemma length_substring n : ∀ s,
  (n ≤ String.length s)%nat → String.length (String.substring 0 n s) = n.
Proof.
  induction n as [|n IH]; intros [|c s] H; cbn in *; try done; try lia.
  rewrite IH; [done|lia].
Qed.

Lemma substring_append n : ∀ s rest,
  (n ≤ String.length s)%nat →
  String.substring 0 n (String.substring 0 n s +:+ rest) = String.substring 0 n s.
Proof.
  induction n as [|n IH]; intros [|c s] rest H; cbn in *; try lia.
  - by destruct rest.
  - by destruct rest.
  - cbn [String.substring]. rewrite append_cons. cbn [String.substring].
    rewrite IH; [done|lia].
Qed.

(** X23: a text within the limit is shown as it is; a longer one is cut
    and gets three dots, so that the result holds up to three characters
    more than the limit; and truncating twice is truncating once. *)
Theorem truncateOutput_is_idempotent text maxLength :
  (String.length (truncateOutput text maxLength) ≤ Z.to_nat maxLength + 3)%nat ∧
  truncateOutput (truncateOutput text maxLength) maxLength =
  truncateOutput text maxLength.
Proof.
  unfold truncateOutput.
  destruct (Z.leb_spec (Z.of_nat (String.length text)) maxLength) as [Hle|Hlt].
  - split; [lia|]. destruct (Z.leb_spec (Z.of_nat (String.length text)) maxLength); [done|lia].
  - assert (Z.to_nat maxLength ≤ String.length text)%nat as Hn by lia.
    assert (String.length (String.substring 0 (Z.to_nat maxLength) text +:+ "...") =
            (Z.to_nat maxLength + 3)%nat) as Hlen.
    { rewrite length_append, length_substring by done. reflexivity. }
    split; [lia|]. rewrite Hlen.
    destruct (Z.leb_spec (Z.of_nat (Z.to_nat maxLength + 3)) maxLength); [lia|].
    by rewrite substring_append.
Qed.




Lemma count_group_cases count g body :
  if nullish body then ∃ e, count_group count (g, body) = Throw e
  else ∃ n, count_group count (g, body) = Ok n.
Proof.
  unfold count_group. cbn [snd].
  destruct body as [| |b|n|str|items|props]; cbn [nullish get res_bind];
    try (cbn; by eauto).
  destruct (truthy (default Undefined (assoc "hosts" props))) eqn:Ht; [|eauto].
  unfold keys_length.
  destruct (entries_truthy _ Ht) as [l ->]. cbn. eauto.
Qed.

Lemma countHosts_throws_iff groups :
  (∃ e, countHosts (Obj groups) = Throw e) ↔
  ∃ g body, (g, body) ∈ groups ∧ nullish body = true.
Proof.
  unfold countHosts. cbn [for_in]. generalize 0.
  induction groups as [|[g body] groups IH]; intros count.
  - cbn. split; [by intros [e He]|]. intros (g & body & Hin & _).
    by apply elem_of_nil in Hin.
  - cbn [for_of]. pose proof (count_group_cases count g body) as Hg.
    destruct (nullish body) eqn:Hn.
    + destruct Hg as [e He]. rewrite He. cbn. split; [|by eauto].
      intros _. exists g, body. split; [left|done].
    + destruct Hg as [n Hs]. rewrite Hs. cbn [res_bind]. rewrite IH.
      split; intros (g' & body' & Hin & Hb); exists g', body'.
      * split; [by right|done].
      * split; [|done]. apply elem_of_cons in Hin as [[= -> ->]|Hin]; [congruence|done].
Qed.

(** X25: the dashboard fails to count the hosts of an inventory object
    exactly when the worker fails to render it. *)
Theorem countHosts_fails_with_rendering groups :
  (∃ e, countHosts (Obj groups) = Throw e) ↔
  (∃ e, render_inventory (Obj groups) = Throw e).
Proof. by rewrite countHosts_throws_iff, render_throws_iff. Qed.

Lemma countHosts_fails_with_rendering_witness :
  ∃ e, countHosts (Obj [("web", Obj []); ("db", Null)]) = Throw e.
Proof.
  apply (proj2 (countHosts_fails_with_rendering [("web", Obj []); ("db", Null)])).
  eexists. vm_compute. reflexivity.
Defined.

End DashboardFacts.
